(** * Report viewer and analysis form: a shallow embedding

    The development follows the client-side scripts of the site:
    the report viewer ([initReport] and its local helpers [showError],
    [renderMarkdown], [slugify], [generateTOC], [setupScrollSpy],
    [updateActiveLink]) and the form validation helper [validateAsins].

    JavaScript strings are sequences of UTF-16 code units, modelled as
    [list N].  The DOM, the browser stores, the network and the Markdown
    engine are the environment of the scripts; they are gathered in a
    record [World] that the embedded functions read. *)

From Stdlib Require Import NArith List Ascii String DecimalNat Lia.
From Stdlib Require DecimalN.
From stdpp Require Import base option list gmap.

Local Open Scope N_scope.
Set Warnings "-register-all".

(** ** Strings *)

Abbreviation jsstring := (list N).

(** A literal of Basic Latin characters as code units. *)
Definition js (s : string) : jsstring := map N_of_ascii (list_ascii_of_string s).
Arguments js : simpl never.

Definition dquote : jsstring := [34].
Definition hyphen : N := 45.

Definition between (lo hi c : N) : bool := (lo <=? c) && (c <=? hi).

(** [\s] of a regular expression, which is also what [String.prototype.trim]
    strips: WhiteSpace and LineTerminator code units. *)
Definition is_space (c : N) : bool :=
  between 9 13 c || (c =? 32) || (c =? 160) || (c =? 5760)
  || between 8192 8202 c || (c =? 8232) || (c =? 8233) || (c =? 8239)
  || (c =? 8287) || (c =? 12288) || (c =? 65279).

(** [\w] without the unicode flag: [A-Za-z0-9_]. *)
Definition is_word (c : N) : bool :=
  between 65 90 c || between 97 122 c || between 48 57 c || (c =? 95).

Definition is_hyphen (c : N) : bool := c =? hyphen.

(** The class [\w\u4e00-\u9fa5-] whose complement [slugify] deletes. *)
Definition is_slug_unit (c : N) : bool :=
  is_word c || between 19968 40869 c || is_hyphen c.

Definition is_basic_latin (c : N) : bool := c <? 128.

Definition lower_unit (c : N) : N := if between 65 90 c then c + 32 else c.
Definition upper_unit (c : N) : N := if between 97 122 c then c - 32 else c.

(** [toLowerCase] and [toUpperCase] follow the Unicode case tables of the
    host; the scripts only rely on them as functions, and on Basic Latin
    text they are the unit-wise maps above. *)
Class CaseMapping := {
  toLowerCase : jsstring -> jsstring;
  toUpperCase : jsstring -> jsstring;
  toLowerCase_basic_latin :
    forall s, forallb is_basic_latin s = true -> toLowerCase s = map lower_unit s;
  toUpperCase_basic_latin :
    forall s, forallb is_basic_latin s = true -> toUpperCase s = map upper_unit s
}.

(** The case mapping that leaves every unit outside Basic Latin alone. *)
#[export] Instance basic_latin_case : CaseMapping := {|
  toLowerCase := map lower_unit;
  toUpperCase := map upper_unit;
  toLowerCase_basic_latin := fun _ _ => eq_refl;
  toUpperCase_basic_latin := fun _ _ => eq_refl
|}.

(** [s.replace(/[p]+/g, rep)]: every maximal run of [p]-units becomes one
    [rep].  A [p]-unit followed by another one is inside a run and yields
    nothing; the last unit of a run yields [rep]. *)
Fixpoint replace_runs (p : N -> bool) (rep : N) (s : jsstring) : jsstring :=
  match s with
  | [] => []
  | c :: r =>
      if p c then
        match r with
        | c' :: _ => if p c' then replace_runs p rep r else rep :: replace_runs p rep r
        | [] => [rep]
        end
      else c :: replace_runs p rep r
  end.

(** [s.replace(/^[p]+/, '')] *)
Fixpoint drop_leading (p : N -> bool) (s : jsstring) : jsstring :=
  match s with
  | [] => []
  | c :: r => if p c then drop_leading p r else s
  end.

(** [s.replace(/[p]+$/, '')] *)
Fixpoint drop_trailing (p : N -> bool) (s : jsstring) : jsstring :=
  match s with
  | [] => []
  | c :: r =>
      match drop_trailing p r with
      | [] => if p c then [] else [c]
      | r' => c :: r'
      end
  end.

(** [String.prototype.trim] *)
Definition trim (s : jsstring) : jsstring :=
  drop_trailing is_space (drop_leading is_space s).

(** [.replace(/[\s]+/g, '-')] *)
Definition hyphenate_spaces (s : jsstring) : jsstring :=
  replace_runs is_space hyphen s.

(** [.replace(/[^\w\u4e00-\u9fa5-]/g, '')] *)
Definition strip_unsafe (s : jsstring) : jsstring := filter (fun c => is_slug_unit c = true) s.

(** [.replace(/--+/g, '-')]: a run of two or more hyphens becomes one
    hyphen, and a single hyphen stays. *)
Definition collapse_hyphens (s : jsstring) : jsstring :=
  replace_runs is_hyphen hyphen s.

(** [.replace(/^-+|-+$/g, '')] *)
Definition trim_hyphens (s : jsstring) : jsstring :=
  drop_trailing is_hyphen (drop_leading is_hyphen s).

Section Slug.
Context `{CaseMapping}.

(** [slugify], as the viewer defines it. *)
Definition slugify (text : jsstring) : jsstring :=
  trim_hyphens
    (collapse_hyphens
       (strip_unsafe
          (hyphenate_spaces
             (trim (toLowerCase text))))).

End Slug.

(** ** The slug as the specification words it

    The five steps of the specification, written from its text and apart
    from the replacements above: character classes as tables of code-unit
    ranges, runs collapsed by a scan that remembers whether it is inside a
    run, trimming by reversal. *)

Definition in_ranges (ranges : list (N * N)) (c : N) : bool :=
  existsb (fun r => (r.1 <=? c) && (c <=? r.2)) ranges.

(** White space: tab to carriage return, space, no-break space, the
    Unicode space separators, the line and paragraph separators and the
    byte order mark. *)
Definition whitespace_ranges : list (N * N) :=
  [(9, 13); (32, 32); (160, 160); (5760, 5760); (8192, 8202); (8232, 8233);
   (8239, 8239); (8287, 8287); (12288, 12288); (65279, 65279)].

(** Word characters (digits, letters, underscore) and the hyphen. *)
Definition word_or_hyphen_ranges : list (N * N) :=
  [(45, 45); (48, 57); (65, 90); (95, 95); (97, 122)].

(** The preserved script range, U+4E00 to U+9FA5. *)
Definition script_ranges : list (N * N) := [(19968, 40869)].

(** Each maximal run of [p]-units becomes one [rep], written where the
    run begins; [in_run] tells that the unit before was in a run. *)
Fixpoint squeeze (p : N -> bool) (rep : N) (in_run : bool) (s : jsstring) : jsstring :=
  match s with
  | [] => []
  | c :: r =>
      if p c then (if in_run then squeeze p rep true r else rep :: squeeze p rep true r)
      else c :: squeeze p rep false r
  end.

(** Only the units that satisfy [keep] stay, in their order. *)
Definition keep_only (keep : N -> bool) (s : jsstring) : jsstring :=
  flat_map (fun c => if keep c then [c] else []) s.

Fixpoint skip (p : N -> bool) (s : jsstring) : jsstring :=
  match s with
  | c :: r => if p c then skip p r else s
  | [] => []
  end.

(** The [p]-units at both ends are taken away. *)
Definition trim_ends (p : N -> bool) (s : jsstring) : jsstring :=
  rev (skip p (rev (skip p s))).

Section SlugSteps.
Context `{CaseMapping}.

(** The steps the specification lists for a slug, in its order:
    lower-casing, whitespace runs to single hyphens, stripping, collapsing
    repeated hyphens, trimming hyphens at both ends. *)
Definition slug_steps (text : jsstring) : jsstring :=
  let lowered := toLowerCase text in
  let hyphenated := squeeze (in_ranges whitespace_ranges) 45 false lowered in
  let stripped :=
    keep_only (fun c => in_ranges word_or_hyphen_ranges c || in_ranges script_ranges c)
      hyphenated in
  let collapsed := squeeze (N.eqb 45) 45 false stripped in
  trim_ends (N.eqb 45) collapsed.
End SlugSteps.

(** Decimal rendering of a number inside a template literal. *)
Fixpoint digits (d : Decimal.uint) : jsstring :=
  match d with
  | Decimal.Nil => []
  | Decimal.D0 d => 48 :: digits d
  | Decimal.D1 d => 49 :: digits d
  | Decimal.D2 d => 50 :: digits d
  | Decimal.D3 d => 51 :: digits d
  | Decimal.D4 d => 52 :: digits d
  | Decimal.D5 d => 53 :: digits d
  | Decimal.D6 d => 54 :: digits d
  | Decimal.D7 d => 55 :: digits d
  | Decimal.D8 d => 56 :: digits d
  | Decimal.D9 d => 57 :: digits d
  end.

Definition decimal (n : nat) : jsstring := digits (Nat.to_uint n).

(** [baseSlug || `heading-${index}`]: the empty string is the only falsy
    string. *)
Definition slug_or_fallback (baseSlug : jsstring) (index : nat) : jsstring :=
  match baseSlug with
  | [] => js "heading-" ++ decimal index
  | _ => baseSlug
  end.


Definition unlines (ls : list jsstring) : jsstring :=
  match ls with
  | [] => []
  | l :: rest => l ++ flat_map (fun x => 10 :: x) rest
  end.

Definition quoted (s : string) : jsstring := dquote ++ js s ++ dquote.

(** A string is falsy exactly when it is empty; [undefined] and [null]
    ([None]) are falsy too. *)
Definition truthy (s : jsstring) : bool :=
  match s with [] => false | _ => true end.

Definition truthy_opt (o : option jsstring) : bool :=
  match o with Some s => truthy s | None => false end.

(** ** Data model *)

Record Report := {
  report_id : jsstring;
  report_title : jsstring;
  created_at : jsstring;
  report_content : option jsstring;
  markdown_path : option jsstring
}.

(** [reports.find(r => r.id === reportId)] *)
Definition find_report (reportId : jsstring) (reports : list Report) : option Report :=
  List.find (fun r => bool_decide (report_id r = reportId)) reports.

(** The document tree under a container. *)
Inductive Node : Type :=
| TextNode (data : jsstring)
| Element (tagName : jsstring) (classList : list jsstring) (childNodes : list Node).

Fixpoint textContent (n : Node) : jsstring :=
  match n with
  | TextNode data => data
  | Element _ _ children => flat_map textContent children
  end.

Definition is_h1_h4 (tag : jsstring) : bool :=
  bool_decide (tag = js "H1") || bool_decide (tag = js "H2")
  || bool_decide (tag = js "H3") || bool_decide (tag = js "H4").

(** [root.querySelectorAll('h1, h2, h3, h4')], in document order. *)
Fixpoint select_headings (n : Node) : list Node :=
  match n with
  | TextNode _ => []
  | Element tag _ children =>
      (if is_h1_h4 tag then [n] else []) ++ flat_map select_headings children
  end.

Definition querySelectorAll_headings (children : list Node) : list Node :=
  flat_map select_headings children.

Definition has_class (cls : jsstring) (n : Node) : bool :=
  match n with
  | TextNode _ => false
  | Element _ classes _ => bool_decide (cls ∈ classes)
  end.

(** Detach the first descendant of [n], in document order, that carries
    class [cls]; [None] when there is none. *)
Fixpoint remove_first_in (cls : jsstring) (n : Node) : option Node :=
  match n with
  | TextNode _ => None
  | Element tag classes children =>
      option_map (Element tag classes)
        ((fix go (l : list Node) : option (list Node) :=
            match l with
            | [] => None
            | x :: rest =>
                if has_class cls x then Some rest
                else match remove_first_in cls x with
                     | Some x' => Some (x' :: rest)
                     | None => option_map (cons x) (go rest)
                     end
            end) children)
  end.

(** [const e = container.querySelector('.' + cls); if (e) e.remove();] *)
Definition remove_first_with_class (cls : jsstring) (children : list Node) : list Node :=
  match remove_first_in cls (Element [] [] children) with
  | Some (Element _ _ children') => children'
  | _ => children
  end.

(** An anchor of the table of contents. [link_target] is the heading its
    click handler closes over. *)
Record TocLink := {
  href : jsstring;
  link_text : jsstring;
  link_classes : list jsstring;
  link_target : nat
}.

Definition classList_add (cls : jsstring) (a : TocLink) : TocLink :=
  {| href := href a; link_text := link_text a;
     link_classes := if bool_decide (cls ∈ link_classes a) then link_classes a
                     else link_classes a ++ [cls];
     link_target := link_target a |}.

Definition classList_remove (cls : jsstring) (a : TocLink) : TocLink :=
  {| href := href a; link_text := link_text a;
     link_classes := filter (fun c => c <> cls) (link_classes a);
     link_target := link_target a |}.

Definition active : jsstring := js "active".

Definition is_active (a : TocLink) : bool := bool_decide (active ∈ link_classes a).

(** The part of the document the viewer writes.  The content container
    ([#markdown-render]) and the toc container ([#toc]) are taken to exist,
    as the script uses them without a test; the title, date and breadcrumb
    elements may be missing. *)
Record Page := {
  innerHTML : jsstring;          (* last markup assigned to the content container *)
  contentNodes : list Node;      (* the container's children *)
  heading_ids : list jsstring;   (* id given to the k-th h1..h4 by generateTOC *)
  toc : list TocLink;            (* the anchors inside the toc container *)
  observed : list nat;           (* headings watched by the scroll spy *)
  reportTitle : option jsstring; (* text of .report-title, if the element exists *)
  reportDate : option jsstring;
  breadcrumbTitle : option jsstring;
  document_title : jsstring
}.

Definition set_content (html : jsstring) (nodes : list Node) (p : Page) : Page :=
  {| innerHTML := html; contentNodes := nodes; heading_ids := [];
     toc := toc p; observed := observed p; reportTitle := reportTitle p;
     reportDate := reportDate p; breadcrumbTitle := breadcrumbTitle p;
     document_title := document_title p |}.

Definition set_nodes (nodes : list Node) (p : Page) : Page :=
  {| innerHTML := innerHTML p; contentNodes := nodes; heading_ids := heading_ids p;
     toc := toc p; observed := observed p; reportTitle := reportTitle p;
     reportDate := reportDate p; breadcrumbTitle := breadcrumbTitle p;
     document_title := document_title p |}.

Definition set_toc (ids : list jsstring) (links : list TocLink) (p : Page) : Page :=
  {| innerHTML := innerHTML p; contentNodes := contentNodes p; heading_ids := ids;
     toc := links; observed := observed p; reportTitle := reportTitle p;
     reportDate := reportDate p; breadcrumbTitle := breadcrumbTitle p;
     document_title := document_title p |}.

Definition set_links (links : list TocLink) (p : Page) : Page :=
  set_toc (heading_ids p) links p.

Definition set_observed (hs : list nat) (p : Page) : Page :=
  {| innerHTML := innerHTML p; contentNodes := contentNodes p;
     heading_ids := heading_ids p; toc := toc p; observed := hs;
     reportTitle := reportTitle p; reportDate := reportDate p;
     breadcrumbTitle := breadcrumbTitle p; document_title := document_title p |}.

Definition set_meta (rt rd bc : option jsstring) (dt : jsstring) (p : Page) : Page :=
  {| innerHTML := innerHTML p; contentNodes := contentNodes p;
     heading_ids := heading_ids p; toc := toc p; observed := observed p;
     reportTitle := rt; reportDate := rd; breadcrumbTitle := bc;
     document_title := dt |}.

(** ** Environment *)

Inductive Exn :=
| SyntaxError                 (* JSON.parse or response.json() on malformed text *)
| NetworkError                (* a fetch or body promise that rejects *)
| EngineError                 (* thrown by the Markdown engine *)
| Error (message : jsstring). (* new Error(message) *)

(** What a stored string holds when read as JSON. *)
Inductive Stored :=
| Unparsable
| Reports (reports : list Report).

(** What awaiting a promise of the network gives: the script awaits
    [fetch], [json()] and [text()] without a timeout or an abort signal. *)
Inductive Awaited (A : Type) :=
| Resolved (a : A)   (* the promise is fulfilled *)
| Failed             (* the promise is rejected *)
| Unsettled.         (* the promise is never settled *)
Arguments Resolved {A} a.
Arguments Failed {A}.
Arguments Unsettled {A}.

Record Response := {
  ok : bool;
  json : Awaited (list Report);   (* Failed: the body is not JSON *)
  text : Awaited jsstring         (* Failed: reading the body fails *)
}.

(** [new marked.Renderer()] with no method replaced. *)
Inductive Renderer := StockRenderer.

(** The object handed to [marked.use]. *)
Record MarkedOptions := {
  gfm : bool;
  breaks : bool;
  renderer : Renderer
}.

Record World := {
  search_id : option jsstring;          (* urlParams.get('id') *)
  my_reports : option Stored;           (* localStorage.getItem('my_reports'); None: null or '' *)
  reportsData : option (list Report);   (* window.reportsData *)
  fetch : jsstring -> Awaited Response; (* Failed: the request fails *)
  now : N;                              (* new Date().getTime() *)
  marked : option (MarkedOptions -> jsstring -> Exn + jsstring);
                                        (* window.marked: use(options) then parse(text) *)
  mount : jsstring -> list Node         (* the HTML parser behind the innerHTML setter *)
}.

Inductive Event :=
| GetItem (key : jsstring)
| ReadReportsData
| Fetch (url : jsstring)
| ConsoleError (label : jsstring) (e : Exn).

(** ** Asynchronous computations

    An async function runs on the page, records what it asks of the
    environment, and leaves a promise that is fulfilled, rejected, or
    never settled. *)

Record Sys := mkSys { page : Page; events : list Event }.

Inductive Outcome (A : Type) :=
| Fulfilled (a : A)
| Rejected (e : Exn)
| Pending.
Arguments Fulfilled {A} a.
Arguments Rejected {A} e.
Arguments Pending {A}.

Definition Async (A : Type) : Type := Sys -> Outcome A * Sys.

#[export] Instance async_ret : MRet Async := fun A a s => (Fulfilled a, s).

#[export] Instance async_bind : MBind Async := fun A B k m s =>
  match m s with
  | (Fulfilled a, s') => k a s'
  | (Rejected e, s') => (Rejected e, s')
  | (Pending, s') => (Pending, s')
  end.

Definition throw {A} (e : Exn) : Async A := fun s => (Rejected e, s).

Definition try_catch {A} (body : Async A) (handler : Exn -> Async A) : Async A :=
  fun s =>
    match body s with
    | (Rejected e, s') => handler e s'
    | r => r
    end.

(** An awaited promise that is never settled. *)
Definition never {A} : Async A := fun s => (Pending, s).

Definition emit (ev : Event) : Async unit :=
  fun s => (Fulfilled tt, mkSys (page s) (events s ++ [ev])).

Definition update (f : Page -> Page) : Async unit :=
  fun s => (Fulfilled tt, mkSys (f (page s)) (events s)).

(** A loop that ran out of fuel never returns. *)
Definition update_or_hang (f : Page -> option Page) : Async unit :=
  fun s =>
    match f (page s) with
    | Some p => (Fulfilled tt, mkSys p (events s))
    | None => (Pending, s)
    end.

Definition or_throw {A} (r : Exn + A) : Async A :=
  match r with
  | inl e => throw e
  | inr a => mret a
  end.

(** ** The viewer's helpers *)

(** The markup [showError] writes. *)
Definition error_html (message : jsstring) : jsstring :=
  unlines
    [ [];
      js "            <div class=" ++ quoted "error-state" ++ js " style="
        ++ quoted "text-align: center; padding: 4rem; color: #dc2626;" ++ js ">";
      js "                <p style=" ++ quoted "font-size: 1.25rem; margin-bottom: 1rem;"
        ++ js ">" ++ [9888; 65039] ++ js " " ++ message ++ js "</p>";
      js "                <a href=" ++ quoted "cases.html" ++ js " style="
        ++ quoted "color: #2563eb; text-decoration: underline;"
        ++ js ">Back to Case List</a>";
      js "            </div>";
      js "        " ].

(** The document [loadSampleMarkdown] renders. *)
Definition sampleMarkdown : jsstring :=
  unlines
    [ [];
      js "# 1. Market Overview & Competitor Background";
      [];
      js "## 1.1 Core Product Information";
      js "**Anker Soundcore Liberty 4** is a flagship true wireless noise-canceling earbud from Anker, featuring Hi-Res Audio, Heart Rate Monitoring, and personalized noise cancellation.";
      [];
      js "| Dimension | Parameter |";
      js "| :--- | :--- |";
      js "| **ASIN** | B0B9M5T6X8 |";
      js "| **Current Price** | $129.99 |";
      js "| **Rating** | 4.3 (12,450 ratings) |";
      js "| **Release Date** | 2022-09-28 |";
      [];
      js "> **AI Analysis Insight**: This product has the highest rating and review count in its price range, indicating high market acceptance.";
      [];
      js "## 1.2 Market Positioning Analysis";
      js "Positioned in the mid-to-high-end market, direct competitors include **AirPods Pro 2**, **Sony WF-1000XM5**, and **Samsung Galaxy Buds2 Pro**.";
      [];
      js "- Higher Value for Money ($129 vs $249)";
      js "- Unique Heart Rate Monitoring feature";
      js "- Excellent App customization experience";
      [];
      js "# 2. Deep User Review Mining";
      [];
      js "## 2.1 Positive Sentiment Analysis";
      js "Based on AI analysis of **5,000+** positive reviews, user satisfaction centers on:";
      [];
      js "### 2.1.1 Sound Quality Performance";
      js "> " ++ dquote ++ js "The sound quality is absolutely amazing, especially the LDAC support. Bass is punchy but not muddy." ++ dquote;
      [];
      js "Key Findings:";
      js "- **Keywords**: Crisp, Punchy Bass, LDAC, EQ settings";
      js "- **Share**: 45% of positive reviews mentioned sound quality";
      [];
      js "### 2.1.2 Comfort";
      js "Users widely report comfort provided by CloudComfort ear tips, suitable for long wear.";
      [];
      js "> " ++ dquote ++ js "I can wear these for 4+ hours without any discomfort." ++ dquote;
      [];
      js "# 3. Marketing Strategy Recommendations";
      [];
      js "## 3.1 Keyword Optimization (SEO)";
      js "Recommend adding the following long-tail keywords to the Listing:";
      [];
      js "1. `wireless earbuds with heart rate monitor`";
      js "2. `LDAC noise cancelling headphones`";
      js "3. `best workout earbuds 2024`";
      [];
      js "## 3.2 Off-Site Promotion Opportunities";
      js "- **YouTube Reviews**: Focus on fitness influencers";
      js "- **TikTok Shorts**: Showcase cool interactive features";
      [];
      js "# 4. Improvement Recommendations Summary";
      [];
      js "1. **Firmware Upgrade** - Prioritize fixing multipoint connection instability";
      js "2. **Packaging Optimization** - Enhance packaging texture";
      js "3. **Noise Cancellation Algorithm** - Optimize for wind noise scenarios";
      [];
      js "> **Conclusion**: This is a highly competitive product with significant value-for-money advantages.";
      [] ].

Definition marked_options : MarkedOptions :=
  {| gfm := true; breaks := true; renderer := StockRenderer |}.

Definition tag_of (n : Node) : jsstring :=
  match n with
  | TextNode _ => []
  | Element tag _ _ => tag
  end.

(** The loop
    [while (usedIds.has(uniqueSlug)) { uniqueSlug = `${slug}-${counter}`; counter++; }]
    run for at most [fuel] tests. *)
Fixpoint unique_slug (fuel : nat) (usedIds : gset jsstring) (slug : jsstring)
    (counter : nat) (uniqueSlug : jsstring) : option jsstring :=
  match fuel with
  | O => None
  | S fuel' =>
      if decide (uniqueSlug ∈ usedIds)
      then unique_slug fuel' usedIds slug (S counter) (slug ++ hyphen :: decimal counter)
      else Some uniqueSlug
  end.

(** What [generateTOC] has built so far: the identifier set, the ids given
    to the headings, and the anchors appended to the list. *)
Record TocState := {
  usedIds : gset jsstring;
  ids : list jsstring;
  ul : list TocLink
}.

Section Toc.
Context `{CaseMapping}.

(** [let baseSlug = slugify(header.textContent);
     let slug = baseSlug || `heading-${index}`;] *)
Definition heading_slug (header : Node) (index : nat) : jsstring :=
  let baseSlug := slugify (textContent header) in
  slug_or_fallback baseSlug index.

(** The anchor created for a heading once [header.id] is set. *)
Definition toc_link (header : Node) (index : nat) (id : jsstring) : TocLink :=
  {| href := 35 :: id;
     link_text := textContent header;
     link_classes := [js "toc-" ++ toLowerCase (tag_of header)];
     link_target := index |}.

(** One turn of [headers.forEach((header, index) => ...)].  The loop is
    given one test more than [usedIds] has elements, which is always
    enough for it to stop ([unique_slug_total]). *)
Definition toc_entry (header : Node) (index : nat) (st : TocState) : option TocState :=
  let slug := heading_slug header index in
  uniqueSlug ← unique_slug (S (size (usedIds st))) (usedIds st) slug 1 slug;
  Some {| usedIds := {[ uniqueSlug ]} ∪ usedIds st;
          ids := ids st ++ [uniqueSlug];
          ul := ul st ++ [toc_link header index uniqueSlug] |}.

Fixpoint forEach_header (headers : list Node) (index : nat) (st : TocState)
    : option TocState :=
  match headers with
  | [] => Some st
  | header :: rest =>
      st' ← toc_entry header index st;
      forEach_header rest (S index) st'
  end.

(** The ids and anchors [generateTOC] produces for the selected headings. *)
Definition build_toc (headers : list Node) : option (list jsstring * list TocLink) :=
  st ← forEach_header headers 0 {| usedIds := ∅; ids := []; ul := [] |};
  Some (ids st, ul st).

Definition generateTOC (p : Page) : option Page :=
  r ← build_toc (querySelectorAll_headings (contentNodes p));
  Some (set_toc r.1 r.2 p).
End Toc.

(** [updateActiveLink(activeLink)], the anchor given by its position. *)
Definition updateActiveLink (k : nat) (p : Page) : Page :=
  set_links (alter (classList_add active) k (classList_remove active <$> toc p)) p.

(** [setupScrollSpy]: every selected heading is observed. *)
Definition setupScrollSpy (p : Page) : Page :=
  set_observed (seq 0 (length (querySelectorAll_headings (contentNodes p)))) p.

(** [const firstLink = tocContainer.querySelector('a'); if (firstLink) ...] *)
Definition activate_first (p : Page) : Page :=
  match toc p with
  | [] => p
  | firstLink :: rest => set_links (classList_add active firstLink :: rest) p
  end.

(** [`data/reports/index.json?v=${new Date().getTime()}`] *)
Definition index_url (t : N) : jsstring :=
  js "data/reports/index.json?v=" ++ digits (N.to_uint t).

(** The address [fetch(report.markdown_path)] requests. *)
Definition path_url (path : option jsstring) : jsstring :=
  match path with
  | Some u => u
  | None => js "undefined"
  end.

Definition set_metadata (report : Report) (p : Page) : Page :=
  set_meta
    (match reportTitle p with Some _ => Some (report_title report) | None => None end)
    (match reportDate p with
     | Some _ => Some (js "Generated on " ++ created_at report)
     | None => None
     end)
    (match breadcrumbTitle p with
     | Some old => if truthy (report_title report) then Some (report_title report) else Some old
     | None => None
     end)
    (report_title report ++ js " - Amz AI Agent")
    p.

Section Viewer.
Context `{CaseMapping}.
Variable w : World.

Definition showError (message : jsstring) : Async unit :=
  update (set_content (error_html message) (mount w (error_html message))).

Definition renderMarkdown (markdownContent : jsstring) : Async unit :=
  match marked w with
  | None => showError (js "Markdown renderer failed to load")
  | Some engine =>
      html ← or_throw (engine marked_options markdownContent);
      update (set_content html (mount w html));;
      update (fun p =>
                set_nodes (remove_first_with_class (js "loading-state") (contentNodes p)) p);;
      update_or_hang generateTOC;;
      update setupScrollSpy;;
      update activate_first
  end.

Definition loadSampleMarkdown : Async unit := renderMarkdown sampleMarkdown.

(** [JSON.parse(localStorage.getItem('my_reports') || '[]')] *)
Definition read_local : Async (list Report) :=
  emit (GetItem (js "my_reports"));;
  match my_reports w with
  | None => mret []
  | Some Unparsable => throw SyntaxError
  | Some (Reports l) => mret l
  end.

Definition do_fetch (url : jsstring) : Async Response :=
  emit (Fetch url);;
  match fetch w url with
  | Resolved r => mret r
  | Failed => throw NetworkError
  | Unsettled => never
  end.

(** Step 1 of [initReport]: the record for [reportId], looked up in the
    local store, then in [window.reportsData], then in the fetched index. *)
Definition find_in_sources (reportId : jsstring) : Async (option Report) :=
  localReports ← read_local;
  let reports := if (0 <? length localReports)%nat then localReports else [] in
  match find_report reportId reports with
  | Some report => mret (Some report)
  | None =>
      emit ReadReportsData;;
      match (match reportsData w with
             | Some data => find_report reportId data
             | None => None
             end) with
      | Some report => mret (Some report)
      | None =>
          indexResponse ← do_fetch (index_url (now w));
          if ok indexResponse then
            match json indexResponse with
            | Resolved staticReports => mret (find_report reportId staticReports)
            | Failed => throw SyntaxError
            | Unsettled => never
            end
          else mret None
      end
  end.

(** [fetch(report.markdown_path)], the [ok] test and [text()]. *)
Definition fetch_markdown (report : Report) : Async jsstring :=
  mdResponse ← do_fetch (path_url (markdown_path report));
  if ok mdResponse then
    match text mdResponse with
    | Resolved t => mret t
    | Failed => throw NetworkError
    | Unsettled => never
    end
  else throw (Error (js "Unable to load report content")).

(** Step 3 of [initReport]: the text to render for a record. *)
Definition load_content (report : Report) : Async jsstring :=
  match report_content report with
  | Some markdownContent =>
      if truthy markdownContent then mret markdownContent
      else fetch_markdown report
  | None => fetch_markdown report
  end.

(** Steps 2 to 4 of [initReport] for the record that was found. *)
Definition present_report (report : Report) : Async unit :=
  update (set_metadata report);;
  markdownContent ← load_content report;
  renderMarkdown markdownContent.

(** The [catch] block of [initReport]. *)
Definition on_failure (error : Exn) : Async unit :=
  emit (ConsoleError (js "Failed to load report:") error);;
  showError (js "Bummer! Failed to load report. Please refresh and try again.").

Definition initReport : Async unit :=
  match search_id w with
  | None => loadSampleMarkdown
  | Some reportId =>
      if negb (truthy reportId) then loadSampleMarkdown
      else
        try_catch
          (report ← find_in_sources reportId;
           match report with
           | None => showError (js "Report not found")
           | Some report => present_report report
           end)
          on_failure
  end.
End Viewer.

(** ** Navigation after the render *)

Inductive UiEvent :=
| Click (k : nat)                            (* a click on the k-th anchor *)
| Intersect (entries : list (nat * bool)).   (* observer callback: heading, isIntersecting *)

(** [tocContainer.querySelector(`a[href="#${id}"]`)] *)
Definition find_link (target : jsstring) (links : list TocLink) : option nat :=
  fst <$> list_find (fun a => href a = target) links.

Definition on_entry (p : Page) (entry : nat * bool) : Page :=
  if bool_decide (entry.1 ∈ observed p) && entry.2 then
    match heading_ids p !! entry.1 with
    | Some id =>
        match find_link (35 :: id) (toc p) with
        | Some k => updateActiveLink k p
        | None => p
        end
    | None => p
    end
  else p.

Definition dispatch (p : Page) (ev : UiEvent) : Page :=
  match ev with
  | Click k =>
      match toc p !! k with
      | Some _ => updateActiveLink k p
      | None => p
      end
  | Intersect entries => foldl on_entry p entries
  end.

Definition active_count (p : Page) : nat :=
  length (filter (fun a => is_active a = true) (toc p)).

Definition empty_page : Page :=
  {| innerHTML := []; contentNodes := []; heading_ids := []; toc := [];
     observed := []; reportTitle := Some []; reportDate := Some [];
     breadcrumbTitle := Some []; document_title := [] |}.

Definition start (p : Page) : Sys := mkSys p [].

(** ** The analysis form *)

(** [asinRegex.test(s)] for [/^B[A-Z0-9]{9}$/i]. *)
Definition is_alnum (c : N) : bool :=
  between 65 90 c || between 97 122 c || between 48 57 c.

Definition asinRegex_test (s : jsstring) : bool :=
  match s with
  | [] => false
  | b :: rest =>
      ((b =? 66) || (b =? 98)) && (length rest =? 9)%nat && forallb is_alnum rest
  end.

(** The separator class [[\n,\s]]. *)
Definition is_separator (c : N) : bool := (c =? 10) || (c =? 44) || is_space c.

(** [s.split(/[p]+/)]: the pieces between maximal runs of [p]-units; a run
    at either end leaves an empty piece there. *)
Fixpoint split_runs (p : N -> bool) (s : jsstring) : list jsstring :=
  match s with
  | [] => [[]]
  | c :: r =>
      if p c then
        match r with
        | c' :: _ => if p c' then split_runs p r else [] :: split_runs p r
        | [] => [[]; []]
        end
      else
        match split_runs p r with
        | piece :: pieces => (c :: piece) :: pieces
        | [] => [[c]]
        end
  end.

(** [parts.join(', ')] *)
Fixpoint join_comma (parts : list jsstring) : jsstring :=
  match parts with
  | [] => []
  | [x] => x
  | x :: rest => x ++ js ", " ++ join_comma rest
  end.

Record Field := {
  value : jsstring;
  validationMessage : jsstring;   (* set by setCustomValidity *)
  borderColor : jsstring;
  boxShadow : jsstring
}.

Record AsinForm := { mainAsin : Field; compAsin : Field }.

Inductive FormEvent :=
| Animate (field : jsstring)
| ReportValidity (field : jsstring).

Definition styled (valid : bool) (message : jsstring) (f : Field) : Field :=
  {| value := value f;
     validationMessage := message;
     borderColor := if valid then [] else js "#ef4444";
     boxShadow := if valid then [] else js "0 0 0 3px rgba(239, 68, 68, 0.2)" |}.

Section Form.
Context `{CaseMapping}.

(** [compAsinValue.split(/[\n,\s]+/).map(s => s.trim().toUpperCase()).filter(s => s)] *)
Definition compAsins (compAsinValue : jsstring) : list jsstring :=
  List.filter truthy (map (fun s => toUpperCase (trim s)) (split_runs is_separator compAsinValue)).

Definition validateAsins (form : AsinForm) : bool * AsinForm * list FormEvent :=
  let mainAsinValue := toUpperCase (trim (value (mainAsin form))) in
  let isMainValid := truthy mainAsinValue && asinRegex_test mainAsinValue in
  let mainMessage :=
    if negb (truthy mainAsinValue) then js "Please enter the Core Product ASIN."
    else if negb (asinRegex_test mainAsinValue) then
      js "Invalid ASIN format. Must start with 'B' followed by 9 alphanumeric characters (e.g. B08CVS825S)."
    else [] in
  let compAsinValue := trim (value (compAsin form)) in
  let invalidAsins :=
    List.filter (fun asin => negb (asinRegex_test asin)) (compAsins compAsinValue) in
  let isCompValid :=
    truthy compAsinValue && (length invalidAsins =? 0)%nat in
  let compMessage :=
    if negb (truthy compAsinValue) then js "Please enter at least one Competitor ASIN."
    else if negb (length invalidAsins =? 0)%nat then
      js "Invalid ASIN format: " ++ join_comma invalidAsins
        ++ js ". Each ASIN must start with 'B' followed by 9 alphanumeric characters."
    else [] in
  let form' := {| mainAsin := styled isMainValid mainMessage (mainAsin form);
                  compAsin := styled isCompValid compMessage (compAsin form) |} in
  let animations :=
    (if isMainValid then [] else [Animate (js "main-asin")])
    ++ (if isCompValid then [] else [Animate (js "comp-asin")]) in
  if negb isMainValid then (false, form', animations ++ [ReportValidity (js "main-asin")])
  else if negb isCompValid then (false, form', animations ++ [ReportValidity (js "comp-asin")])
  else (true, form', animations).

(** The acceptance condition in the words of the specification: the
    main field, trimmed and upper-cased, matches the pattern, and the
    competitor field, split on runs of newlines, commas or whitespace with
    empty tokens dropped, has at least one token and only matching ones. *)
Definition competitor_tokens (comp : jsstring) : list jsstring :=
  List.filter truthy (split_runs is_separator comp).

Definition asins_acceptable (main comp : jsstring) : bool :=
  asinRegex_test (toUpperCase (trim main))
  && negb (length (competitor_tokens comp) =? 0)%nat
  && forallb (fun t => asinRegex_test (toUpperCase (trim t))) (competitor_tokens comp).
End Form.

Definition field_of (v : jsstring) : Field :=
  {| value := v; validationMessage := []; borderColor := []; boxShadow := [] |}.

(** ** A line-based engine for examples

    Each line of the text is one block: one to six [#] and a space open a
    heading, a line that starts with [<] is markup and is passed on as it
    is, any other non-blank line is a paragraph.  [line_mount] reads such
    markup back, one element per line. *)

Fixpoint split_at (sep : N) (s : jsstring) : list jsstring :=
  match s with
  | [] => [[]]
  | c :: r =>
      if c =? sep then [] :: split_at sep r
      else match split_at sep r with
           | piece :: pieces => (c :: piece) :: pieces
           | [] => [[c]]
           end
  end.

Fixpoint take_until (p : N -> bool) (s : jsstring) : jsstring :=
  match s with
  | [] => []
  | c :: r => if p c then [] else c :: take_until p r
  end.

Definition line_html (l : jsstring) : option jsstring :=
  match trim l with
  | [] => None
  | 60 :: _ => Some l
  | _ =>
      let rest := drop_leading (fun c => c =? 35) l in
      let n := (length l - length rest)%nat in
      match rest with
      | 32 :: heading =>
          if (1 <=? n)%nat && (n <=? 6)%nat then
            Some (js "<h" ++ decimal n ++ js ">" ++ trim heading ++ js "</h" ++ decimal n ++ js ">")
          else Some (js "<p>" ++ l ++ js "</p>")
      | _ => Some (js "<p>" ++ l ++ js "</p>")
      end
  end.

Definition line_engine (options : MarkedOptions) (markdown : jsstring) : Exn + jsstring :=
  inr (unlines (omap line_html (split_at 10 markdown))).

Definition line_node (l : jsstring) : option Node :=
  match l with
  | [] => None
  | 60 :: r =>
      let tag := take_until (fun c => (c =? 32) || (c =? 62)) r in
      let body := drop 1 (drop_leading (fun c => negb (c =? 62)) r) in
      Some (Element (map upper_unit tag) [] [TextNode (take_until (fun c => c =? 60) body)])
  | _ => Some (TextNode l)
  end.

Definition line_mount (html : jsstring) : list Node :=
  omap line_node (split_at 10 html).

Definition example_world (reportId : option jsstring) (stored : option Stored)
    (data : option (list Report)) (net : jsstring -> Awaited Response) : World :=
  {| search_id := reportId; my_reports := stored; reportsData := data;
     fetch := net; now := 1700000000000;
     marked := Some line_engine; mount := line_mount |}.

Definition offline : jsstring -> Awaited Response := fun _ => Failed.

Definition answer (r : Response) : jsstring -> Awaited Response := fun _ => Resolved r.

(** A server that never answers. *)
Definition silent : jsstring -> Awaited Response := fun _ => Unsettled.

Definition status_404 : Response := {| ok := false; json := Failed; text := Failed |}.

Definition report_abc : Report :=
  {| report_id := js "abc"; report_title := js "Earbuds";
     created_at := js "2024-05-01";
     report_content := Some (js "# Market Overview");
     markdown_path := None |}.

Definition report_linked : Report :=
  {| report_id := js "xyz"; report_title := js "Chargers";
     created_at := js "2024-06-01";
     report_content := None;
     markdown_path := Some (js "data/reports/xyz.md") |}.


(** ** Submitting the analysis form *)

(** The separator class [[\n,]] of the payloads. *)
Definition is_nl_comma (c : N) : bool := (c =? 10) || (c =? 44).

(** [value.trim().split(/[\n,]+/).map(s => s.trim()).filter(s => s)] *)
Definition payload_competitors (compValue : jsstring) : list jsstring :=
  List.filter truthy (map trim (split_runs is_nl_comma (trim compValue))).

(** [s.replace(/\n/g, ' ')] *)
Definition newlines_to_spaces (s : jsstring) : jsstring :=
  map (fun c => if c =? 10 then 32 else c) s.

(** [s.split('@')[0]] *)
Definition before_at (s : jsstring) : jsstring := take_until (fun c => c =? 64) s.

(** [a || b] on strings. *)
Definition or_else (a b : jsstring) : jsstring := if truthy a then a else b.

Record Button := { disabled : bool; button_text : jsstring }.

(** The object [payload] of [handleSubmission]. *)
Record Payload := {
  order_id : jsstring;
  user_name : jsstring;
  user_email : jsstring;
  industry : jsstring;
  main_asins : list jsstring;
  competitor_asins : list jsstring;
  productSite : jsstring;
  language : jsstring;
  llm_model : jsstring;
  custom_prompt : jsstring;
  reference_website_count : N;
  reference_youtube_count : N;
  version : jsstring;
  payment_status : jsstring;
  amount_paid : jsstring            (* the number as JSON writes it *)
}.

(** The object [backendPayload] of the free path. *)
Record BackendPayload := {
  category : jsstring;
  keywords : jsstring;
  marketplace : jsstring;
  backend_user_email : jsstring;
  user_tier : jsstring;
  reference_asins : list jsstring
}.

(** What is handed to [JSON.stringify] for the request body. *)
Inductive Body :=
| StartTask (b : BackendPayload)
| ProAnalysis (b : Payload).

(** What [data.report_id] gives for a parsed body [data]: the text that
    [`${data.report_id}`] renders, or the message of the error the property
    access throws (a body that is [null]). *)
Definition ParsedBody : Type := (jsstring + jsstring)%type.

(** A response to a POST.  [body_json] is the outcome of [json()], and
    [body_text] that of [text()]; [inl] carries the message of the error. *)
Record PostResponse := {
  post_ok : bool;
  post_status : N;
  statusText : jsstring;
  body_json : jsstring + ParsedBody;
  body_text : jsstring + jsstring
}.

Record SubmitWorld := {
  date_now : N;                                         (* Date.now() *)
  post : jsstring -> Body -> jsstring + PostResponse;   (* inl: the request fails, with this message *)
  encodeURIComponent : jsstring -> jsstring + jsstring  (* inl: URIError with this message *)
}.

Inductive SubmitEvent :=
| Validation (ev : FormEvent)
| Request (url : jsstring) (body : Body)
| Logged (message : jsstring)          (* console.error(error) / console.log *)
| Alerted (message : jsstring).

(** The create page as [handleSubmission] sees it.  The elements it reads
    are taken to exist, as the script uses them without a test. *)
Record SubmitPage := {
  asin_form : AsinForm;
  user_email_field : jsstring;        (* #user-email *)
  marketplace_field : jsstring;       (* #marketplace *)
  llm_model_field : jsstring;         (* #llm-model *)
  custom_prompt_field : jsstring;     (* #custom-prompt *)
  modal_submit : Button;              (* modalForm.querySelector('.submit-btn') *)
  pay_deposit : Button;               (* #pay-deposit-btn *)
  location_href : option jsstring;    (* a navigation that was started *)
  submit_log : list SubmitEvent
}.

Definition with_button (isPro : bool) (b : Button) (pg : SubmitPage) : SubmitPage :=
  {| asin_form := asin_form pg; user_email_field := user_email_field pg;
     marketplace_field := marketplace_field pg; llm_model_field := llm_model_field pg;
     custom_prompt_field := custom_prompt_field pg;
     modal_submit := if isPro then modal_submit pg else b;
     pay_deposit := if isPro then b else pay_deposit pg;
     location_href := location_href pg; submit_log := submit_log pg |}.

Definition with_log (evs : list SubmitEvent) (pg : SubmitPage) : SubmitPage :=
  {| asin_form := asin_form pg; user_email_field := user_email_field pg;
     marketplace_field := marketplace_field pg; llm_model_field := llm_model_field pg;
     custom_prompt_field := custom_prompt_field pg;
     modal_submit := modal_submit pg; pay_deposit := pay_deposit pg;
     location_href := location_href pg; submit_log := submit_log pg ++ evs |}.

Definition with_form (form : AsinForm) (pg : SubmitPage) : SubmitPage :=
  {| asin_form := form; user_email_field := user_email_field pg;
     marketplace_field := marketplace_field pg; llm_model_field := llm_model_field pg;
     custom_prompt_field := custom_prompt_field pg;
     modal_submit := modal_submit pg; pay_deposit := pay_deposit pg;
     location_href := location_href pg; submit_log := submit_log pg |}.

Definition navigate (url : jsstring) (pg : SubmitPage) : SubmitPage :=
  {| asin_form := asin_form pg; user_email_field := user_email_field pg;
     marketplace_field := marketplace_field pg; llm_model_field := llm_model_field pg;
     custom_prompt_field := custom_prompt_field pg;
     modal_submit := modal_submit pg; pay_deposit := pay_deposit pg;
     location_href := Some url; submit_log := submit_log pg |}.

Definition submit_button (isPro : bool) (pg : SubmitPage) : Button :=
  if isPro then pay_deposit pg else modal_submit pg.

Section Submission.
Context `{CaseMapping}.
Variable sw : SubmitWorld.

Definition build_payload (isPro : bool) (pg : SubmitPage) : Payload :=
  {| order_id := js "ORD-" ++ digits (N.to_uint (date_now sw));
     user_name := or_else (before_at (user_email_field pg)) (js "Valued User");
     user_email := or_else (trim (user_email_field pg)) (js "guest@example.com");
     industry := js "General";
     main_asins := [trim (value (mainAsin (asin_form pg)))];
     competitor_asins := payload_competitors (value (compAsin (asin_form pg)));
     productSite := marketplace_field pg;
     language := js "en";
     llm_model := if isPro then llm_model_field pg else js "gpt-4o-mini";
     custom_prompt := if isPro then trim (custom_prompt_field pg) else [];
     reference_website_count := 5;
     reference_youtube_count := 5;
     version := js "v1_pro_verified";
     payment_status := if isPro then js "deposit_paid" else js "free";
     amount_paid := if isPro then js "4.99" else js "0" |}.

Definition build_backend_payload (payload : Payload) (pg : SubmitPage) : BackendPayload :=
  {| category := js "General";
     keywords := trim (value (mainAsin (asin_form pg))) ++ js " "
                 ++ newlines_to_spaces (trim (value (compAsin (asin_form pg))));
     marketplace := productSite payload;
     backend_user_email := user_email payload;
     user_tier := js "free";
     reference_asins := trim (value (mainAsin (asin_form pg))) :: competitor_asins payload |}.

(** The [catch] block of [handleSubmission]. *)
Definition submission_failed (isPro : bool) (originalText message : jsstring)
    (pg : SubmitPage) : SubmitPage :=
  with_button isPro {| disabled := false; button_text := originalText |}
    (with_log [Logged message; Alerted (js "Submission Error: " ++ message)] pg).

(** The free path inside the [try] block. *)
Definition submit_free (originalText : jsstring) (payload : Payload) (pg : SubmitPage)
    : SubmitPage :=
  let backendPayload := build_backend_payload payload pg in
  let pg1 := with_log [Request (js "/api/discovery/start-task") (StartTask backendPayload)] pg in
  match post sw (js "/api/discovery/start-task") (StartTask backendPayload) with
  | inl message => submission_failed false originalText message pg1
  | inr res =>
      if negb (post_ok res) then
        submission_failed false originalText
          (js "Backend start-task failed: " ++ statusText res) pg1
      else
        match body_json res with
        | inl message => submission_failed false originalText message pg1
        | inr (inl message) => submission_failed false originalText message pg1
        | inr (inr taskId) =>
            match encodeURIComponent sw (user_email payload) with
            | inl message => submission_failed false originalText message pg1
            | inr email =>
                navigate (js "processing.html?taskId=" ++ taskId ++ js "&email=" ++ email
                          ++ js "&pro=false") pg1
            end
        end
  end.

(** The pro path inside the [try] block. *)
Definition submit_pro (originalText : jsstring) (payload : Payload) (pg : SubmitPage)
    : SubmitPage :=
  let pg1 := with_log [Request (js "/api/proxy/pro-analysis") (ProAnalysis payload)] pg in
  match post sw (js "/api/proxy/pro-analysis") (ProAnalysis payload) with
  | inl message => submission_failed true originalText message pg1
  | inr response =>
      if post_ok response then
        let pg2 := match body_json response with
                   | inl _ => with_log [Logged (js "Response was not JSON")] pg1
                   | inr _ => pg1
                   end in
        match encodeURIComponent sw (user_email payload) with
        | inl message => submission_failed true originalText message pg2
        | inr email =>
            navigate (js "processing.html?email=" ++ email ++ js "&pro=true") pg2
        end
      else
        match body_text response with
        | inl message => submission_failed true originalText message pg1
        | inr errText =>
            submission_failed true originalText
              (js "Server responded with " ++ digits (N.to_uint (post_status response))
               ++ js ": " ++ errText) pg1
        end
  end.

Definition handleSubmission (isPro : bool) (pg : SubmitPage) : SubmitPage :=
  let '(valid, form', evs) := validateAsins (asin_form pg) in
  let pg0 := with_log (map Validation evs) (with_form form' pg) in
  if negb valid then pg0
  else
    let originalText := button_text (submit_button isPro pg0) in
    let pg1 := with_button isPro {| disabled := true; button_text := js "Generating..." |} pg0 in
    let payload := build_payload isPro pg1 in
    if isPro then submit_pro originalText payload pg1
    else submit_free originalText payload pg1.
End Submission.

Definition is_request (ev : SubmitEvent) : bool :=
  match ev with
  | Request _ _ => true
  | _ => false
  end.

Definition is_alert (ev : SubmitEvent) : bool :=
  match ev with
  | Alerted _ => true
  | _ => false
  end.

(** ** Vocabulary of the statements *)

(** The four replacements that follow [trim] in [slugify]. *)
Definition after_trim (s : jsstring) : jsstring :=
  trim_hyphens (collapse_hyphens (strip_unsafe (hyphenate_spaces s))).

(** The identifiers tried for a slug, in order: the slug itself, then the
    slug with [-1], [-2], ... appended. *)
Definition candidate (slug : jsstring) (k : nat) : jsstring :=
  match k with
  | O => slug
  | S _ => slug ++ hyphen :: decimal k
  end.

(** [id] is the first candidate for [slug] that is not among [earlier]. *)
Definition first_free (earlier : list jsstring) (slug id : jsstring) : Prop :=
  exists n, id = candidate slug n /\ (id ∉ earlier)
            /\ forall m, (m < n)%nat -> candidate slug m ∈ earlier.

(** The anchors of the headings, given the ids they received. *)
Fixpoint links_for `{CaseMapping} (headers : list Node) (index : nat) (new : list jsstring)
    : list TocLink :=
  match headers, new with
  | header :: hs, id :: rest => toc_link header index id :: links_for hs (S index) rest
  | _, _ => []
  end.

(** The nodes left in the container once [renderMarkdown] has mounted
    [html] and detached a loading placeholder. *)
Definition rendered_nodes (w : World) (html : jsstring) : list Node :=
  remove_first_with_class (js "loading-state") (mount w html).

(** The page [renderMarkdown] leaves when the engine returned [html] and
    the headings received [new]. *)
Definition rendered_page `{CaseMapping} (w : World) (html : jsstring) (new : list jsstring)
    (p : Page) : Page :=
  let headers := querySelectorAll_headings (rendered_nodes w html) in
  activate_first
    (setupScrollSpy
       (set_toc new (links_for headers 0 new)
          (set_nodes (rendered_nodes w html) (set_content html (mount w html) p)))).

(** The page [showError] leaves. *)
Definition error_page (w : World) (message : jsstring) (p : Page) : Page :=
  set_content (error_html message) (mount w (error_html message)) p.

(** The collection in the local store, when it can be read: a missing or
    empty item reads as the empty collection. *)
Definition local_reports (w : World) : option (list Report) :=
  match my_reports w with
  | None => Some []
  | Some Unparsable => None
  | Some (Reports l) => Some l
  end.

(** The preloaded collection; none when [window.reportsData] is not set. *)
Definition global_reports (w : World) : list Report :=
  match reportsData w with
  | Some data => data
  | None => []
  end.

Definition got_item : Event := GetItem (js "my_reports").

Fixpoint starts_with (needle s : jsstring) : bool :=
  match needle, s with
  | [], _ => true
  | a :: needle', b :: s' => (a =? b) && starts_with needle' s'
  | _ :: _, [] => false
  end.

(** [needle] occurs in [s]. *)
Fixpoint contains (needle s : jsstring) : bool :=
  starts_with needle s
  || match s with
     | [] => false
     | _ :: s' => contains needle s'
     end.

(** A property of the anchors of the table of contents that a computation
    maintains. *)
Definition toc_invariant (Q : list TocLink -> Prop) {A} (m : Async A) : Prop :=
  forall s, Q (toc (page s)) -> Q (toc (page (m s).2)).

Definition at_most_one_active (links : list TocLink) : Prop :=
  (length (filter (fun a => is_active a = true) links) <= 1)%nat.

Definition is_fetch (ev : Event) : bool :=
  match ev with
  | Fetch _ => true
  | _ => false
  end.

(** ** The upload lists *)

Record File := { file_name : jsstring; file_size : N }.

(** [s.endsWith(suffix)] *)
Definition ends_with (suffix s : jsstring) : bool := starts_with (rev suffix) (rev s).

(** [x.toFixed(1)] for [x = num / den], written with whole numbers: the
    number of tenths nearest to [x], the larger one on a tie.  For a size
    below 2^53 and a power of two as [den] the quotient is exact in a
    Number, so this is the text the script shows. *)
Definition toFixed1 (num den : N) : jsstring :=
  let tenths := (10 * num + den / 2) / den in
  digits (N.to_uint (tenths / 10)) ++ js "." ++ digits (N.to_uint (tenths mod 10)).

Definition formatFileSize (bytes : N) : jsstring :=
  if bytes <? 1024 then digits (N.to_uint bytes) ++ js " B"
  else if bytes <? 1024 * 1024 then toFixed1 bytes 1024 ++ js " KB"
  else toFixed1 bytes (1024 * 1024) ++ js " MB".

(** A [Map] with string keys, in insertion order. *)
Fixpoint map_set {V} (key : jsstring) (v : V) (m : list (jsstring * V))
    : list (jsstring * V) :=
  match m with
  | [] => [(key, v)]
  | (k, x) :: rest =>
      if bool_decide (k = key) then (key, v) :: rest else (k, x) :: map_set key v rest
  end.

Definition map_delete {V} (key : jsstring) (m : list (jsstring * V)) : list (jsstring * V) :=
  List.filter (fun kv => negb (bool_decide (kv.1 = key))) m.

(** One [li] of the list: the name, the size as shown, and the key its
    delete button removes. *)
Record FileItem := { item_name : jsstring; item_size : jsstring; item_key : jsstring }.

(** An upload input: its [filesMap], the items of its list element, and
    whether its clear button, if there is one, is hidden. *)
Record Uploader := {
  filesMap : list (jsstring * File);
  listItems : list FileItem;
  clear_hidden : option bool;
  upload_alerts : list jsstring
}.

Definition renderFileList (u : Uploader) : Uploader :=
  {| filesMap := filesMap u;
     listItems := map (fun kv => {| item_name := file_name kv.2;
                                    item_size := formatFileSize (file_size kv.2);
                                    item_key := kv.1 |}) (filesMap u);
     clear_hidden := match clear_hidden u with
                     | Some _ => Some (match filesMap u with [] => true | _ => false end)
                     | None => None
                     end;
     upload_alerts := upload_alerts u |}.

Definition set_files (m : list (jsstring * File)) (u : Uploader) : Uploader :=
  {| filesMap := m; listItems := listItems u; clear_hidden := clear_hidden u;
     upload_alerts := upload_alerts u |}.

Definition upload_alert (message : jsstring) (u : Uploader) : Uploader :=
  {| filesMap := filesMap u; listItems := listItems u; clear_hidden := clear_hidden u;
     upload_alerts := upload_alerts u ++ [message] |}.

(** [`${file.name}-${file.size}-${Date.now()}-${Math.random()}`], the last
    two as the clock and the generator give them. *)
Definition file_key (f : File) (clock : N) (random : jsstring) : jsstring :=
  file_name f ++ js "-" ++ digits (N.to_uint (file_size f)) ++ js "-"
  ++ digits (N.to_uint clock) ++ js "-" ++ random.

Definition format_alert : jsstring :=
  [9888; 65039] ++ js " Format Not Supported" ++ [10; 10]
  ++ js "Please only upload files in .csv or .txt format.".

Section Upload.
Context `{CaseMapping}.

(** [name.endsWith('.csv') || name.endsWith('.txt')] on the lower-cased name. *)
Definition accepted (f : File) : bool :=
  let name := toLowerCase (file_name f) in
  ends_with (js ".csv") name || ends_with (js ".txt") name.

(** [validFiles.forEach(file => filesMap.set(key, file))]; [draw k] is
    what the clock and the generator give for the k-th valid file. *)
Fixpoint add_files (validFiles : list File) (k : nat) (draw : nat -> N * jsstring)
    (m : list (jsstring * File)) : list (jsstring * File) :=
  match validFiles with
  | [] => m
  | file :: rest =>
      add_files rest (S k) draw (map_set (file_key file (draw k).1 (draw k).2) file m)
  end.

(** The [change] handler of an upload input. *)
Definition on_change (newFiles : list File) (draw : nat -> N * jsstring) (u : Uploader)
    : Uploader :=
  let validFiles := List.filter accepted newFiles in
  let invalidFound := negb (forallb accepted newFiles) in
  let u1 := if invalidFound then upload_alert format_alert u else u in
  renderFileList (set_files (add_files validFiles 0 draw (filesMap u1)) u1).
End Upload.

(** The click handler of the clear button. *)
Definition on_clear (u : Uploader) : Uploader := renderFileList (set_files [] u).

(** The click handler of the delete button of one item. *)
Definition on_delete (key : jsstring) (u : Uploader) : Uploader :=
  renderFileList (set_files (map_delete key (filesMap u)) u).

Inductive UploadEvent :=
| Selected (files : list File) (draw : nat -> N * jsstring)
| ClearClicked
| DeleteClicked (key : jsstring).

(** An event reaches its handler only if the control exists: the clear
    button may be missing, and the delete buttons are those of the last
    [renderFileList], one for each key of the map. *)
Definition upload_step `{CaseMapping} (u : Uploader) (ev : UploadEvent) : Uploader :=
  match ev with
  | Selected files draw => on_change files draw u
  | ClearClicked =>
      match clear_hidden u with
      | Some _ => on_clear u
      | None => u
      end
  | DeleteClicked key =>
      if bool_decide (key ∈ map fst (filesMap u)) then on_delete key u else u
  end.

(** The state when the page script has run: an empty map; the list as
    the page has it. *)
Definition fresh_uploader (items : list FileItem) (clear : option bool) : Uploader :=
  {| filesMap := []; listItems := items; clear_hidden := clear; upload_alerts := [] |}.

(** ** Shape of identifiers *)

(** Two neighbouring units of [s] both satisfy [p]. *)
Fixpoint adjacent (p : N -> bool) (s : jsstring) : bool :=
  match s with
  | [] => false
  | c :: r =>
      match r with
      | [] => false
      | c' :: _ => (p c && p c') || adjacent p r
      end
  end.

Definition starts_in (p : N -> bool) (s : jsstring) : bool :=
  match s with
  | [] => false
  | c :: _ => p c
  end.

Definition ends_in (p : N -> bool) (s : jsstring) : bool :=
  starts_in p (rev s).

(** ** Anchors and headings *)

(** The anchors and the headings of a page correspond: the ids are
    distinct, the k-th anchor points at the k-th id, and the scroll spy
    watches exactly these headings. *)
Definition nav_ok (p : Page) : Prop :=
  NoDup (heading_ids p)
  /\ href <$> toc p = cons 35 <$> heading_ids p
  /\ observed p = seq 0 (length (heading_ids p)).

(** The heading of the last entry of an observer callback that intersects,
    among [n] observed headings. *)
Definition last_hit (n : nat) (entries : list (nat * bool)) : option nat :=
  last (fst <$> List.filter (fun e => (e.1 <? n)%nat && e.2) entries).

#[export] Instance nav_ok_dec (p : Page) : Decision (nav_ok p).
Proof. unfold nav_ok. apply _. Defined.

(** ** What a run asks and what it leaves *)

Definition is_get_item (ev : Event) : bool :=
  match ev with
  | GetItem _ => true
  | _ => false
  end.

Definition is_console_error (ev : Event) : bool :=
  match ev with
  | ConsoleError _ _ => true
  | _ => false
  end.

Definition count_events (f : Event -> bool) (evs : list Event) : nat :=
  length (List.filter f evs).

(** A computation only appends to the log, and at most [n] events of the
    kind [f]. *)
Definition emits_at_most (f : Event -> bool) (n : nat) {A} (m : Async A) : Prop :=
  forall s, exists tail,
    events (m s).2 = events s ++ tail /\ (count_events f tail <= n)%nat.







(** An engine that throws on every text. *)
Definition failing_engine (options : MarkedOptions) (markdown : jsstring) : Exn + jsstring :=
  inl EngineError.

Definition broken_world (reportId : option jsstring) (stored : option Stored) : World :=
  {| search_id := reportId; my_reports := stored; reportsData := None;
     fetch := offline; now := 1700000000000;
     marked := Some failing_engine; mount := line_mount |}.


(** ** The loading placeholder *)

(** The search of [remove_first_in] among the children of an element. *)
Fixpoint remove_first_among (cls : jsstring) (l : list Node) : option (list Node) :=
  match l with
  | [] => None
  | x :: rest =>
      if has_class cls x then Some rest
      else match remove_first_in cls x with
           | Some x' => Some (x' :: rest)
           | None => option_map (cons x) (remove_first_among cls rest)
           end
  end.

(** Some element strictly inside [n] carries class [cls]. *)
Fixpoint inside (cls : jsstring) (n : Node) : bool :=
  match n with
  | TextNode _ => false
  | Element _ _ children => existsb (fun c => has_class cls c || inside cls c) children
  end.

(** [h'] is the heading [h] as it was mounted, or [h] with the element
    of class [cls] detached from inside it. *)
Definition heading_kept (cls : jsstring) (h' h : Node) : Prop :=
  h' = h \/ remove_first_in cls h = Some h'.

(** The headings [hs'] are headings of [hs], in the order of [hs]. *)
Definition headings_kept (cls : jsstring) (hs' hs : list Node) : Prop :=
  exists kept, kept `sublist_of` hs /\ Forall2 (heading_kept cls) hs' kept.

(** A heading with the placeholder inside it, and a second placeholder
    further down. *)
Definition placeholder_in_heading : list Node :=
  [Element (js "H1") []
     [TextNode (js "A"); Element (js "SPAN") [js "loading-state"] [TextNode (js "...")]];
   Element (js "DIV") [js "loading-state"] [Element (js "H2") [] [TextNode (js "B")]]].

(** ** Statements about the form *)

(** The parts of a line written with single spaces between them. *)
Fixpoint spaced (parts : list jsstring) : jsstring :=
  match parts with
  | [] => []
  | [x] => x
  | x :: rest => x ++ 32 :: spaced rest
  end.

Definition is_report_validity (ev : FormEvent) : bool :=
  match ev with
  | ReportValidity _ => true
  | Animate _ => false
  end.

Definition other_button (isPro : bool) (pg : SubmitPage) : Button :=
  if isPro then modal_submit pg else pay_deposit pg.

Definition endpoint (isPro : bool) : jsstring :=
  if isPro then js "/api/proxy/pro-analysis" else js "/api/discovery/start-task".

(** How a submission that reached the [try] block ends: [rest] is what it
    logged after the request, [pg'] the page it leaves. *)
Definition submission_ended (isPro : bool) (originalText : jsstring)
    (before : option jsstring) (rest : list SubmitEvent) (pg' : SubmitPage) : Prop :=
  List.filter is_request rest = []
  /\ ((exists target,
         location_href pg' = Some target
         /\ List.filter is_alert rest = []
         /\ submit_button isPro pg'
            = {| disabled := true; button_text := js "Generating..." |})
      \/ (location_href pg' = before
          /\ (exists message,
                List.filter is_alert rest = [Alerted (js "Submission Error: " ++ message)])
          /\ submit_button isPro pg'
             = {| disabled := false; button_text := originalText |})).

(** ** A server and an encoder for examples *)

Definition hex_digit (n : N) : N := if n <? 10 then 48 + n else 55 + n.

Definition is_unreserved (c : N) : bool :=
  is_alnum c || (c =? 45) || (c =? 95) || (c =? 46) || (c =? 33) || (c =? 126)
  || (c =? 42) || (c =? 39) || (c =? 40) || (c =? 41).

(** Stands in for [encodeURIComponent] on Basic Latin text; other text is
    reported as malformed here. *)
Definition ascii_encode (s : jsstring) : jsstring + jsstring :=
  if forallb is_basic_latin s then
    inr (flat_map (fun c => if is_unreserved c then [c]
                            else [37; hex_digit (c / 16); hex_digit (c mod 16)]) s)
  else inl (js "URI malformed").

Definition task_created : PostResponse :=
  {| post_ok := true; post_status := 200; statusText := js "OK";
     body_json := inr (inr (js "task-17")); body_text := inr [] |}.

Definition example_submit_world (reply : jsstring + PostResponse) : SubmitWorld :=
  {| date_now := 1700000000000; post := fun _ _ => reply;
     encodeURIComponent := ascii_encode |}.

Definition example_submit_page (main comp email : jsstring) : SubmitPage :=
  {| asin_form := {| mainAsin := field_of main; compAsin := field_of comp |};
     user_email_field := email; marketplace_field := js "US";
     llm_model_field := js "gpt-4o"; custom_prompt_field := [];
     modal_submit := {| disabled := false; button_text := js "Get Free Report" |};
     pay_deposit := {| disabled := false; button_text := js "Pay" |};
     location_href := None; submit_log := [] |}.

(** ** Statements about the upload lists *)

#[export] Instance File_eq_dec : EqDecision File.
Proof. solve_decision. Defined.

#[export] Instance FileItem_eq_dec : EqDecision FileItem.
Proof. solve_decision. Defined.

Definition item_of (kv : jsstring * File) : FileItem :=
  {| item_name := file_name kv.2; item_size := formatFileSize (file_size kv.2);
     item_key := kv.1 |}.

(** The keys of the map are distinct, the list shows the files of the map
    in order, and the clear button, if any, is hidden exactly when the map is
    empty. *)
Definition upload_ok (u : Uploader) : bool :=
  bool_decide (NoDup (map fst (filesMap u)))
  && bool_decide (listItems u = map item_of (filesMap u))
  && match clear_hidden u with
     | Some hidden => bool_decide (hidden = match filesMap u with [] => true | _ => false end)
     | None => true
     end.

(** Values for examples. *)
Definition notes_csv : File := {| file_name := js "Notes.CSV"; file_size := 2048 |}.

Definition first_draw (k : nat) : N * jsstring := (1700000000000%N, js "0.25").

(** * Properties *)

(** ** Runs of units *)

Lemma replace_runs_cons (p : N -> bool) (rep c : N) (r : jsstring) :
  replace_runs p rep (c :: r)
  = if p c then
      match r with
      | c' :: _ => if p c' then replace_runs p rep r else rep :: replace_runs p rep r
      | [] => [rep]
      end
    else c :: replace_runs p rep r.
Proof. reflexivity. Qed.

Lemma replace_runs_snoc (p : N -> bool) (rep : N) (s : jsstring) (c : N) :
  p c = true ->
  replace_runs p rep (s ++ [c]) = replace_runs p rep s
  \/ replace_runs p rep (s ++ [c]) = replace_runs p rep s ++ [rep].
Proof.
  intros Hc. induction s as [|a t IH].
  - right. cbn. now rewrite Hc.
  - rewrite <- app_comm_cons, !(replace_runs_cons p rep a).
    destruct (p a) eqn:Ha.
    + destruct t as [|b t'].
      * left. cbn. now rewrite !Hc.
      * rewrite <- app_comm_cons in *. destruct (p b) eqn:Hb.
        -- exact IH.
        -- destruct IH as [IH|IH]; rewrite IH; [now left | now right].
    + destruct IH as [IH|IH]; rewrite IH; [now left | now right].
Qed.

Lemma drop_trailing_snoc (p : N -> bool) (s : jsstring) (c : N) :
  p c = true -> drop_trailing p (s ++ [c]) = drop_trailing p s.
Proof.
  intros Hc. induction s as [|a t IH]; simpl.
  - now rewrite Hc.
  - now rewrite IH.
Qed.

Lemma drop_trailing_split (p : N -> bool) (s : jsstring) :
  exists t, s = drop_trailing p s ++ t /\ forallb p t = true.
Proof.
  induction s as [|c r [t [Hr Ht]]]; simpl.
  - now exists [].
  - destruct (drop_trailing p r) as [|x r'] eqn:E.
    + simpl in Hr. subst t. destruct (p c) eqn:Hc.
      * exists (c :: r). simpl. now rewrite Hc, Ht.
      * now exists r.
    + exists t. split; [|exact Ht]. simpl. now rewrite Hr at 1.
Qed.

Lemma trim_hyphens_snoc (s : jsstring) :
  trim_hyphens (s ++ [hyphen]) = trim_hyphens s.
Proof.
  unfold trim_hyphens. induction s as [|a t IH].
  - reflexivity.
  - simpl. destruct (is_hyphen a) eqn:Ha.
    + exact IH.
    + change (a :: t ++ [hyphen]) with ((a :: t) ++ [hyphen]).
      now apply drop_trailing_snoc.
Qed.

Lemma collapse_cons_hyphen (z : jsstring) :
  trim_hyphens (collapse_hyphens (hyphen :: z)) = trim_hyphens (collapse_hyphens z).
Proof.
  unfold collapse_hyphens. simpl. destruct z as [|b z']; [reflexivity|].
  destruct (is_hyphen b); reflexivity.
Qed.

Lemma collapse_snoc_hyphen (z : jsstring) :
  trim_hyphens (collapse_hyphens (z ++ [hyphen])) = trim_hyphens (collapse_hyphens z).
Proof.
  unfold collapse_hyphens.
  destruct (replace_runs_snoc is_hyphen hyphen z hyphen eq_refl) as [E|E]; rewrite E.
  - reflexivity.
  - apply trim_hyphens_snoc.
Qed.

Lemma strip_unsafe_hyphen_cons (y : jsstring) :
  strip_unsafe (hyphen :: y) = hyphen :: strip_unsafe y.
Proof. reflexivity. Qed.

Lemma strip_unsafe_hyphen_snoc (y : jsstring) :
  strip_unsafe (y ++ [hyphen]) = strip_unsafe y ++ [hyphen].
Proof. unfold strip_unsafe. now rewrite filter_app. Qed.

Lemma after_trim_cons_space (c : N) (s : jsstring) :
  is_space c = true -> after_trim (c :: s) = after_trim s.
Proof.
  intros Hc. unfold after_trim, hyphenate_spaces. simpl. rewrite Hc.
  destruct s as [|b s'].
  - reflexivity.
  - destruct (is_space b) eqn:Hb; [reflexivity|].
    rewrite strip_unsafe_hyphen_cons. apply collapse_cons_hyphen.
Qed.

Lemma after_trim_snoc_space (c : N) (s : jsstring) :
  is_space c = true -> after_trim (s ++ [c]) = after_trim s.
Proof.
  intros Hc. unfold after_trim, hyphenate_spaces.
  destruct (replace_runs_snoc is_space hyphen s c Hc) as [E|E]; rewrite E.
  - reflexivity.
  - rewrite strip_unsafe_hyphen_snoc. apply collapse_snoc_hyphen.
Qed.

Lemma after_trim_drop_leading (s : jsstring) :
  after_trim (drop_leading is_space s) = after_trim s.
Proof.
  induction s as [|c r IH]; simpl; [reflexivity|].
  destruct (is_space c) eqn:Hc; [|reflexivity].
  now rewrite IH, after_trim_cons_space.
Qed.

Lemma after_trim_app_spaces (t s : jsstring) :
  forallb is_space t = true -> after_trim (s ++ t) = after_trim s.
Proof.
  revert s. induction t as [|a t IH]; intros s Ht.
  - now rewrite app_nil_r.
  - simpl in Ht. apply andb_prop in Ht as [Ha Ht].
    change (a :: t) with ([a] ++ t). rewrite app_assoc, IH by exact Ht.
    now apply after_trim_snoc_space.
Qed.

Lemma after_trim_trim (s : jsstring) : after_trim (trim s) = after_trim s.
Proof.
  unfold trim. rewrite <- (after_trim_drop_leading s).
  destruct (drop_trailing_split is_space (drop_leading is_space s)) as [t [E Ht]].
  rewrite E at 2. now rewrite after_trim_app_spaces.
Qed.

(** *** The steps of the specification against the replacements *)

Lemma whitespace_is_space (c : N) : in_ranges whitespace_ranges c = is_space c.
Proof.
  unfold in_ranges, whitespace_ranges, is_space, between. cbn [existsb fst snd].
  apply eq_true_iff_eq.
  rewrite !orb_true_iff, !andb_true_iff, !N.leb_le, !N.eqb_eq. split; [|lia].
  intros Hc. repeat (destruct Hc as [Hc|Hc]; [lia|]). discriminate.
Qed.

Lemma kept_is_slug_unit (c : N) :
  in_ranges word_or_hyphen_ranges c || in_ranges script_ranges c = is_slug_unit c.
Proof.
  unfold in_ranges, word_or_hyphen_ranges, script_ranges, is_slug_unit, is_word,
    is_hyphen, hyphen, between. cbn [existsb fst snd].
  apply eq_true_iff_eq.
  rewrite !orb_true_iff, !andb_true_iff, !N.leb_le, !N.eqb_eq. split; [|lia].
  intros [Hc|Hc].
  - repeat (destruct Hc as [Hc|Hc]; [lia|]). discriminate.
  - repeat (destruct Hc as [Hc|Hc]; [lia|]). discriminate.
Qed.

Lemma hyphen_is_hyphen (c : N) : (45 =? c) = is_hyphen c.
Proof. unfold is_hyphen, hyphen. apply N.eqb_sym. Qed.

Lemma squeeze_replace_runs (p q : N -> bool) (rep : N) (s : jsstring) :
  (forall c, p c = q c) ->
  squeeze p rep false s = replace_runs q rep s
  /\ rep :: squeeze p rep true s
     = match s with
       | c :: _ => if q c then replace_runs q rep s else rep :: replace_runs q rep s
       | [] => [rep]
       end.
Proof.
  intros Hpq. induction s as [|c r [IH1 IH2]]; [now split|].
  rewrite (replace_runs_cons q rep c r). cbn [squeeze]. rewrite Hpq.
  destruct (q c) eqn:Hc.
  - rewrite IH2. split; reflexivity.
  - rewrite IH1. split; reflexivity.
Qed.

Lemma keep_only_filter (keep q : N -> bool) (s : jsstring) :
  (forall c, keep c = q c) -> keep_only keep s = filter (fun c => q c = true) s.
Proof.
  intros Hkq. unfold keep_only. induction s as [|c r IH]; [reflexivity|].
  cbn [flat_map]. rewrite filter_cons, IH, Hkq.
  destruct (q c) eqn:Hc.
  - now rewrite decide_True.
  - now rewrite decide_False.
Qed.

Lemma skip_drop_leading (p q : N -> bool) (s : jsstring) :
  (forall c, p c = q c) -> skip p s = drop_leading q s.
Proof.
  intros Hpq. induction s as [|c r IH]; [reflexivity|].
  cbn [skip drop_leading]. rewrite Hpq, IH. reflexivity.
Qed.

Lemma drop_trailing_snoc_keep (p : N -> bool) (s : jsstring) (c : N) :
  p c = false -> drop_trailing p (s ++ [c]) = s ++ [c].
Proof.
  intros Hc. induction s as [|a t IH]; cbn [app drop_trailing].
  - now rewrite Hc.
  - rewrite IH. now destruct t.
Qed.

Lemma rev_skip_drop_trailing (p q : N -> bool) (s : jsstring) :
  (forall c, p c = q c) -> rev (skip p (rev s)) = drop_trailing q s.
Proof.
  intros Hpq. induction s as [|c r IH] using rev_ind; [reflexivity|].
  rewrite rev_app_distr. cbn [rev app skip]. rewrite Hpq.
  destruct (q c) eqn:Hc.
  - now rewrite IH, drop_trailing_snoc.
  - rewrite drop_trailing_snoc_keep by exact Hc.
    cbn [rev]. now rewrite rev_involutive.
Qed.

Lemma trim_ends_trim_hyphens (s : jsstring) : trim_ends (N.eqb 45) s = trim_hyphens s.
Proof.
  unfold trim_ends, trim_hyphens.
  rewrite (rev_skip_drop_trailing _ is_hyphen) by apply hyphen_is_hyphen.
  now rewrite (skip_drop_leading _ is_hyphen) by apply hyphen_is_hyphen.
Qed.

Lemma steps_after_trim `{CaseMapping} (text : jsstring) :
  slug_steps text = after_trim (toLowerCase text).
Proof.
  unfold slug_steps, after_trim, collapse_hyphens, strip_unsafe, hyphenate_spaces.
  cbn zeta. rewrite trim_ends_trim_hyphens. f_equal.
  rewrite (proj1 (squeeze_replace_runs _ is_hyphen 45 _ hyphen_is_hyphen)).
  rewrite (keep_only_filter _ is_slug_unit _ kept_is_slug_unit).
  now rewrite (proj1 (squeeze_replace_runs _ is_space 45 _ whitespace_is_space)).
Qed.

(** C3. For every heading text the slug [slugify] returns is the result
    of the five steps of the specification, each written here from its
    wording and not from the code: lower-casing; every run of white space
    turned into one hyphen; every unit deleted that is neither a word
    character, a hyphen nor in U+4E00..U+9FA5; every run of hyphens turned
    into one; the hyphens at both ends taken away.  The code differs from
    the steps by a [trim] after the lower-casing, which changes no slug.
    When the result is empty the heading gets [heading-] followed by its
    index. *)
Theorem slug_follows_steps `{CaseMapping} (header : Node) (index : nat) :
  slugify (textContent header) = slug_steps (textContent header)
  /\ heading_slug header index
     = (if truthy (slug_steps (textContent header))
        then slug_steps (textContent header)
        else js "heading-" ++ decimal index).
Proof.
  assert (E : forall text, slugify text = slug_steps text).
  { intros text. rewrite steps_after_trim. apply (after_trim_trim (toLowerCase text)). }
  split; [apply E|].
  unfold heading_slug, slug_or_fallback. rewrite E.
  now destruct (slug_steps (textContent header)).
Qed.

Example steps_of_a_heading :
  slug_steps (js "  A & b!  <x> -- Z_9 ") = js "a-b-x-z_9"
  /\ slugify (js "  A & b!  <x> -- Z_9 ") = js "a-b-x-z_9"
  /\ slug_steps (js " !? ") = [].
Proof. vm_compute. repeat split. Qed.

(** ** Identifiers of the table of contents *)

Lemma digits_inj (d1 d2 : Decimal.uint) : digits d1 = digits d2 -> d1 = d2.
Proof.
  revert d2. induction d1; destruct d2; simpl; intros E;
    try discriminate; try reflexivity;
    injection E as E; f_equal; auto.
Qed.

Lemma decimal_inj (n m : nat) : decimal n = decimal m -> n = m.
Proof.
  intros E. apply digits_inj in E.
  rewrite <- (Unsigned.of_to n), <- (Unsigned.of_to m). now rewrite E.
Qed.

Lemma candidate_inj (slug : jsstring) (i j : nat) :
  candidate slug i = candidate slug j -> i = j.
Proof.
  destruct i as [|i], j as [|j]; simpl; intros E; [reflexivity| | |].
  - apply (f_equal length) in E. rewrite length_app in E. simpl in E. lia.
  - apply (f_equal length) in E. rewrite length_app in E. simpl in E. lia.
  - apply app_inv_head in E. injection E as E. now apply decimal_inj.
Qed.

Lemma candidate_Inj (slug : jsstring) : Inj (=) (=) (candidate slug).
Proof. intros i j. apply candidate_inj. Qed.

Lemma candidate_nonempty (slug : jsstring) (k : nat) : slug <> [] -> candidate slug k <> [].
Proof. destruct k; simpl; [auto|]. now destruct slug. Qed.

Lemma unique_slug_spec (fuel : nat) (used : gset jsstring) (slug : jsstring) (j : nat) :
  match unique_slug fuel used slug (S j) (candidate slug j) with
  | Some u =>
      exists n, (j <= n < j + fuel)%nat /\ u = candidate slug n /\ (u ∉ used)
                /\ forall m, (j <= m < n)%nat -> candidate slug m ∈ used
  | None => forall m, (j <= m < j + fuel)%nat -> candidate slug m ∈ used
  end.
Proof.
  revert j. induction fuel as [|fuel IH]; intros j; simpl.
  - intros m Hm. lia.
  - destruct (decide (candidate slug j ∈ used)) as [Hin|Hout].
    + specialize (IH (S j)). change (slug ++ hyphen :: decimal (S j)) with (candidate slug (S j)).
      destruct (unique_slug fuel used slug (S (S j)) (candidate slug (S j))) as [u|].
      * destruct IH as (n & Hn & -> & Hfree & Hbelow).
        exists n. repeat split; [lia | lia | exact Hfree |].
        intros m Hm. destruct (decide (m = j)) as [->|Hne]; [exact Hin|].
        apply Hbelow. lia.
      * intros m Hm. destruct (decide (m = j)) as [->|Hne]; [exact Hin|].
        apply IH. lia.
    + exists j. repeat split; [lia | lia | exact Hout |]. intros m Hm. lia.
Qed.

(** Once the loop has stopped, more fuel changes nothing. *)
Lemma unique_slug_more_fuel (fuel extra : nat) (used : gset jsstring) (slug : jsstring)
    (counter : nat) (uniqueSlug u : jsstring) :
  unique_slug fuel used slug counter uniqueSlug = Some u ->
  unique_slug (fuel + extra) used slug counter uniqueSlug = Some u.
Proof.
  revert counter uniqueSlug. induction fuel as [|fuel IH]; intros counter uniqueSlug;
    [discriminate|].
  cbn [unique_slug Nat.add]. destruct (decide (uniqueSlug ∈ used)); [apply IH|auto].
Qed.

(** A set cannot hold more candidates than it has elements. *)
Lemma candidates_exceed (used : gset jsstring) (slug : jsstring) :
  ~ (forall m, (m < S (size used))%nat -> candidate slug m ∈ used).
Proof.
  intros Hall.
  pose (cands := candidate slug <$> seq 0 (S (size used))).
  assert (Hnd : NoDup cands).
  { apply (NoDup_fmap_2 (candidate slug) (Inj0:=candidate_Inj slug)), NoDup_seq. }
  assert (Hsub : (list_to_set cands : gset jsstring) ⊆ used).
  { intros x Hx. apply elem_of_list_to_set in Hx.
    apply list_elem_of_fmap in Hx as (m & -> & Hm).
    apply elem_of_seq in Hm. apply Hall. lia. }
  apply subseteq_size in Hsub.
  rewrite size_list_to_set in Hsub by exact Hnd.
  unfold cands in Hsub. rewrite length_fmap, length_seq in Hsub. lia.
Qed.

(** The loop of [generateTOC] ends, with the first free candidate. *)
Lemma unique_slug_total (used : gset jsstring) (slug : jsstring) :
  exists n, unique_slug (S (size used)) used slug 1 slug = Some (candidate slug n)
            /\ (candidate slug n ∉ used)
            /\ forall m, (m < n)%nat -> candidate slug m ∈ used.
Proof.
  pose proof (unique_slug_spec (S (size used)) used slug 0) as Hspec.
  change (candidate slug 0) with slug in Hspec.
  destruct (unique_slug (S (size used)) used slug 1 slug) as [u|].
  - destruct Hspec as (n & _ & -> & Hfree & Hbelow).
    exists n. repeat split; [exact Hfree|]. intros m Hm. apply Hbelow. lia.
  - exfalso. apply (candidates_exceed used slug). intros m Hm. apply Hspec. lia.
Qed.

Section TocFacts.
Context `{CaseMapping}.

Lemma heading_slug_nonempty (header : Node) (index : nat) :
  heading_slug header index <> [].
Proof.
  unfold heading_slug, slug_or_fallback.
  destruct (slugify (textContent header)); discriminate.
Qed.

Lemma toc_entry_spec (header : Node) (index : nat) (st : TocState) :
  usedIds st = list_to_set (ids st) ->
  exists u,
    toc_entry header index st
    = Some {| usedIds := {[ u ]} ∪ usedIds st; ids := ids st ++ [u];
              ul := ul st ++ [toc_link header index u] |}
    /\ u <> []
    /\ first_free (ids st) (heading_slug header index) u.
Proof.
  intros Hused. unfold toc_entry.
  destruct (unique_slug_total (usedIds st) (heading_slug header index))
    as (n & -> & Hfree & Hbelow).
  exists (candidate (heading_slug header index) n). split; [reflexivity|].
  split; [apply candidate_nonempty, heading_slug_nonempty|].
  exists n. rewrite Hused in Hfree, Hbelow.
  split; [reflexivity|]. split.
  - now rewrite elem_of_list_to_set in Hfree.
  - intros m Hm. specialize (Hbelow m Hm). now rewrite elem_of_list_to_set in Hbelow.
Qed.

Lemma forEach_header_spec (headers : list Node) :
  forall (index : nat) (st : TocState),
    usedIds st = list_to_set (ids st) ->
    exists new,
      forEach_header headers index st
      = Some {| usedIds := list_to_set (ids st ++ new); ids := ids st ++ new;
                ul := ul st ++ links_for headers index new |}
      /\ length new = length headers
      /\ Forall (fun id => id <> []) new
      /\ forall k header id,
           headers !! k = Some header -> new !! k = Some id ->
           first_free (ids st ++ take k new) (heading_slug header (index + k)) id.
Proof.
  induction headers as [|header rest IH]; intros index st Hused.
  - exists []. simpl. rewrite !app_nil_r. repeat split.
    + destruct st as [used0 ids0 ul0]. cbn in Hused |- *. now rewrite Hused.
    + constructor.
    + intros k ? ? Hk. now rewrite lookup_nil in Hk.
  - destruct (toc_entry_spec header index st Hused) as (u & Hentry & Hne & Hfirst).
    cbn [forEach_header]. rewrite Hentry. cbn [mbind option_bind].
    match goal with |- context [forEach_header rest (S index) ?st1] =>
      destruct (IH (S index) st1) as (new & Hrun & Hlen & Hall & Hrule) end.
    { cbn [usedIds ids]. rewrite Hused, list_to_set_app_L. cbn [list_to_set].
      rewrite (right_id_L ∅ (∪)). apply (comm_L (∪)). }
    cbn [usedIds ids ul] in Hrun, Hrule.
    exists (u :: new). rewrite Hrun. repeat split.
    + cbn [links_for]. now rewrite <- !app_assoc.
    + simpl. now rewrite Hlen.
    + now constructor.
    + intros [|k] h id Hh Hid; simpl in Hh, Hid.
      * injection Hh as <-. injection Hid as <-.
        rewrite Nat.add_0_r, take_0, app_nil_r. exact Hfirst.
      * specialize (Hrule k h id Hh Hid).
        rewrite <- app_assoc in Hrule. simpl in Hrule.
        now rewrite Nat.add_succ_r.
Qed.

Lemma first_free_NoDup (l : list jsstring) (slugs : nat -> jsstring) :
  (forall k id, l !! k = Some id -> first_free (take k l) (slugs k) id) -> NoDup l.
Proof.
  induction l as [|x l IH] using rev_ind; intros Hrule; [constructor|].
  apply NoDup_app. split; [|split].
  - apply IH. intros k id Hk.
    pose proof (lookup_lt_Some _ _ _ Hk) as Hlt.
    specialize (Hrule k id). rewrite lookup_app_l in Hrule by exact Hlt.
    rewrite take_app_le in Hrule by lia. now apply Hrule.
  - intros y Hy Hx. apply list_elem_of_singleton in Hx as ->.
    destruct (Hrule (length l) x) as (n & _ & Hfree & _).
    { now rewrite lookup_app_r, Nat.sub_diag by lia. }
    rewrite take_app_length in Hfree. contradiction.
  - apply NoDup_singleton.
Qed.

(** [generateTOC] always comes back, with one id and one anchor for each
    selected heading. *)
Lemma build_toc_spec (headers : list Node) :
  exists new,
    build_toc headers = Some (new, links_for headers 0 new)
    /\ length new = length headers
    /\ NoDup new
    /\ Forall (fun id => id <> []) new
    /\ forall k header id,
         headers !! k = Some header -> new !! k = Some id ->
         first_free (take k new) (heading_slug header k) id.
Proof.
  destruct (forEach_header_spec headers 0 {| usedIds := ∅; ids := []; ul := [] |})
    as (new & Hrun & Hlen & Hall & Hrule); [reflexivity|].
  cbn [usedIds ids ul app] in Hrun, Hrule.
  exists new. unfold build_toc. rewrite Hrun. cbn.
  repeat split; try assumption.
  apply (first_free_NoDup new (fun k =>
           match headers !! k with Some h => heading_slug h k | None => [] end)).
  intros k id Hk.
  destruct (headers !! k) as [h|] eqn:Hh.
  - now apply (Hrule k h id).
  - apply lookup_ge_None in Hh. apply lookup_lt_Some in Hk. lia.
Qed.
End TocFacts.

Lemma first_free_same_slug (slug : jsstring) (l : list jsstring) :
  (forall k id, l !! k = Some id -> first_free (take k l) slug id) ->
  l = candidate slug <$> seq 0 (length l).
Proof.
  induction l as [|x l IH] using rev_ind; intros Hrule; [reflexivity|].
  assert (Hl : l = candidate slug <$> seq 0 (length l)).
  { apply IH. intros k id Hk.
    pose proof (lookup_lt_Some _ _ _ Hk) as Hlt.
    specialize (Hrule k id). rewrite lookup_app_l in Hrule by exact Hlt.
    rewrite take_app_le in Hrule by lia. now apply Hrule. }
  destruct (Hrule (length l) x) as (n & -> & Hfree & Hbelow).
  { now rewrite lookup_app_r, Nat.sub_diag by lia. }
  rewrite take_app_length in Hfree, Hbelow.
  assert (Hmem : forall m, candidate slug m ∈ l <-> (m < length l)%nat).
  { intros m. rewrite Hl at 1. rewrite list_elem_of_fmap. split.
    - intros (m' & E & Hm'). apply candidate_inj in E as ->.
      apply elem_of_seq in Hm'. lia.
    - intros Hm. exists m. split; [reflexivity|]. apply elem_of_seq. lia. }
  assert (n = length l) as ->.
  { destruct (Nat.lt_trichotomy n (length l)) as [Hlt|[E|Hgt]]; [|exact E|].
    - exfalso. apply Hfree, Hmem, Hlt.
    - apply Hbelow, Hmem in Hgt. lia. }
  rewrite length_app, Nat.add_comm. cbn [length Nat.add].
  rewrite seq_S, fmap_app. cbn [fmap list_fmap Nat.add]. now rewrite <- Hl.
Qed.

(** C2. In one render the identifiers given to the headings are pairwise
    distinct and non-empty; each one is the first of [slug], [slug-1],
    [slug-2], ... that no earlier heading received, so headings with the
    same text get the slug and then the suffixes [-1], [-2], ... in order;
    two headings "Market Overview" get [market-overview] and
    [market-overview-1]. *)
Theorem toc_ids_unique `{CaseMapping} :
  (forall headers : list Node,
     exists ids,
       build_toc headers = Some (ids, links_for headers 0 ids)
       /\ length ids = length headers
       /\ NoDup ids
       /\ Forall (fun id => id <> []) ids
       /\ (forall k header id,
             headers !! k = Some header -> ids !! k = Some id ->
             first_free (take k ids) (heading_slug header k) id)
       /\ (forall text,
             truthy (slugify text) = true ->
             Forall (fun header => textContent header = text) headers ->
             ids = candidate (slugify text) <$> seq 0 (length headers)))
  /\ (forall tag1 tag2,
        fst <$> build_toc [Element tag1 [] [TextNode (js "Market Overview")];
                           Element tag2 [] [TextNode (js "Market Overview")]]
        = Some [js "market-overview"; js "market-overview-1"]).
Proof.
  assert (Hgen : forall headers : list Node,
     exists ids,
       build_toc headers = Some (ids, links_for headers 0 ids)
       /\ length ids = length headers
       /\ NoDup ids
       /\ Forall (fun id => id <> []) ids
       /\ (forall k header id,
             headers !! k = Some header -> ids !! k = Some id ->
             first_free (take k ids) (heading_slug header k) id)
       /\ (forall text,
             truthy (slugify text) = true ->
             Forall (fun header => textContent header = text) headers ->
             ids = candidate (slugify text) <$> seq 0 (length headers))).
  { intros headers.
    destruct (build_toc_spec headers) as (ids & Hrun & Hlen & Hnd & Hne & Hrule).
    exists ids. repeat split; try assumption.
    intros text Htext Hsame. rewrite <- Hlen.
    apply first_free_same_slug. intros k id Hk.
    destruct (headers !! k) as [h|] eqn:Hh.
    - specialize (Hrule k h id Hh Hk).
      rewrite Forall_lookup in Hsame. specialize (Hsame k h Hh).
      unfold heading_slug in Hrule. rewrite Hsame in Hrule.
      unfold slug_or_fallback in Hrule.
      destruct (slugify text); [discriminate|exact Hrule].
    - apply lookup_ge_None in Hh. apply lookup_lt_Some in Hk. lia. }
  split; [exact Hgen|].
  intros tag1 tag2.
  assert (Hslug : slugify (js "Market Overview") = js "market-overview").
  { unfold slugify. rewrite toLowerCase_basic_latin by reflexivity.
    vm_compute. reflexivity. }
  match goal with |- fst <$> build_toc ?hs = _ =>
    destruct (Hgen hs) as (ids & Hrun & _ & _ & _ & _ & Hsame) end.
  rewrite Hrun. cbn [fmap option_fmap option_map fst]. f_equal.
  rewrite (Hsame (js "Market Overview")).
  - rewrite Hslug. vm_compute. reflexivity.
  - now rewrite Hslug.
  - repeat constructor; cbn; now rewrite app_nil_r.
Qed.

(** ** Rendering *)

Section RenderFacts.
Context `{CaseMapping}.
Variable w : World.

Lemma showError_run (message : jsstring) (s : Sys) :
  showError w message s = (Fulfilled tt, mkSys (error_page w message (page s)) (events s)).
Proof. reflexivity. Qed.

Lemma renderMarkdown_missing (md : jsstring) (s : Sys) :
  marked w = None ->
  renderMarkdown w md s
  = (Fulfilled tt,
     mkSys (error_page w (js "Markdown renderer failed to load") (page s)) (events s)).
Proof. intros E. unfold renderMarkdown. now rewrite E. Qed.

Lemma renderMarkdown_thrown engine (md : jsstring) (e : Exn) (s : Sys) :
  marked w = Some engine -> engine marked_options md = inl e ->
  renderMarkdown w md s = (Rejected e, s).
Proof.
  intros E1 E2. unfold renderMarkdown. rewrite E1.
  unfold mbind, async_bind. now rewrite E2.
Qed.

Lemma renderMarkdown_ok engine (md html : jsstring) (s : Sys) :
  marked w = Some engine -> engine marked_options md = inr html ->
  exists new,
    build_toc (querySelectorAll_headings (rendered_nodes w html))
    = Some (new, links_for (querySelectorAll_headings (rendered_nodes w html)) 0 new)
    /\ length new = length (querySelectorAll_headings (rendered_nodes w html))
    /\ renderMarkdown w md s
       = (Fulfilled tt, mkSys (rendered_page w html new (page s)) (events s)).
Proof.
  intros E1 E2.
  destruct (build_toc_spec (querySelectorAll_headings (rendered_nodes w html)))
    as (new & Hrun & Hlen & _).
  exists new. split; [exact Hrun|]. split; [exact Hlen|].
  unfold renderMarkdown. rewrite E1.
  unfold mbind, async_bind. rewrite E2.
  cbn [or_throw mret async_ret update page events set_content set_nodes contentNodes].
  unfold update_or_hang, generateTOC.
  cbn [page events set_nodes contentNodes].
  fold (rendered_nodes w html). rewrite Hrun. reflexivity.
Qed.

(** Rendering asks nothing of the stores or the network. *)
Lemma renderMarkdown_quiet (md : jsstring) (s : Sys) :
  events (renderMarkdown w md s).2 = events s.
Proof.
  destruct (marked w) as [engine|] eqn:E1.
  - destruct (engine marked_options md) as [e|html] eqn:E2.
    + now rewrite (renderMarkdown_thrown engine md e s E1 E2).
    + destruct (renderMarkdown_ok engine md html s E1 E2) as (new & _ & _ & ->).
      reflexivity.
  - now rewrite renderMarkdown_missing.
Qed.
End RenderFacts.

(** ** The active anchor *)

Lemma is_active_remove (a : TocLink) : is_active (classList_remove active a) = false.
Proof.
  unfold is_active, classList_remove. cbn [link_classes].
  apply bool_decide_eq_false. rewrite list_elem_of_filter. tauto.
Qed.

Lemma is_active_add (a : TocLink) : is_active (classList_add active a) = true.
Proof.
  unfold is_active, classList_add. cbn [link_classes].
  apply bool_decide_eq_true. case_bool_decide as Hin; [exact Hin|].
  apply elem_of_app. right. apply list_elem_of_singleton. reflexivity.
Qed.

Lemma filter_inactive (l : list TocLink) :
  Forall (fun a => is_active a = false) l ->
  filter (fun a => is_active a = true) l = [].
Proof.
  induction 1 as [|a l Ha _ IH]; [reflexivity|].
  rewrite filter_cons_False; [exact IH|]. now rewrite Ha.
Qed.

Lemma alter_active_count (f : TocLink -> TocLink) (l : list TocLink) :
  Forall (fun a => is_active a = false) l ->
  forall k, (length (filter (fun a => is_active a = true) (alter f k l)) <= 1)%nat.
Proof.
  induction 1 as [|a l Ha Hl IH]; intros k; [destruct k; cbn; lia|].
  destruct k as [|k]; cbn [alter list_alter].
  - rewrite filter_cons. rewrite (filter_inactive l Hl).
    destruct (decide (is_active (f a) = true)); cbn; lia.
  - rewrite filter_cons_False by now rewrite Ha. apply IH.
Qed.

Lemma all_removed (l : list TocLink) :
  Forall (fun a => is_active a = false) (classList_remove active <$> l).
Proof. apply Forall_fmap, Forall_true. intros a. apply is_active_remove. Qed.

Lemma updateActiveLink_count (k : nat) (p : Page) :
  (active_count (updateActiveLink k p) <= 1)%nat.
Proof. unfold active_count, updateActiveLink. cbn [toc set_links set_toc]. apply alter_active_count, all_removed. Qed.

Lemma updateActiveLink_only (k : nat) (p : Page) (j : nat) (a : TocLink) :
  toc (updateActiveLink k p) !! j = Some a -> is_active a = true -> j = k.
Proof.
  unfold updateActiveLink. cbn [toc set_links set_toc]. intros Hj Hact.
  destruct (decide (j = k)) as [E|Hne]; [exact E|exfalso].
  rewrite list_lookup_alter_ne in Hj by congruence.
  rewrite list_lookup_fmap in Hj.
  destruct (toc p !! j) as [b|]; [|discriminate].
  injection Hj as <-. now rewrite is_active_remove in Hact.
Qed.

Lemma on_entry_count (p : Page) (entry : nat * bool) :
  (active_count p <= 1)%nat -> (active_count (on_entry p entry) <= 1)%nat.
Proof.
  intros Hp. unfold on_entry.
  repeat case_match; try exact Hp; apply updateActiveLink_count.
Qed.

Lemma dispatch_count (p : Page) (ev : UiEvent) :
  (active_count p <= 1)%nat -> (active_count (dispatch p ev) <= 1)%nat.
Proof.
  intros Hp. destruct ev as [k|entries]; cbn [dispatch].
  - case_match; [apply updateActiveLink_count | exact Hp].
  - revert p Hp. induction entries as [|e es IH]; intros p Hp; [exact Hp|].
    cbn [foldl]. apply IH, on_entry_count, Hp.
Qed.

Lemma events_count (evs : list UiEvent) (p : Page) :
  (active_count p <= 1)%nat -> (active_count (foldl dispatch p evs) <= 1)%nat.
Proof.
  revert p. induction evs as [|ev evs IH]; intros p Hp; [exact Hp|].
  cbn [foldl]. apply IH, dispatch_count, Hp.
Qed.

Section ActiveFacts.
Context `{CaseMapping}.

Lemma toc_link_inactive (header : Node) (index : nat) (id : jsstring) :
  is_active (toc_link header index id) = false.
Proof.
  unfold is_active, toc_link. cbn [link_classes].
  apply bool_decide_eq_false. intros Hin.
  apply list_elem_of_singleton in Hin. discriminate Hin.
Qed.

Lemma links_for_inactive (headers : list Node) :
  forall index new, Forall (fun a => is_active a = false) (links_for headers index new).
Proof.
  induction headers as [|h hs IH]; intros index [|id new]; cbn [links_for];
    try constructor; [apply toc_link_inactive | apply IH].
Qed.

Lemma length_links_for (headers : list Node) :
  forall index new, length new = length headers ->
                    length (links_for headers index new) = length headers.
Proof.
  induction headers as [|h hs IH]; intros index [|id new] E; cbn in *;
    try discriminate; [reflexivity|]. f_equal. apply IH. lia.
Qed.

Variable w : World.

Lemma toc_rendered_page (html : jsstring) (new : list jsstring) (p : Page) :
  toc (rendered_page w html new p)
  = match links_for (querySelectorAll_headings (rendered_nodes w html)) 0 new with
    | [] => []
    | firstLink :: rest => classList_add active firstLink :: rest
    end.
Proof.
  unfold rendered_page, activate_first.
  cbn [toc setupScrollSpy set_observed set_toc].
  now destruct (links_for _ 0 new).
Qed.

Lemma heading_ids_rendered_page (html : jsstring) (new : list jsstring) (p : Page) :
  heading_ids (rendered_page w html new p) = new.
Proof.
  unfold rendered_page, activate_first.
  cbn [toc setupScrollSpy set_observed set_toc].
  now destruct (links_for _ 0 new).
Qed.

Lemma rendered_page_count (html : jsstring) (new : list jsstring) (p : Page) :
  (active_count (rendered_page w html new p) <= 1)%nat.
Proof.
  unfold active_count. rewrite toc_rendered_page.
  pose proof (links_for_inactive (querySelectorAll_headings (rendered_nodes w html)) 0 new)
    as Hall.
  destruct (links_for _ 0 new) as [|a rest]; [cbn; lia|].
  apply Forall_cons in Hall as [_ Hrest].
  rewrite filter_cons, (filter_inactive rest Hrest).
  destruct (decide _); cbn; lia.
Qed.
End ActiveFacts.

(** ** Running [initReport] *)

Lemma bind_run {A B} (m : Async A) (k : A -> Async B) (s : Sys) :
  (m ≫= k) s
  = match m s with
    | (Fulfilled a, s') => k a s'
    | (Rejected e, s') => (Rejected e, s')
    | (Pending, s') => (Pending, s')
    end.
Proof. reflexivity. Qed.

Lemma try_catch_bind_fulfilled {A B} (m : Async A) (k : A -> Async B)
    (h : Exn -> Async B) (s s' : Sys) (a : A) :
  m s = (Fulfilled a, s') -> try_catch (m ≫= k) h s = try_catch (k a) h s'.
Proof. intros E. unfold try_catch. rewrite bind_run, E. reflexivity. Qed.

Lemma try_catch_bind_rejected {A B} (m : Async A) (k : A -> Async B)
    (h : Exn -> Async B) (s s' : Sys) (e : Exn) :
  m s = (Rejected e, s') -> try_catch (m ≫= k) h s = h e s'.
Proof. intros E. unfold try_catch. rewrite bind_run, E. reflexivity. Qed.

Lemma starts_with_spec (needle s : jsstring) :
  starts_with needle s = true -> exists rest, s = needle ++ rest.
Proof.
  revert s. induction needle as [|a needle IH]; intros s Hs.
  - now exists s.
  - destruct s as [|b s]; [discriminate|]. cbn in Hs.
    apply andb_prop in Hs as [Hab Hs]. apply N.eqb_eq in Hab as ->.
    destruct (IH s Hs) as [rest ->]. now exists rest.
Qed.

Lemma contains_spec (needle s : jsstring) :
  contains needle s = true -> exists before rest, s = before ++ needle ++ rest.
Proof.
  induction s as [|c s IH]; cbn [contains]; intros Hs.
  - rewrite orb_false_r in Hs. destruct (starts_with_spec _ _ Hs) as [rest E].
    now exists [], rest.
  - apply orb_prop in Hs as [Hs|Hs].
    + destruct (starts_with_spec _ _ Hs) as [rest E]. now exists [], rest.
    + destruct (IH Hs) as (before & rest & ->). now exists (c :: before), rest.
Qed.


Section SourceFacts.
Context `{CaseMapping}.
Variable w : World.
Variable reportId : jsstring.

Lemma read_local_run (l : list Report) (s : Sys) :
  local_reports w = Some l ->
  read_local w s = (Fulfilled l, mkSys (page s) (events s ++ [got_item])).
Proof.
  unfold local_reports, read_local. rewrite bind_run. cbn [emit].
  destruct (my_reports w) as [[|l']|]; intros [= <-]; reflexivity.
Qed.

Lemma read_local_unparsable (s : Sys) :
  local_reports w = None ->
  read_local w s = (Rejected SyntaxError, mkSys (page s) (events s ++ [got_item])).
Proof.
  unfold local_reports, read_local. rewrite bind_run. cbn [emit].
  destruct (my_reports w) as [[|l']|]; intros [=]; reflexivity.
Qed.

Lemma nonempty_or_empty (l : list Report) :
  (if (0 <? length l)%nat then l else []) = l.
Proof. now destruct l. Qed.



Lemma find_in_sources_remote (l : list Report) (resp : Response) (s : Sys) :
  local_reports w = Some l -> find_report reportId l = None ->
  find_report reportId (global_reports w) = None ->
  fetch w (index_url (now w)) = Resolved resp ->
  find_in_sources w reportId s
  = (if ok resp then
       match json resp with
       | Resolved remote => Fulfilled (find_report reportId remote)
       | Failed => Rejected SyntaxError
       | Unsettled => Pending
       end
     else Fulfilled None,
     mkSys (page s) (events s ++ [got_item; ReadReportsData; Fetch (index_url (now w))])).
Proof.
  intros Hl Hnone Hglobal Hresp. unfold find_in_sources.
  rewrite bind_run, (read_local_run l s Hl), nonempty_or_empty, Hnone.
  rewrite bind_run. cbn [emit page events].
  assert (E : match reportsData w with
              | Some data => find_report reportId data
              | None => None
              end = None).
  { unfold global_reports in Hglobal. now destruct (reportsData w). }
  rewrite E. unfold do_fetch. rewrite !bind_run. cbn [emit page events].
  rewrite Hresp. cbn [mret async_ret]. rewrite <- !app_assoc. cbn [app].
  destruct (ok resp); [|reflexivity].
  destruct (json resp); reflexivity.
Qed.

Lemma find_in_sources_offline (l : list Report) (s : Sys) :
  local_reports w = Some l -> find_report reportId l = None ->
  find_report reportId (global_reports w) = None ->
  fetch w (index_url (now w)) = Failed ->
  find_in_sources w reportId s
  = (Rejected NetworkError,
     mkSys (page s) (events s ++ [got_item; ReadReportsData; Fetch (index_url (now w))])).
Proof.
  intros Hl Hnone Hglobal Hresp. unfold find_in_sources.
  rewrite bind_run, (read_local_run l s Hl), nonempty_or_empty, Hnone.
  rewrite bind_run. cbn [emit page events].
  assert (E : match reportsData w with
              | Some data => find_report reportId data
              | None => None
              end = None).
  { unfold global_reports in Hglobal. now destruct (reportsData w). }
  rewrite E. unfold do_fetch. rewrite !bind_run. cbn [emit page events].
  rewrite Hresp. cbn [throw]. rewrite <- !app_assoc. reflexivity.
Qed.


Lemma initReport_with_id (s : Sys) :
  search_id w = Some reportId -> truthy reportId = true ->
  initReport w s
  = try_catch
      (report ← find_in_sources w reportId;
       match report with
       | None => showError w (js "Report not found")
       | Some report => present_report w report
       end)
      (on_failure w) s.
Proof. intros E1 E2. unfold initReport. now rewrite E1, E2. Qed.

Lemma on_failure_run (e : Exn) (s : Sys) :
  on_failure w e s
  = (Fulfilled tt,
     mkSys (error_page w (js "Bummer! Failed to load report. Please refresh and try again.")
              (page s))
           (events s ++ [ConsoleError (js "Failed to load report:") e])).
Proof. reflexivity. Qed.

(** Whatever happens inside the [try] block, the promise of [initReport]
    is not rejected. *)
Lemma guarded_not_rejected (body : Async unit) (s : Sys) (e : Exn) :
  (try_catch body (on_failure w) s).1 <> Rejected e.
Proof.
  unfold try_catch. destruct (body s) as [[a|e'|] s']; cbn; discriminate.
Qed.
End SourceFacts.

(** ** What [initReport] maintains *)

Section Invariant.
Variable Q : list TocLink -> Prop.

Lemma ti_bind {A B} (m : Async A) (k : A -> Async B) :
  toc_invariant Q m -> (forall a, toc_invariant Q (k a)) -> toc_invariant Q (m ≫= k).
Proof.
  intros Hm Hk s Hs. rewrite bind_run. specialize (Hm s Hs).
  destruct (m s) as [[a|e|] s']; cbn in Hm |- *; [now apply Hk | exact Hm | exact Hm].
Qed.

Lemma ti_try_catch {A} (body : Async A) (h : Exn -> Async A) :
  toc_invariant Q body -> (forall e, toc_invariant Q (h e)) ->
  toc_invariant Q (try_catch body h).
Proof.
  intros Hm Hh s Hs. unfold try_catch. specialize (Hm s Hs).
  destruct (body s) as [[a|e|] s']; cbn in Hm |- *; [exact Hm | now apply Hh | exact Hm].
Qed.

Lemma ti_mret {A} (a : A) : toc_invariant Q (mret a).
Proof. intros s Hs. exact Hs. Qed.

Lemma ti_throw {A} (e : Exn) : toc_invariant Q (@throw A e).
Proof. intros s Hs. exact Hs. Qed.

Lemma ti_emit (ev : Event) : toc_invariant Q (emit ev).
Proof. intros s Hs. exact Hs. Qed.

Lemma ti_never {A} : toc_invariant Q (@never A).
Proof. intros s Hs. exact Hs. Qed.

Lemma ti_update (f : Page -> Page) :
  (forall p, toc (f p) = toc p) -> toc_invariant Q (update f).
Proof. intros Hf s Hs. cbn. now rewrite Hf. Qed.
End Invariant.

Ltac ti_steps :=
  repeat first
    [ apply ti_mret | apply ti_throw | apply ti_emit | apply ti_never
    | apply ti_update; intros ?; reflexivity
    | apply ti_bind; [|intros ?]
    | match goal with
      | |- toc_invariant _ (match ?x with _ => _ end) => destruct x
      end ].

Section InvariantFacts.
Context `{CaseMapping}.
Variable w : World.

Lemma ti_showError Q (message : jsstring) : toc_invariant Q (showError w message).
Proof. unfold showError. ti_steps. Qed.

Lemma ti_find_in_sources Q (reportId : jsstring) :
  toc_invariant Q (find_in_sources w reportId).
Proof. unfold find_in_sources, read_local, do_fetch. ti_steps. Qed.

Lemma ti_load_content Q (report : Report) : toc_invariant Q (load_content w report).
Proof. unfold load_content, fetch_markdown, do_fetch. ti_steps. Qed.

Lemma ti_renderMarkdown (md : jsstring) :
  toc_invariant at_most_one_active (renderMarkdown w md).
Proof.
  intros s Hs.
  destruct (marked w) as [engine|] eqn:E1.
  - destruct (engine marked_options md) as [e|html] eqn:E2.
    + now rewrite (renderMarkdown_thrown w engine md e s E1 E2).
    + destruct (renderMarkdown_ok w engine md html s E1 E2) as (new & _ & _ & ->).
      apply (rendered_page_count w html new (page s)).
  - rewrite renderMarkdown_missing by exact E1. exact Hs.
Qed.

Lemma ti_initReport : toc_invariant at_most_one_active (initReport w).
Proof.
  unfold initReport, loadSampleMarkdown.
  destruct (search_id w) as [reportId|]; [|apply ti_renderMarkdown].
  destruct (negb (truthy reportId)); [apply ti_renderMarkdown|].
  apply ti_try_catch.
  - apply ti_bind; [apply ti_find_in_sources|].
    intros [report|]; [|apply ti_showError].
    unfold present_report. apply ti_bind; [apply ti_update; intros ?; reflexivity|].
    intros _. apply ti_bind; [apply ti_load_content|].
    intros md. apply ti_renderMarkdown.
  - intros e. unfold on_failure. apply ti_bind; [apply ti_emit|].
    intros _. apply ti_showError.
Qed.
End InvariantFacts.

(** C8. At most one anchor of the table of contents is marked active:
    [updateActiveLink] takes the mark from every anchor before it marks
    the one it is given, so after an update only that anchor is active, and
    the bound holds after [initReport] and after every sequence of clicks
    and observer callbacks that follows. *)
Theorem one_active_entry `{CaseMapping} (w : World) (p0 : Page) (evs : list UiEvent) :
  (active_count p0 <= 1)%nat ->
  (active_count (foldl dispatch (page (initReport w (start p0)).2) evs) <= 1)%nat
  /\ (forall k p, (active_count (updateActiveLink k p) <= 1)%nat
                  /\ forall j a, toc (updateActiveLink k p) !! j = Some a ->
                                 is_active a = true -> j = k)
  /\ (forall p ev, (active_count p <= 1)%nat -> (active_count (dispatch p ev) <= 1)%nat).
Proof.
  intros Hp0. split; [|split].
  - apply events_count. apply (ti_initReport w (start p0)). exact Hp0.
  - intros k p. split; [apply updateActiveLink_count|].
    intros j a. apply updateActiveLink_only.
  - intros p ev. apply dispatch_count.
Qed.

(** ** Resolution of a report *)


(** C4. An identifier that is in none of the three collections, the
    index request being answered (with a failure status, or with an index
    that lacks it), ends in the not-found view: the container shows
    "Report not found" with a link to [cases.html], and the promise of
    [initReport] is fulfilled.  With an identifier the promise is never
    rejected, whatever the environment does. *)
Theorem absent_id_not_found `{CaseMapping} (w : World) (reportId : jsstring)
    (l : list Report) (resp : Response) (p : Page) :
  search_id w = Some reportId -> truthy reportId = true ->
  local_reports w = Some l -> find_report reportId l = None ->
  find_report reportId (global_reports w) = None ->
  fetch w (index_url (now w)) = Resolved resp ->
  (ok resp = false
   \/ exists remote, json resp = Resolved remote /\ find_report reportId remote = None) ->
  initReport w (start p)
  = (Fulfilled tt,
     mkSys (error_page w (js "Report not found") p)
           [got_item; ReadReportsData; Fetch (index_url (now w))])
  /\ innerHTML (error_page w (js "Report not found") p) = error_html (js "Report not found")
  /\ contains (js "Report not found") (error_html (js "Report not found")) = true
  /\ contains (js "<a href=" ++ quoted "cases.html") (error_html (js "Report not found")) = true
  /\ (forall s e, (initReport w s).1 <> Rejected e).
Proof.
  intros Hid Htruthy Hl Hnone Hglobal Hresp Habsent.
  split; [|split; [reflexivity|split; [vm_compute; reflexivity|split; [vm_compute; reflexivity|]]]].
  - rewrite (initReport_with_id w reportId (start p) Hid Htruthy).
    pose proof (find_in_sources_remote w reportId l resp (start p) Hl Hnone Hglobal Hresp)
      as Hfind.
    assert (E : find_in_sources w reportId (start p)
                = (Fulfilled None,
                   mkSys p [got_item; ReadReportsData; Fetch (index_url (now w))])).
    { rewrite Hfind. destruct Habsent as [Hok|(remote & Hjson & Hremote)].
      - now rewrite Hok.
      - rewrite Hjson, Hremote. now destruct (ok resp). }
    rewrite (try_catch_bind_fulfilled _ _ _ _ _ _ E). reflexivity.
  - intros s e. rewrite (initReport_with_id w reportId s Hid Htruthy).
    apply guarded_not_rejected.
Qed.

(** ** Content of a report *)

Section ContentFacts.
Context `{CaseMapping}.
Variable w : World.

Lemma guarded_events (body : Async unit) (s : Sys) :
  exists tail,
    events (try_catch body (on_failure w) s).2 = events (body s).2 ++ tail
    /\ List.filter is_fetch tail = [].
Proof.
  unfold try_catch. destruct (body s) as [[a|e|] s'].
  - exists []. now rewrite app_nil_r.
  - exists [ConsoleError (js "Failed to load report:") e]. now rewrite on_failure_run.
  - exists []. now rewrite app_nil_r.
Qed.

Lemma present_report_guarded (report : Report) (s1 : Sys) :
  try_catch (present_report w report) (on_failure w) s1
  = try_catch (load_content w report ≫= renderMarkdown w) (on_failure w)
      (mkSys (set_metadata report (page s1)) (events s1)).
Proof.
  unfold present_report.
  now rewrite (try_catch_bind_fulfilled (update (set_metadata report)) _ _ s1
                 (mkSys (set_metadata report (page s1)) (events s1)) tt).
Qed.

Lemma load_inline (report : Report) (c : jsstring) (s : Sys) :
  report_content report = Some c -> truthy c = true ->
  (load_content w report ≫= renderMarkdown w) s = renderMarkdown w c s.
Proof.
  intros Hc Ht. rewrite bind_run. unfold load_content. now rewrite Hc, Ht.
Qed.

Lemma load_content_falsy (report : Report) :
  truthy_opt (report_content report) = false ->
  load_content w report = fetch_markdown w report.
Proof.
  unfold load_content, truthy_opt.
  destruct (report_content report) as [c|]; [|reflexivity].
  now intros ->.
Qed.

Lemma load_fetched_events (report : Report) (s : Sys) :
  truthy_opt (report_content report) = false ->
  events ((load_content w report ≫= renderMarkdown w) s).2
  = events s ++ [Fetch (path_url (markdown_path report))].
Proof.
  intros Hc. rewrite (load_content_falsy report Hc), bind_run.
  unfold fetch_markdown, do_fetch. rewrite !bind_run. cbn [emit page events].
  destruct (fetch w (path_url (markdown_path report))) as [resp| |];
    [|reflexivity|reflexivity].
  cbn [mret async_ret]. destruct (ok resp); [|reflexivity].
  destruct (text resp) as [t| |]; [|reflexivity|reflexivity].
  cbn [mret async_ret]. now rewrite renderMarkdown_quiet.
Qed.

Lemma load_refused (report : Report) (resp : Response) (s : Sys) :
  truthy_opt (report_content report) = false ->
  fetch w (path_url (markdown_path report)) = Resolved resp -> ok resp = false ->
  (load_content w report ≫= renderMarkdown w) s
  = (Rejected (Error (js "Unable to load report content")),
     mkSys (page s) (events s ++ [Fetch (path_url (markdown_path report))])).
Proof.
  intros Hc Hresp Hok. rewrite (load_content_falsy report Hc), bind_run.
  unfold fetch_markdown, do_fetch. rewrite !bind_run. cbn [emit page events].
  rewrite Hresp. cbn [mret async_ret]. now rewrite Hok.
Qed.
End ContentFacts.

(** C6. For a record that was found: when its [content] is a non-empty
    string, that string is what [renderMarkdown] receives and no request
    is made after the lookup; when it has no content, its [markdown_path]
    is requested, once; a response that is not [ok] raises "Unable to load
    report content", which ends the run in the failure view. *)
Theorem inline_content_not_fetched `{CaseMapping} (w : World) (reportId : jsstring)
    (report : Report) (s s1 : Sys) :
  search_id w = Some reportId -> truthy reportId = true ->
  find_in_sources w reportId s = (Fulfilled (Some report), s1) ->
  (forall c,
     report_content report = Some c -> truthy c = true ->
     initReport w s
     = try_catch (renderMarkdown w c) (on_failure w)
         (mkSys (set_metadata report (page s1)) (events s1))
     /\ List.filter is_fetch (events (initReport w s).2) = List.filter is_fetch (events s1)
     /\ forall engine html,
          marked w = Some engine -> engine marked_options c = inr html ->
          exists new,
            initReport w s
            = (Fulfilled tt,
               mkSys (rendered_page w html new (set_metadata report (page s1))) (events s1)))
  /\ (truthy_opt (report_content report) = false ->
      exists tail,
        events (initReport w s).2
        = events s1 ++ Fetch (path_url (markdown_path report)) :: tail
        /\ List.filter is_fetch tail = [])
  /\ (truthy_opt (report_content report) = false ->
      forall resp,
        fetch w (path_url (markdown_path report)) = Resolved resp -> ok resp = false ->
        initReport w s
        = (Fulfilled tt,
           mkSys (error_page w
                    (js "Bummer! Failed to load report. Please refresh and try again.")
                    (set_metadata report (page s1)))
                 (events s1
                  ++ [Fetch (path_url (markdown_path report));
                      ConsoleError (js "Failed to load report:")
                        (Error (js "Unable to load report content"))]))).
Proof.
  intros Hid Htruthy Hfind.
  assert (Hrun : initReport w s
                 = try_catch (load_content w report ≫= renderMarkdown w) (on_failure w)
                     (mkSys (set_metadata report (page s1)) (events s1))).
  { rewrite (initReport_with_id w reportId s Hid Htruthy).
    rewrite (try_catch_bind_fulfilled _ _ _ _ _ _ Hfind).
    apply present_report_guarded. }
  set (s2 := mkSys (set_metadata report (page s1)) (events s1)) in *.
  split; [|split].
  - intros c Hc Hnonempty.
    assert (Hrun' : initReport w s = try_catch (renderMarkdown w c) (on_failure w) s2).
    { rewrite Hrun. unfold try_catch. now rewrite (load_inline w report c s2 Hc Hnonempty). }
    split; [exact Hrun'|]. split.
    + rewrite Hrun'.
      destruct (guarded_events w (renderMarkdown w c) s2) as (tail & -> & Htail).
      now rewrite renderMarkdown_quiet, List.filter_app, Htail, app_nil_r.
    + intros engine html E1 E2.
      destruct (renderMarkdown_ok w engine c html s2 E1 E2) as (new & _ & _ & Hok).
      exists new. rewrite Hrun'. unfold try_catch. now rewrite Hok.
  - intros Hc. rewrite Hrun.
    destruct (guarded_events w (load_content w report ≫= renderMarkdown w) s2)
      as (tail & -> & Htail).
    exists tail. split; [|exact Htail].
    rewrite (load_fetched_events w report s2 Hc). now rewrite <- app_assoc.
  - intros Hc resp Hresp Hok. rewrite Hrun. unfold try_catch.
    rewrite (load_refused w report resp s2 Hc Hresp Hok), on_failure_run.
    cbn [page events]. now rewrite <- app_assoc.
Qed.

(** ** The sample document and repeated renders *)


(** C9. Rendering the same text a second time gives a table of contents
    with as many anchors as the first time, for the same identifiers in the
    same order; when the engine returns markup the anchors are the same
    altogether, one for each heading. *)
Theorem render_twice_same_toc `{CaseMapping} (w : World) (markdownContent : jsstring)
    (s : Sys) :
  let once := (renderMarkdown w markdownContent s).2 in
  let twice := (renderMarkdown w markdownContent once).2 in
  length (toc (page twice)) = length (toc (page once))
  /\ heading_ids (page twice) = heading_ids (page once)
  /\ map href (toc (page twice)) = map href (toc (page once))
  /\ forall engine html,
       marked w = Some engine -> engine marked_options markdownContent = inr html ->
       toc (page twice) = toc (page once)
       /\ length (toc (page once))
          = length (querySelectorAll_headings (rendered_nodes w html))
       /\ map href (toc (page once)) = map (cons 35) (heading_ids (page once)).
Proof.
  cbn zeta.
  destruct (marked w) as [engine|] eqn:E1.
  - destruct (engine marked_options markdownContent) as [e|html] eqn:E2.
    + rewrite !(renderMarkdown_thrown w engine markdownContent e _ E1 E2).
      split; [reflexivity|split; [reflexivity|split; [reflexivity|]]].
      intros engine' html' [= <-]. congruence.
    + destruct (renderMarkdown_ok w engine markdownContent html s E1 E2)
        as (new & Hbuild & Hlen & ->).
      cbn [snd].
      destruct (renderMarkdown_ok w engine markdownContent html
                  (mkSys (rendered_page w html new (page s)) (events s)) E1 E2)
        as (new' & Hbuild' & _ & ->).
      assert (new' = new) as -> by congruence.
      cbn [snd page]. rewrite !toc_rendered_page, !heading_ids_rendered_page.
      split; [reflexivity|split; [reflexivity|split; [reflexivity|]]].
      intros engine' html' [= <-] E2'. assert (html' = html) as -> by congruence.
      split; [reflexivity|].
      pose proof (length_links_for (querySelectorAll_headings (rendered_nodes w html)) 0
                    new Hlen) as Hlinks.
      split.
      * destruct (links_for _ 0 new); [exact Hlinks|exact Hlinks].
      * clear Hbuild Hbuild' Hlinks. revert Hlen.
        generalize (querySelectorAll_headings (rendered_nodes w html)) as headers.
        intros headers Hlen.
        assert (Hmap : forall hs i ids, length ids = length hs ->
                  map href (links_for hs i ids) = map (cons 35) ids).
        { induction hs as [|h hs IH]; intros i [|id ids] E; cbn in *;
            try discriminate; [reflexivity|]. f_equal. apply IH. lia. }
        specialize (Hmap headers 0%nat new Hlen).
        destruct (links_for headers 0 new); [exact Hmap|exact Hmap].
  - rewrite !renderMarkdown_missing by exact E1. cbn [snd page].
    split; [reflexivity|split; [reflexivity|split; [reflexivity|]]].
    intros engine html [=].
Qed.

(** C5. Nothing stands between the engine and the page: with the options
    [gfm], [breaks] and the stock renderer, the markup the engine returns
    for the document becomes the container's [innerHTML] as it is, and the
    container's nodes are the ones the browser builds from it. *)
Theorem engine_output_installed `{CaseMapping} (w : World)
    (engine : MarkedOptions -> jsstring -> Exn + jsstring)
    (markdownContent html : jsstring) (s : Sys) :
  marked w = Some engine -> engine marked_options markdownContent = inr html ->
  innerHTML (page (renderMarkdown w markdownContent s).2) = html
  /\ contentNodes (page (renderMarkdown w markdownContent s).2)
     = remove_first_with_class (js "loading-state") (mount w html).
Proof.
  intros E1 E2.
  destruct (renderMarkdown_ok w engine markdownContent html s E1 E2) as (new & _ & _ & ->).
  cbn [snd page]. unfold rendered_page, activate_first.
  cbn [toc setupScrollSpy set_observed set_toc].
  destruct (links_for _ 0 new); split; reflexivity.
Qed.

(** ** The ASIN fields *)

Lemma no_invalid_iff_all_valid (l : list jsstring) :
  (length (List.filter (fun asin => negb (asinRegex_test asin)) l) =? 0)%nat
  = forallb asinRegex_test l.
Proof.
  induction l as [|x l IH]; [reflexivity|].
  cbn [List.filter forallb]. destruct (asinRegex_test x); [exact IH|reflexivity].
Qed.

(** What [validateAsins] returns. *)
Lemma validateAsins_returns `{CaseMapping} (form : AsinForm) :
  (validateAsins form).1.1
  = asinRegex_test (toUpperCase (trim (value (mainAsin form))))
    && truthy (trim (value (compAsin form)))
    && forallb asinRegex_test (compAsins (trim (value (compAsin form)))).
Proof.
  unfold validateAsins. rewrite no_invalid_iff_all_valid.
  destruct (toUpperCase (trim (value (mainAsin form)))) as [|b rest]; [reflexivity|].
  cbn [truthy andb negb].
  destruct (asinRegex_test (b :: rest)); [|reflexivity].
  cbn [negb andb].
  destruct (truthy (trim (value (compAsin form)))); [|reflexivity].
  cbn [andb negb].
  destruct (forallb asinRegex_test (compAsins (trim (value (compAsin form))))); reflexivity.
Qed.

(** C10. With a valid main ASIN and a competitor field that holds only a
    comma, [validateAsins] returns [true], although the field yields no
    token at all and the stated condition (at least one token, all of them
    matching) is not met. *)
Theorem separators_only_accepted `{CaseMapping} :
  (validateAsins {| mainAsin := field_of (js "B08CVS825S");
                    compAsin := field_of (js ",") |}).1.1 = true
  /\ competitor_tokens (js ",") = []
  /\ asins_acceptable (js "B08CVS825S") (js ",") = false.
Proof.
  assert (Emain : toUpperCase (trim (js "B08CVS825S")) = js "B08CVS825S").
  { rewrite toUpperCase_basic_latin by reflexivity. vm_compute. reflexivity. }
  assert (Eempty : toUpperCase (trim []) = []).
  { rewrite toUpperCase_basic_latin by reflexivity. reflexivity. }
  split; [|split].
  - rewrite validateAsins_returns. cbn [value mainAsin compAsin field_of].
    rewrite Emain. unfold compAsins.
    change (split_runs is_separator (trim (js ","))) with [[]; [] : jsstring].
    cbn [map]. rewrite Eempty. vm_compute. reflexivity.
  - vm_compute. reflexivity.
  - unfold asins_acceptable. rewrite Emain.
    change (competitor_tokens (js ",")) with ([] : list jsstring).
    vm_compute. reflexivity.
Qed.

(** ** Unexpected failures *)

(** X9. A local store whose text does not parse ends the run in the
    failure view right after the read: the preloaded collection and the
    index are not consulted, even if they hold the record. *)
Lemma unreadable_store_fails `{CaseMapping} (w : World) (reportId : jsstring) (p : Page) :
  search_id w = Some reportId -> truthy reportId = true ->
  local_reports w = None ->
  initReport w (start p)
  = (Fulfilled tt,
     mkSys (error_page w (js "Bummer! Failed to load report. Please refresh and try again.") p)
           [got_item; ConsoleError (js "Failed to load report:") SyntaxError]).
Proof.
  intros Hid Htruthy Hlocal. rewrite (initReport_with_id w reportId _ Hid Htruthy).
  assert (E : find_in_sources w reportId (start p) = (Rejected SyntaxError, mkSys p [got_item])).
  { unfold find_in_sources. now rewrite bind_run, (read_local_unparsable w (start p) Hlocal). }
  now rewrite (try_catch_bind_rejected _ _ _ _ _ _ E), on_failure_run.
Qed.

Lemma offline_index_fails `{CaseMapping} (w : World) (reportId : jsstring)
    (l : list Report) (p : Page) :
  search_id w = Some reportId -> truthy reportId = true ->
  local_reports w = Some l -> find_report reportId l = None ->
  find_report reportId (global_reports w) = None ->
  fetch w (index_url (now w)) = Failed ->
  initReport w (start p)
  = (Fulfilled tt,
     mkSys (error_page w (js "Bummer! Failed to load report. Please refresh and try again.") p)
           [got_item; ReadReportsData; Fetch (index_url (now w));
            ConsoleError (js "Failed to load report:") NetworkError]).
Proof.
  intros Hid Htruthy Hl Hnone Hglobal Hnet.
  rewrite (initReport_with_id w reportId _ Hid Htruthy).
  rewrite (try_catch_bind_rejected _ _ _ _ _ _
             (find_in_sources_offline w reportId l (start p) Hl Hnone Hglobal Hnet)).
  now rewrite on_failure_run.
Qed.

(** ** Examples *)

Example slugify_examples :
  slugify (js "  Hello,  World -- again! ") = js "hello-world-again"
  /\ slugify (js "1.1 Core Product Information") = js "11-core-product-information"
  /\ slugify (js "?!") = []
  /\ slugify [24066; 22330; 32; 27010; 35272; 65281] = [24066; 22330; 45; 27010; 35272]
  /\ slugify (js "-_-") = js "_".
Proof. vm_compute. repeat split. Qed.

Example fallback_ids :
  fst <$> build_toc [Element (js "H1") [] [TextNode (js "?!")];
                     Element (js "H2") [] [TextNode (js "Intro")];
                     Element (js "H2") [] [TextNode (js "...")];
                     Element (js "H3") [] [TextNode (js "Intro 1")];
                     Element (js "H3") [] [TextNode (js "intro")]]
  = Some [js "heading-0"; js "intro"; js "heading-2"; js "intro-1"; js "intro-2"].
Proof. vm_compute. reflexivity. Qed.

Example sample_ids :
  heading_ids (page (initReport (example_world None None None offline) (start empty_page)).2)
  = [js "1-market-overview-competitor-background";
     js "11-core-product-information";
     js "12-market-positioning-analysis";
     js "2-deep-user-review-mining";
     js "21-positive-sentiment-analysis";
     js "211-sound-quality-performance";
     js "212-comfort";
     js "3-marketing-strategy-recommendations";
     js "31-keyword-optimization-seo";
     js "32-off-site-promotion-opportunities";
     js "4-improvement-recommendations-summary"].
Proof. vm_compute. reflexivity. Qed.

(** Of the headings that intersect in one callback, the last one listed
    ends up active. *)
Example last_intersection_wins :
  map is_active
    (toc (dispatch
            (page (renderMarkdown (example_world None None None offline)
                     (unlines [js "# A"; js "## B"; js "## C"]) (start empty_page)).2)
            (Intersect [(1%nat, true); (2%nat, true); (0%nat, false)])))
  = [false; false; true].
Proof. vm_compute. reflexivity. Qed.

Example inline_report_title :
  document_title
    (page (initReport
             (example_world (Some (js "abc")) (Some (Reports [report_abc])) None offline)
             (start empty_page)).2)
  = js "Earbuds - Amz AI Agent".
Proof. vm_compute. reflexivity. Qed.

Example validateAsins_examples :
  (validateAsins {| mainAsin := field_of (js " b08cvs825s ");
                    compAsin := field_of (unlines [js "B0B9M5T6X8, b012345678"; js "B0AAAAAAAA"]) |}).1.1
  = true
  /\ (validateAsins {| mainAsin := field_of (js "B08CVS825S");
                       compAsin := field_of (js "B0B9M5T6X8 B08") |}).1.1 = false
  /\ (validateAsins {| mainAsin := field_of (js "B08CVS825S");
                       compAsin := field_of (js "   ") |}).1.1 = false
  /\ (validateAsins {| mainAsin := field_of (js "A08CVS825S");
                       compAsin := field_of (js "B0B9M5T6X8") |}).1.1 = false
  /\ (validateAsins {| mainAsin := field_of (js "B08CVS825S1");
                       compAsin := field_of (js "B0B9M5T6X8") |}).1.1 = false.
Proof. vm_compute. repeat split. Qed.

(** ** Instances *)


Lemma toc_ids_unique_witness :
  fst <$> build_toc (replicate 3 (Element (js "H2") [] [TextNode (js "Pricing")]))
  = Some [js "pricing"; js "pricing-1"; js "pricing-2"].
Proof.
  destruct (proj1 toc_ids_unique
              (replicate 3 (Element (js "H2") [] [TextNode (js "Pricing")])))
    as (ids & Hrun & _ & _ & _ & _ & Hsame).
  rewrite Hrun. cbn [fmap option_fmap option_map fst]. f_equal.
  rewrite (Hsame (js "Pricing")).
  - vm_compute. reflexivity.
  - vm_compute. reflexivity.
  - repeat constructor.
Defined.

Lemma absent_id_not_found_witness :
  initReport
    (example_world (Some (js "does-not-exist")) None None (answer status_404))
    (start empty_page)
  = (Fulfilled tt,
     mkSys (error_page
              (example_world (Some (js "does-not-exist")) None None (answer status_404))
              (js "Report not found") empty_page)
           [got_item; ReadReportsData; Fetch (index_url 1700000000000)]).
Proof.
  apply (absent_id_not_found
           (example_world (Some (js "does-not-exist")) None None (answer status_404))
           (js "does-not-exist") [] status_404 empty_page);
    try reflexivity.
  left. reflexivity.
Defined.

Lemma engine_output_installed_witness :
  innerHTML
    (page (renderMarkdown (example_world None None None offline)
             (js "<img src=x onerror=alert(1)>") (start empty_page)).2)
  = js "<img src=x onerror=alert(1)>"
  /\ contentNodes
       (page (renderMarkdown (example_world None None None offline)
                (js "<img src=x onerror=alert(1)>") (start empty_page)).2)
     = [Element (js "IMG") [] [TextNode []]].
Proof.
  destruct (engine_output_installed (example_world None None None offline) line_engine
              (js "<img src=x onerror=alert(1)>") (js "<img src=x onerror=alert(1)>")
              (start empty_page) eq_refl eq_refl) as [Hhtml Hnodes].
  split; [exact Hhtml|]. rewrite Hnodes. vm_compute. reflexivity.
Defined.

Lemma inline_content_not_fetched_witness :
  List.filter is_fetch
    (events (initReport
               (example_world (Some (js "abc")) (Some (Reports [report_abc])) None offline)
               (start empty_page)).2)
  = []
  /\ initReport
       (example_world (Some (js "xyz")) (Some (Reports [report_linked])) None
          (answer status_404))
       (start empty_page)
     = (Fulfilled tt,
        mkSys (error_page
                 (example_world (Some (js "xyz")) (Some (Reports [report_linked])) None
                    (answer status_404))
                 (js "Bummer! Failed to load report. Please refresh and try again.")
                 (set_metadata report_linked empty_page))
              [got_item; Fetch (js "data/reports/xyz.md");
               ConsoleError (js "Failed to load report:")
                 (Error (js "Unable to load report content"))]).
Proof.
  split.
  - destruct (inline_content_not_fetched
                (example_world (Some (js "abc")) (Some (Reports [report_abc])) None offline)
                (js "abc") report_abc (start empty_page) (mkSys empty_page [got_item])
                eq_refl eq_refl eq_refl) as (Hinline & _ & _).
    destruct (Hinline (js "# Market Overview") eq_refl eq_refl) as (_ & Hquiet & _).
    exact Hquiet.
  - destruct (inline_content_not_fetched
                (example_world (Some (js "xyz")) (Some (Reports [report_linked])) None
                   (answer status_404))
                (js "xyz") report_linked (start empty_page) (mkSys empty_page [got_item])
                eq_refl eq_refl eq_refl) as (_ & _ & Hrefused).
    exact (Hrefused eq_refl status_404 eq_refl eq_refl).
Defined.


Lemma one_active_entry_witness :
  (active_count empty_page <= 1)%nat
  /\ (active_count
        (foldl dispatch
           (page (initReport (example_world None None None offline) (start empty_page)).2)
           [Click 3; Intersect [(1%nat, true); (5%nat, true); (2%nat, false)]; Click 0])
      <= 1)%nat.
Proof.
  assert (Hstart : (active_count empty_page <= 1)%nat) by (vm_compute; lia).
  split; [exact Hstart|].
  exact (proj1 (one_active_entry (example_world None None None offline) empty_page
                  [Click 3; Intersect [(1%nat, true); (5%nat, true); (2%nat, false)]; Click 0]
                  Hstart)).
Defined.

Lemma render_twice_same_toc_witness :
  toc (page (renderMarkdown (example_world None None None offline) sampleMarkdown
               (renderMarkdown (example_world None None None offline) sampleMarkdown
                  (start empty_page)).2).2)
  = toc (page (renderMarkdown (example_world None None None offline) sampleMarkdown
                 (start empty_page)).2).
Proof.
  destruct (render_twice_same_toc (example_world None None None offline) sampleMarkdown
              (start empty_page)) as (_ & _ & _ & Hsame).
  exact (proj1 (Hsame line_engine _ eq_refl eq_refl)).
Defined.

(** * Further properties of the viewer *)

(** ** Shape of slugs and identifiers *)

Lemma replace_runs_Forall (P : N -> Prop) (p : N -> bool) (rep : N) (s : jsstring) :
  P rep -> Forall P s -> Forall P (replace_runs p rep s).
Proof.
  intros Hrep. induction 1 as [|c r Hc Hr IH]; [constructor|].
  rewrite replace_runs_cons. destruct (p c).
  - destruct r as [|c' r']; [now repeat constructor|].
    destruct (p c'); [exact IH | now constructor].
  - now constructor.
Qed.

Lemma drop_leading_suffix (p : N -> bool) (s : jsstring) :
  exists t, s = t ++ drop_leading p s /\ forallb p t = true.
Proof.
  induction s as [|c r (t & E & Ht)]; [now exists []|].
  cbn [drop_leading]. destruct (p c) eqn:Hc.
  - exists (c :: t). cbn. now rewrite Hc, Ht, <- E.
  - now exists [].
Qed.

Lemma drop_leading_Forall (P : N -> Prop) (p : N -> bool) (s : jsstring) :
  Forall P s -> Forall P (drop_leading p s).
Proof.
  destruct (drop_leading_suffix p s) as (t & E & _). intros Hs.
  rewrite E in Hs. now apply Forall_app in Hs as [_ Hs].
Qed.

Lemma drop_trailing_Forall (P : N -> Prop) (p : N -> bool) (s : jsstring) :
  Forall P s -> Forall P (drop_trailing p s).
Proof.
  destruct (drop_trailing_split p s) as (t & E & _). intros Hs.
  rewrite E in Hs. now apply Forall_app in Hs as [Hs _].
Qed.

Lemma strip_unsafe_units (s : jsstring) :
  Forall (fun c => is_slug_unit c = true) (strip_unsafe s).
Proof.
  apply Forall_forall. intros c Hc. unfold strip_unsafe in Hc.
  now apply list_elem_of_filter in Hc as [Hc _].
Qed.

Lemma after_trim_units (s : jsstring) :
  Forall (fun c => is_slug_unit c = true) (after_trim s).
Proof.
  unfold after_trim, trim_hyphens, collapse_hyphens.
  apply drop_trailing_Forall, drop_leading_Forall, replace_runs_Forall;
    [reflexivity | apply strip_unsafe_units].
Qed.

Lemma digits_units (d : Decimal.uint) :
  Forall (fun c => is_slug_unit c = true) (digits d).
Proof. induction d; cbn [digits]; constructor; trivial. Qed.

Lemma candidate_units (slug : jsstring) (n : nat) :
  Forall (fun c => is_slug_unit c = true) slug ->
  Forall (fun c => is_slug_unit c = true) (candidate slug n).
Proof.
  intros Hslug. destruct n as [|n]; [exact Hslug|]. cbn [candidate].
  apply Forall_app. split; [exact Hslug|]. constructor; [reflexivity|apply digits_units].
Qed.

Lemma heading_slug_units `{CaseMapping} (header : Node) (index : nat) :
  Forall (fun c => is_slug_unit c = true) (heading_slug header index).
Proof.
  unfold heading_slug, slug_or_fallback.
  destruct (slugify (textContent header)) as [|c r] eqn:E.
  - apply Forall_app. split; [|apply digits_units].
    apply Forall_forall. intros c Hc. vm_compute in Hc.
    repeat (apply elem_of_cons in Hc as [->|Hc]; [reflexivity|]).
    now apply elem_of_nil in Hc.
  - rewrite <- E. apply after_trim_units.
Qed.

(** X1. A slug, and every identifier [generateTOC] gives to a heading
    (slug, fallback or suffixed), is made of word characters, hyphens and
    units of U+4E00..U+9FA5 only: no whitespace, quote, bracket or [#] can
    occur in an id or in the [href] selector built from it. *)
Theorem ids_use_slug_units `{CaseMapping} :
  (forall text, Forall (fun c => is_slug_unit c = true) (slugify text))
  /\ (forall headers new links,
        build_toc headers = Some (new, links) ->
        Forall (fun id => Forall (fun c => is_slug_unit c = true) id) new).
Proof.
  split; [intros text; apply after_trim_units|].
  intros headers new links Hrun.
  destruct (build_toc_spec headers) as (new' & Hrun' & Hlen & _ & _ & Hrule).
  assert (new' = new) as -> by congruence.
  apply Forall_lookup. intros k id Hk.
  destruct (headers !! k) as [h|] eqn:Hh.
  - destruct (Hrule k h id Hh Hk) as (n & -> & _). apply candidate_units, heading_slug_units.
  - apply lookup_ge_None in Hh. apply lookup_lt_Some in Hk. lia.
Qed.

Lemma adjacent_cons (p : N -> bool) (c c' : N) (r : jsstring) :
  adjacent p (c :: c' :: r) = (p c && p c') || adjacent p (c' :: r).
Proof. reflexivity. Qed.

Lemma replace_runs_head (p : N -> bool) (rep : N) (s : jsstring) :
  p rep = true -> starts_in p (replace_runs p rep s) = starts_in p s.
Proof.
  intros Hrep. induction s as [|c r IH]; [reflexivity|].
  rewrite replace_runs_cons. cbn [starts_in]. destruct (p c) eqn:Hc.
  - destruct r as [|c' r']; [exact Hrep|].
    destruct (p c') eqn:Hc'; [|exact Hrep].
    rewrite IH. exact Hc'.
  - exact Hc.
Qed.

Lemma replace_runs_no_adjacent (p : N -> bool) (rep : N) (s : jsstring) :
  p rep = true -> adjacent p (replace_runs p rep s) = false.
Proof.
  intros Hrep. induction s as [|c r IH]; [reflexivity|].
  rewrite replace_runs_cons. destruct (p c) eqn:Hc.
  - destruct r as [|c' r']; [reflexivity|].
    destruct (p c') eqn:Hc'; [exact IH|].
    pose proof (replace_runs_head p rep (c' :: r') Hrep) as Hhead.
    cbn [starts_in] in Hhead. rewrite Hc' in Hhead.
    destruct (replace_runs p rep (c' :: r')) as [|x y]; [reflexivity|].
    rewrite adjacent_cons, IH. cbn [starts_in] in Hhead. now rewrite Hhead, andb_false_r.
  - destruct (replace_runs p rep r) as [|x y]; [reflexivity|].
    now rewrite adjacent_cons, IH, Hc.
Qed.

Lemma adjacent_app_r (p : N -> bool) (t s : jsstring) :
  adjacent p (t ++ s) = false -> adjacent p s = false.
Proof.
  induction t as [|c t IH]; [auto|]. intros Hts. apply IH.
  change ((c :: t) ++ s) with (c :: (t ++ s)) in Hts.
  destruct (t ++ s) as [|c' r]; [reflexivity|].
  rewrite adjacent_cons in Hts. now apply orb_false_elim in Hts as [_ Hts].
Qed.

Lemma adjacent_app_l (p : N -> bool) (s t : jsstring) :
  adjacent p (s ++ t) = false -> adjacent p s = false.
Proof.
  induction s as [|c s IH]; [reflexivity|]. intros Hst.
  destruct s as [|c' r]; [reflexivity|].
  change ((c :: c' :: r) ++ t) with (c :: c' :: (r ++ t)) in Hst.
  rewrite adjacent_cons in Hst. apply orb_false_elim in Hst as [Hcc Hst].
  rewrite adjacent_cons, Hcc. now apply IH.
Qed.

Lemma drop_leading_head (p : N -> bool) (s : jsstring) :
  starts_in p (drop_leading p s) = false.
Proof.
  induction s as [|c r IH]; [reflexivity|]. cbn [drop_leading].
  destruct (p c) eqn:Hc; [exact IH|]. exact Hc.
Qed.

Lemma drop_trailing_head (p : N -> bool) (s : jsstring) :
  starts_in p s = false -> starts_in p (drop_trailing p s) = false.
Proof.
  destruct s as [|c r]; [auto|]. cbn [starts_in drop_trailing]. intros Hc.
  destruct (drop_trailing p r); [now rewrite Hc|exact Hc].
Qed.

Lemma drop_trailing_last (p : N -> bool) (s : jsstring) :
  ends_in p (drop_trailing p s) = false.
Proof.
  unfold ends_in. induction s as [|c r IH]; [reflexivity|]. cbn [drop_trailing].
  destruct (drop_trailing p r) as [|x y] eqn:E.
  - destruct (p c) eqn:Hc; [reflexivity|]. cbn. exact Hc.
  - change (c :: x :: y) with ([c] ++ (x :: y)). rewrite rev_app_distr.
    destruct (rev (x :: y)) as [|z u] eqn:Er; [|exact IH].
    apply (f_equal (@length N)) in Er. rewrite length_rev in Er. discriminate.
Qed.

(** X2. A slug never begins or ends with a hyphen and never has two
    hyphens in a row, whatever the heading text. *)
Theorem slug_hyphen_shape `{CaseMapping} (text : jsstring) :
  starts_in is_hyphen (slugify text) = false
  /\ ends_in is_hyphen (slugify text) = false
  /\ adjacent is_hyphen (slugify text) = false.
Proof.
  unfold slugify, trim_hyphens, collapse_hyphens.
  set (z := strip_unsafe (hyphenate_spaces (trim (toLowerCase text)))).
  split; [|split].
  - apply drop_trailing_head, drop_leading_head.
  - apply drop_trailing_last.
  - pose proof (replace_runs_no_adjacent is_hyphen hyphen z eq_refl) as Hno.
    destruct (drop_leading_suffix is_hyphen (replace_runs is_hyphen hyphen z))
      as (t & E & _).
    rewrite E in Hno. apply adjacent_app_r in Hno.
    destruct (drop_trailing_split is_hyphen
                (drop_leading is_hyphen (replace_runs is_hyphen hyphen z)))
      as (u & E' & _).
    rewrite E' in Hno. now apply adjacent_app_l in Hno.
Qed.

Lemma ids_use_slug_units_witness :
  Forall (fun id => Forall (fun c => is_slug_unit c = true) id)
    [js "a-b"; js "a-b-1"; js "heading-2"].
Proof.
  apply (proj2 ids_use_slug_units
           [Element (js "H1") [] [TextNode (js "A & b")];
            Element (js "H2") [] [TextNode (js "a  B!")];
            Element (js "H2") [] [TextNode (js "(?)")]]
           [js "a-b"; js "a-b-1"; js "heading-2"]
           (links_for
              [Element (js "H1") [] [TextNode (js "A & b")];
               Element (js "H2") [] [TextNode (js "a  B!")];
               Element (js "H2") [] [TextNode (js "(?)")]] 0
              [js "a-b"; js "a-b-1"; js "heading-2"])).
  vm_compute. reflexivity.
Defined.

(** ** Anchors, clicks and the scroll spy *)

Lemma remove_after_add (a : TocLink) :
  classList_remove active (classList_add active a) = classList_remove active a.
Proof.
  unfold classList_remove, classList_add. cbn [href link_text link_classes link_target].
  f_equal. case_bool_decide; [reflexivity|].
  rewrite filter_app, filter_cons_False, filter_nil, app_nil_r; [reflexivity|].
  intros Hne. now apply Hne.
Qed.

Lemma remove_twice (a : TocLink) :
  classList_remove active (classList_remove active a) = classList_remove active a.
Proof.
  unfold classList_remove. cbn [href link_text link_classes link_target].
  f_equal. induction (link_classes a) as [|c l IH]; [reflexivity|].
  rewrite filter_cons. case_decide as Hc.
  - rewrite filter_cons_True by exact Hc. now rewrite IH.
  - exact IH.
Qed.

(** The later of two activations is the one that counts. *)
Lemma updateActiveLink_twice (k1 k2 : nat) (p : Page) :
  updateActiveLink k2 (updateActiveLink k1 p) = updateActiveLink k2 p.
Proof.
  unfold updateActiveLink, set_links, set_toc.
  cbn [innerHTML contentNodes heading_ids toc observed reportTitle reportDate
       breadcrumbTitle document_title].
  f_equal. f_equal.
  rewrite (list_fmap_alter (classList_remove active) (classList_add active) id)
    by (apply Forall_true; intros a; apply remove_after_add).
  rewrite list_alter_id by reflexivity.
  rewrite <- list_fmap_compose. apply list_fmap_ext. intros i a _. apply remove_twice.
Qed.

Lemma href_updateActiveLink (k : nat) (p : Page) :
  href <$> toc (updateActiveLink k p) = href <$> toc p.
Proof.
  unfold updateActiveLink. cbn [toc set_links set_toc].
  rewrite (list_fmap_alter href (classList_add active) id)
    by (apply Forall_true; reflexivity).
  rewrite list_alter_id by reflexivity.
  rewrite <- list_fmap_compose. now apply list_fmap_ext.
Qed.

Lemma nav_ok_updateActiveLink (k : nat) (p : Page) :
  nav_ok p -> nav_ok (updateActiveLink k p).
Proof.
  intros (Hnd & Hhref & Hobs). unfold nav_ok.
  rewrite href_updateActiveLink. now repeat split.
Qed.

Lemma length_toc_nav_ok (p : Page) : nav_ok p -> length (toc p) = length (heading_ids p).
Proof.
  intros (_ & Hhref & _). apply (f_equal length) in Hhref.
  now rewrite !length_fmap in Hhref.
Qed.

Lemma find_link_own (p : Page) (k : nat) (id : jsstring) :
  nav_ok p -> heading_ids p !! k = Some id -> find_link (35 :: id) (toc p) = Some k.
Proof.
  intros (Hnd & Hhref & _) Hk. unfold find_link.
  assert (Hk' : (href <$> toc p) !! k = Some (35 :: id)).
  { now rewrite Hhref, list_lookup_fmap, Hk. }
  rewrite list_lookup_fmap in Hk'.
  destruct (toc p !! k) as [a|] eqn:Ha; [|discriminate]. injection Hk' as Hhk.
  assert (E : list_find (fun x => href x = 35 :: id) (toc p) = Some (k, a)).
  { apply list_find_Some. split; [exact Ha|]. split; [exact Hhk|].
    intros j y Hj Hlt Hy.
    assert (Hj' : (cons 35 <$> heading_ids p) !! j = Some (35 :: id)).
    { now rewrite <- Hhref, list_lookup_fmap, Hj, <- Hy. }
    rewrite list_lookup_fmap in Hj'.
    destruct (heading_ids p !! j) as [id'|] eqn:Hid'; [|discriminate].
    injection Hj' as ->.
    pose proof (NoDup_lookup _ _ _ _ Hnd Hid' Hk). lia. }
  now rewrite E.
Qed.

Lemma on_entry_hit (p : Page) (k : nat) :
  nav_ok p -> (k < length (heading_ids p))%nat ->
  on_entry p (k, true) = updateActiveLink k p.
Proof.
  intros Hok Hk. unfold on_entry. cbn [fst snd].
  destruct Hok as (Hnd & Hhref & Hobs).
  rewrite bool_decide_eq_true_2 by (rewrite Hobs; apply elem_of_seq; lia).
  cbn [andb].
  destruct (heading_ids p !! k) as [id|] eqn:Hid.
  - now rewrite (find_link_own p k id (conj Hnd (conj Hhref Hobs)) Hid).
  - apply lookup_ge_None in Hid. lia.
Qed.

Lemma on_entry_miss (p : Page) (k : nat) (b : bool) :
  nav_ok p -> (k <? length (heading_ids p))%nat && b = false -> on_entry p (k, b) = p.
Proof.
  intros (_ & _ & Hobs) Hmiss. unfold on_entry. cbn [fst snd].
  destruct b; [|now rewrite andb_false_r].
  rewrite andb_true_r in Hmiss. apply Nat.ltb_ge in Hmiss.
  rewrite bool_decide_eq_false_2; [reflexivity|].
  rewrite Hobs, elem_of_seq. lia.
Qed.

Lemma intersect_last_hit (p : Page) (entries : list (nat * bool)) :
  nav_ok p ->
  dispatch p (Intersect entries)
  = match last_hit (length (heading_ids p)) entries with
    | Some k => updateActiveLink k p
    | None => p
    end.
Proof.
  cbn [dispatch]. revert p. induction entries as [|[k b] es IH]; intros p Hok; [reflexivity|].
  cbn [foldl]. unfold last_hit. cbn [List.filter fst snd].
  destruct ((k <? length (heading_ids p))%nat && b) eqn:Hhit.
  - apply andb_prop in Hhit as [Hk ->]. apply Nat.ltb_lt in Hk.
    rewrite (on_entry_hit p k Hok Hk).
    rewrite (IH _ (nav_ok_updateActiveLink k p Hok)).
    change (heading_ids (updateActiveLink k p)) with (heading_ids p).
    unfold last_hit. cbn [fmap list_fmap fst].
    destruct (fst <$> List.filter
                (fun e => (e.1 <? length (heading_ids p))%nat && e.2) es)
      as [|k' ks] eqn:E.
    + reflexivity.
    + rewrite last_cons_cons.
      destruct (last (k' :: ks)) as [k2|] eqn:El.
      * apply updateActiveLink_twice.
      * now apply last_None in El.
  - rewrite (on_entry_miss p k b Hok Hhit). apply (IH p Hok).
Qed.

Lemma alter_active_one (f : TocLink -> TocLink) (l : list TocLink) :
  Forall (fun a => is_active a = false) l ->
  (forall a, is_active (f a) = true) ->
  forall k, (k < length l)%nat ->
            length (filter (fun a => is_active a = true) (alter f k l)) = 1%nat.
Proof.
  intros Hl Hf. induction Hl as [|a l Ha Hl IH]; intros k Hk; [cbn in Hk; lia|].
  destruct k as [|k]; cbn [alter list_alter].
  - rewrite filter_cons_True by apply Hf. now rewrite (filter_inactive l Hl).
  - rewrite filter_cons_False by now rewrite Ha. apply IH. cbn in Hk. lia.
Qed.

Lemma updateActiveLink_one (k : nat) (p : Page) :
  (k < length (toc p))%nat -> active_count (updateActiveLink k p) = 1%nat.
Proof.
  intros Hk. unfold active_count, updateActiveLink. cbn [toc set_links set_toc].
  apply alter_active_one; [apply all_removed | apply is_active_add |].
  now rewrite length_fmap.
Qed.

Lemma last_hit_bound (n : nat) (entries : list (nat * bool)) (k : nat) :
  last_hit n entries = Some k -> (k < n)%nat.
Proof.
  unfold last_hit. intros Hlast. apply last_Some_elem_of in Hlast.
  apply list_elem_of_fmap in Hlast as ([k' b] & -> & Hin).
  apply list_elem_of_In, List.filter_In in Hin as [_ Hin].
  apply andb_prop in Hin as [Hin _]. now apply Nat.ltb_lt in Hin.
Qed.

Lemma dispatch_keeps_one (p : Page) (ev : UiEvent) :
  nav_ok p -> active_count p = 1%nat ->
  nav_ok (dispatch p ev) /\ active_count (dispatch p ev) = 1%nat.
Proof.
  intros Hok Hone. destruct ev as [k|entries].
  - cbn [dispatch]. destruct (toc p !! k) as [a|] eqn:Ha; [|now split].
    split; [now apply nav_ok_updateActiveLink|].
    apply updateActiveLink_one. now apply lookup_lt_Some in Ha.
  - rewrite (intersect_last_hit p entries Hok).
    destruct (last_hit (length (heading_ids p)) entries) as [k|] eqn:Hlast; [|now split].
    split; [now apply nav_ok_updateActiveLink|].
    apply updateActiveLink_one. rewrite (length_toc_nav_ok p Hok).
    now apply last_hit_bound in Hlast.
Qed.

Section AnchorFacts.
Context `{CaseMapping}.

Lemma lookup_links_for (headers : list Node) :
  forall index new k header id,
    headers !! k = Some header -> new !! k = Some id ->
    links_for headers index new !! k = Some (toc_link header (index + k) id).
Proof.
  induction headers as [|h hs IH]; intros index [|i new] [|k] header id Hh Hid;
    cbn in Hh, Hid; try discriminate.
  - injection Hh as <-. injection Hid as <-. cbn. now rewrite Nat.add_0_r.
  - cbn [links_for]. rewrite Nat.add_succ_r.
    exact (IH (S index) new k header id Hh Hid).
Qed.

Lemma href_links_for (headers : list Node) :
  forall index new, length new = length headers ->
                    href <$> links_for headers index new = cons 35 <$> new.
Proof.
  induction headers as [|h hs IH]; intros index [|id new] E; cbn in E;
    try discriminate; [reflexivity|].
  cbn [links_for]. cbn. f_equal. apply IH. lia.
Qed.

Variable w : World.

Lemma rendered_page_nav_ok (html : jsstring) (new : list jsstring) (p : Page) :
  NoDup new ->
  length new = length (querySelectorAll_headings (rendered_nodes w html)) ->
  nav_ok (rendered_page w html new p).
Proof.
  intros Hnd Hlen. unfold nav_ok.
  rewrite heading_ids_rendered_page, toc_rendered_page.
  split; [exact Hnd|]. split.
  - rewrite <- (href_links_for _ 0 new Hlen).
    now destruct (links_for _ 0 new).
  - unfold rendered_page, activate_first.
    cbn [toc setupScrollSpy set_observed set_toc contentNodes set_nodes].
    rewrite Hlen. now destruct (links_for _ 0 new).
Qed.

(** The page after a render for which the engine returned markup. *)
Lemma renderMarkdown_nav (engine : MarkedOptions -> jsstring -> Exn + jsstring)
    (md html : jsstring) (s : Sys) :
  marked w = Some engine -> engine marked_options md = inr html ->
  exists new,
    length new = length (querySelectorAll_headings (rendered_nodes w html))
    /\ NoDup new
    /\ page (renderMarkdown w md s).2 = rendered_page w html new (page s).
Proof.
  intros E1 E2.
  destruct (renderMarkdown_ok w engine md html s E1 E2) as (new & Hbuild & Hlen & ->).
  destruct (build_toc_spec (querySelectorAll_headings (rendered_nodes w html)))
    as (new' & Hbuild' & _ & Hnd & _).
  assert (new' = new) as -> by congruence.
  now exists new.
Qed.
End AnchorFacts.

(** X3. After a render for which the engine returned markup, the table
    of contents has one anchor for each h1..h4 of the container, in document
    order; the k-th anchor carries the text of the k-th heading, its [href]
    is [#] followed by the id written on that heading, and no two anchors
    share an [href]. *)
Theorem anchors_mirror_headings `{CaseMapping} (w : World)
    (engine : MarkedOptions -> jsstring -> Exn + jsstring)
    (markdownContent html : jsstring) (s : Sys) :
  marked w = Some engine -> engine marked_options markdownContent = inr html ->
  let p := page (renderMarkdown w markdownContent s).2 in
  let headers := querySelectorAll_headings (rendered_nodes w html) in
  length (toc p) = length headers
  /\ length (heading_ids p) = length headers
  /\ NoDup (href <$> toc p)
  /\ forall k header,
       headers !! k = Some header ->
       exists a id,
         toc p !! k = Some a /\ heading_ids p !! k = Some id
         /\ href a = 35 :: id
         /\ link_text a = textContent header
         /\ link_target a = k.
Proof.
  intros E1 E2. cbn zeta.
  destruct (renderMarkdown_nav w engine markdownContent html s E1 E2)
    as (new & Hlen & Hnd & ->).
  pose proof (rendered_page_nav_ok w html new (page s) Hnd Hlen) as Hok.
  pose proof (length_toc_nav_ok _ Hok) as Hlt.
  destruct Hok as (_ & Hhref & _).
  rewrite heading_ids_rendered_page in *.
  split; [congruence|]. split; [exact Hlen|]. split.
  - rewrite Hhref. apply (NoDup_fmap_2 (cons 35)). exact Hnd.
  - intros k header Hh.
    destruct (new !! k) as [id|] eqn:Hid.
    2:{ apply lookup_ge_None in Hid. apply lookup_lt_Some in Hh. lia. }
    pose proof (lookup_links_for _ 0 new k header id Hh Hid) as Hlink.
    rewrite toc_rendered_page.
    destruct (links_for (querySelectorAll_headings (rendered_nodes w html)) 0 new)
      as [|a rest]; [discriminate|].
    destruct k as [|k].
    + injection Hlink as ->. eexists _, id. split; [reflexivity|].
      split; [reflexivity|]. now repeat split.
    + cbn in Hlink |- *. rewrite Hlink. eexists _, id. split; [reflexivity|].
      split; [reflexivity|]. now repeat split.
Qed.

(** X5. Once a render has produced at least one heading, exactly one
    anchor is active, and this stays so through every sequence of clicks
    and observer callbacks. *)
Theorem exactly_one_active `{CaseMapping} (w : World)
    (engine : MarkedOptions -> jsstring -> Exn + jsstring)
    (markdownContent html : jsstring) (s : Sys) (evs : list UiEvent) :
  marked w = Some engine -> engine marked_options markdownContent = inr html ->
  querySelectorAll_headings (rendered_nodes w html) <> [] ->
  active_count (foldl dispatch (page (renderMarkdown w markdownContent s).2) evs) = 1%nat.
Proof.
  intros E1 E2 Hne.
  destruct (renderMarkdown_nav w engine markdownContent html s E1 E2)
    as (new & Hlen & Hnd & ->).
  pose proof (rendered_page_nav_ok w html new (page s) Hnd Hlen) as Hok.
  assert (Hone : active_count (rendered_page w html new (page s)) = 1%nat).
  { unfold active_count. rewrite toc_rendered_page.
    pose proof (links_for_inactive (querySelectorAll_headings (rendered_nodes w html)) 0 new)
      as Hall.
    pose proof (length_links_for (querySelectorAll_headings (rendered_nodes w html)) 0 new
                  Hlen) as Hlinks.
    destruct (links_for _ 0 new) as [|a rest].
    - destruct (querySelectorAll_headings (rendered_nodes w html)); [contradiction|discriminate].
    - apply Forall_cons in Hall as [_ Hrest].
      rewrite filter_cons_True by apply is_active_add.
      now rewrite (filter_inactive rest Hrest). }
  revert Hok Hone. generalize (rendered_page w html new (page s)) as p.
  induction evs as [|ev evs IH]; intros p Hok Hone; [exact Hone|].
  cbn [foldl]. destruct (dispatch_keeps_one p ev Hok Hone) as [Hok' Hone'].
  now apply IH.
Qed.

(** X4. After a render, an observer callback activates the anchor of
    the last heading in its batch that intersects, whatever came before in
    the batch, and leaves no other anchor active; a batch without an
    intersecting heading changes nothing. *)
Theorem last_intersection_decides (p : Page) (entries : list (nat * bool)) :
  nav_ok p ->
  match last_hit (length (heading_ids p)) entries with
  | Some k =>
      dispatch p (Intersect entries) = updateActiveLink k p
      /\ (k < length (toc p))%nat
      /\ forall j a, toc (dispatch p (Intersect entries)) !! j = Some a ->
                     (is_active a = true <-> j = k)
  | None => dispatch p (Intersect entries) = p
  end.
Proof.
  intros Hok. rewrite (intersect_last_hit p entries Hok).
  destruct (last_hit (length (heading_ids p)) entries) as [k|] eqn:Hlast; [|reflexivity].
  split; [reflexivity|].
  apply last_hit_bound in Hlast. rewrite <- (length_toc_nav_ok p Hok) in Hlast.
  split; [exact Hlast|].
  intros j a Hj. split; [now apply (updateActiveLink_only k p)|].
  intros ->. unfold updateActiveLink in Hj. cbn [toc set_links set_toc] in Hj.
  rewrite list_lookup_alter_eq, list_lookup_fmap in Hj.
  destruct (toc p !! k) as [b|]; [|discriminate].
  injection Hj as <-. apply is_active_add.
Qed.

Lemma anchors_mirror_headings_witness :
  length (toc (page (renderMarkdown (example_world None None None offline) sampleMarkdown
                       (start empty_page)).2))
  = 11%nat.
Proof.
  destruct (anchors_mirror_headings (example_world None None None offline) line_engine
              sampleMarkdown _ (start empty_page) eq_refl eq_refl) as (Hlen & _).
  rewrite Hlen. vm_compute. reflexivity.
Defined.

Lemma last_intersection_decides_witness :
  dispatch
    (page (renderMarkdown (example_world None None None offline)
             (unlines [js "# A"; js "## B"; js "## C"]) (start empty_page)).2)
    (Intersect [(1%nat, true); (7%nat, true); (2%nat, true); (0%nat, false)])
  = updateActiveLink 2
      (page (renderMarkdown (example_world None None None offline)
               (unlines [js "# A"; js "## B"; js "## C"]) (start empty_page)).2).
Proof.
  assert (Hok : nav_ok
                  (page (renderMarkdown (example_world None None None offline)
                           (unlines [js "# A"; js "## B"; js "## C"])
                           (start empty_page)).2)).
  { apply (bool_decide_unpack _). vm_compute. reflexivity. }
  exact (proj1 (last_intersection_decides _
                  [(1%nat, true); (7%nat, true); (2%nat, true); (0%nat, false)] Hok)).
Defined.

Lemma exactly_one_active_witness :
  active_count
    (foldl dispatch
       (page (renderMarkdown (example_world None None None offline) sampleMarkdown
                (start empty_page)).2)
       [Click 4; Intersect [(2%nat, true); (3%nat, true)]; Click 40; Intersect []])
  = 1%nat.
Proof.
  apply (exactly_one_active (example_world None None None offline) line_engine
           sampleMarkdown _ (start empty_page) _ eq_refl eq_refl).
  vm_compute. discriminate.
Defined.

(** ** Requests and outcomes of [initReport] *)

Section Counting.
Variable f : Event -> bool.

Lemma eam_weaken {A} (n n' : nat) (m : Async A) :
  (n <= n')%nat -> emits_at_most f n m -> emits_at_most f n' m.
Proof. intros Hn Hm s. destruct (Hm s) as (tail & E & Hc). exists tail. split; [exact E|lia]. Qed.

Lemma eam_silent {A} (m : Async A) :
  (forall s, events (m s).2 = events s) -> emits_at_most f 0 m.
Proof. intros Hm s. exists []. rewrite app_nil_r. split; [apply Hm|reflexivity]. Qed.

Lemma eam_emit (ev : Event) : emits_at_most f (if f ev then 1 else 0) (emit ev).
Proof.
  intros s. exists [ev]. split; [reflexivity|].
  unfold count_events. cbn [List.filter]. destruct (f ev); reflexivity.
Qed.

Lemma eam_bind {A B} (n k : nat) (m : Async A) (c : A -> Async B) :
  emits_at_most f n m -> (forall a, emits_at_most f k (c a)) ->
  emits_at_most f (n + k) (m ≫= c).
Proof.
  intros Hm Hc s. rewrite bind_run. destruct (Hm s) as (t1 & E1 & H1).
  destruct (m s) as [[a|e|] s'] eqn:Hms; cbn [snd] in E1.
  - destruct (Hc a s') as (t2 & E2 & H2). exists (t1 ++ t2).
    rewrite E2, E1, <- app_assoc. split; [reflexivity|].
    unfold count_events in *. rewrite List.filter_app, length_app. lia.
  - exists t1. split; [exact E1|lia].
  - exists t1. split; [exact E1|lia].
Qed.

Lemma eam_try_catch {A} (n k : nat) (body : Async A) (h : Exn -> Async A) :
  emits_at_most f n body -> (forall e, emits_at_most f k (h e)) ->
  emits_at_most f (n + k) (try_catch body h).
Proof.
  intros Hm Hh s. unfold try_catch. destruct (Hm s) as (t1 & E1 & H1).
  destruct (body s) as [[a|e|] s'] eqn:Hms; cbn [snd] in E1.
  - exists t1. split; [exact E1|lia].
  - destruct (Hh e s') as (t2 & E2 & H2). exists (t1 ++ t2).
    rewrite E2, E1, <- app_assoc. split; [reflexivity|].
    unfold count_events in *. rewrite List.filter_app, length_app. lia.
  - exists t1. split; [exact E1|lia].
Qed.
End Counting.

Section RequestFacts.
Context `{CaseMapping}.
Variable w : World.

Lemma read_local_emits (f : Event -> bool) :
  emits_at_most f (if f got_item then 1 else 0) (read_local w).
Proof.
  unfold read_local.
  replace (if f got_item then 1 else 0)%nat with ((if f got_item then 1 else 0) + 0)%nat by lia.
  apply eam_bind; [apply eam_emit|].
  intros _. apply eam_silent. intros s. now destruct (my_reports w) as [[|l]|].
Qed.

Lemma do_fetch_emits (f : Event -> bool) (url : jsstring) :
  emits_at_most f (if f (Fetch url) then 1 else 0) (do_fetch w url).
Proof.
  unfold do_fetch.
  replace (if f (Fetch url) then 1 else 0)%nat
    with ((if f (Fetch url) then 1 else 0) + 0)%nat by lia.
  apply eam_bind; [apply eam_emit|].
  intros _. apply eam_silent. intros s. now destruct (fetch w url).
Qed.

Lemma find_in_sources_emits (f : Event -> bool) (reportId : jsstring) :
  emits_at_most f
    ((if f got_item then 1 else 0)
     + ((if f ReadReportsData then 1 else 0)
        + ((if f (Fetch (index_url (now w))) then 1 else 0) + 0)))
    (find_in_sources w reportId).
Proof.
  unfold find_in_sources. apply eam_bind; [apply read_local_emits|].
  intros localReports.
  destruct (find_report reportId _).
  { eapply eam_weaken; [|apply eam_silent; reflexivity]. lia. }
  apply eam_bind; [apply eam_emit|]. intros _.
  destruct (match reportsData w with Some _ => _ | None => _ end).
  { eapply eam_weaken; [|apply eam_silent; reflexivity]. lia. }
  apply eam_bind; [apply do_fetch_emits|]. intros resp.
  apply eam_silent. intros s.
  destruct (ok resp); [|reflexivity]. now destruct (json resp).
Qed.

Lemma load_content_emits (f : Event -> bool) (report : Report) :
  emits_at_most f (if f (Fetch (path_url (markdown_path report))) then 1 else 0)
    (load_content w report).
Proof.
  assert (Hfetch : emits_at_most f
                     (if f (Fetch (path_url (markdown_path report))) then 1 else 0)
                     (fetch_markdown w report)).
  { unfold fetch_markdown.
    replace (if f (Fetch (path_url (markdown_path report))) then 1 else 0)%nat
      with ((if f (Fetch (path_url (markdown_path report))) then 1 else 0) + 0)%nat by lia.
    apply eam_bind; [apply do_fetch_emits|]. intros resp.
    apply eam_silent. intros s.
    destruct (ok resp); [|reflexivity]. now destruct (text resp). }
  unfold load_content. destruct (report_content report) as [c|]; [|exact Hfetch].
  destruct (truthy c); [|exact Hfetch].
  eapply eam_weaken; [|apply eam_silent; reflexivity]. lia.
Qed.

Lemma renderMarkdown_emits (f : Event -> bool) (md : jsstring) :
  emits_at_most f 0 (renderMarkdown w md).
Proof. apply eam_silent. intros s. apply renderMarkdown_quiet. Qed.

Lemma initReport_emits (f : Event -> bool) (g1 g2 g3 g4 g5 : nat) :
  (forall key, (if f (GetItem key) then 1 else 0) <= g1)%nat ->
  ((if f ReadReportsData then 1 else 0) <= g2)%nat ->
  (forall url, (if f (Fetch url) then 1 else 0) <= g3)%nat ->
  (forall url, (if f (Fetch url) then 1 else 0) <= g4)%nat ->
  (forall label e, (if f (ConsoleError label e) then 1 else 0) <= g5)%nat ->
  emits_at_most f (g1 + (g2 + (g3 + 0)) + (0 + (g4 + 0)) + (g5 + 0)) (initReport w).
Proof.
  intros H1 H2 H3 H4 H5. unfold initReport, loadSampleMarkdown.
  assert (Hsample : emits_at_most f (g1 + (g2 + (g3 + 0)) + (0 + (g4 + 0)) + (g5 + 0))
                      (renderMarkdown w sampleMarkdown)).
  { eapply eam_weaken; [|apply renderMarkdown_emits]. lia. }
  destruct (search_id w) as [reportId|]; [|exact Hsample].
  destruct (negb (truthy reportId)); [exact Hsample|].
  apply eam_try_catch.
  - apply eam_bind.
    + eapply eam_weaken; [|apply find_in_sources_emits].
      specialize (H1 (js "my_reports")). specialize (H3 (index_url (now w))).
      unfold got_item. lia.
    + intros [report|].
      * unfold present_report. apply eam_bind; [apply eam_silent; reflexivity|].
        intros _. apply eam_bind.
        -- eapply eam_weaken; [|apply load_content_emits]. apply H4.
        -- intros md. apply renderMarkdown_emits.
      * eapply eam_weaken; [|apply eam_silent; reflexivity]. lia.
  - intros e. unfold on_failure. apply eam_bind.
    + eapply eam_weaken; [|apply eam_emit]. apply H5.
    + intros _. apply eam_silent. reflexivity.
Qed.
End RequestFacts.

(** X6. One run of [initReport] only appends to its log, and what it
    appends holds at most two requests (the index and the content; nothing
    is retried), at most one read of the local store, and at most one
    console error. *)
Theorem requests_are_bounded `{CaseMapping} (w : World) (s : Sys) :
  exists tail,
    events (initReport w s).2 = events s ++ tail
    /\ (count_events is_fetch tail <= 2)%nat
    /\ (count_events is_get_item tail <= 1)%nat
    /\ (count_events is_console_error tail <= 1)%nat.
Proof.
  destruct (initReport_emits w is_fetch 0 0 1 1 0) with (s := s) as (tail & E & Hf);
    try (intros; cbn; lia).
  destruct (initReport_emits w is_get_item 1 0 0 0 0) with (s := s) as (t2 & E2 & Hg);
    try (intros; cbn; lia).
  destruct (initReport_emits w is_console_error 0 0 0 0 1) with (s := s) as (t3 & E3 & Hc);
    try (intros; cbn; lia).
  rewrite E in E2, E3. apply app_inv_head in E2 as <-. apply app_inv_head in E3 as <-.
  exists tail. repeat split; [exact E|lia|lia|lia].
Qed.

Section Outcomes.
Context `{CaseMapping}.
Variable w : World.
















End Outcomes.


(** X8. The render of the sample is not inside the [try] block: without
    an identifier, an exception of the engine rejects the promise of
    [initReport] and leaves page and log as they were; with an identifier
    and a record with inline content, the same exception is caught, logged
    and turned into the failure view. *)
Theorem sample_render_unguarded `{CaseMapping} (w : World)
    (engine : MarkedOptions -> jsstring -> Exn + jsstring) (e : Exn) (s : Sys) :
  marked w = Some engine ->
  (truthy_opt (search_id w) = false ->
   engine marked_options sampleMarkdown = inl e ->
   initReport w s = (Rejected e, s))
  /\ (forall reportId report s1 c,
        search_id w = Some reportId -> truthy reportId = true ->
        find_in_sources w reportId s = (Fulfilled (Some report), s1) ->
        report_content report = Some c -> truthy c = true ->
        engine marked_options c = inl e ->
        initReport w s
        = (Fulfilled tt,
           mkSys (error_page w
                    (js "Bummer! Failed to load report. Please refresh and try again.")
                    (set_metadata report (page s1)))
                 (events s1 ++ [ConsoleError (js "Failed to load report:") e]))).
Proof.
  intros E1. split.
  - intros Hid E2. unfold initReport, loadSampleMarkdown, truthy_opt in *.
    destruct (search_id w) as [reportId|].
    + rewrite Hid. cbn [negb]. apply (renderMarkdown_thrown w engine _ e s E1 E2).
    + apply (renderMarkdown_thrown w engine _ e s E1 E2).
  - intros reportId report s1 c Hid Htruthy Hfind Hc Hne E2.
    rewrite (initReport_with_id w reportId s Hid Htruthy).
    rewrite (try_catch_bind_fulfilled _ _ _ _ _ _ Hfind), present_report_guarded.
    unfold try_catch. rewrite (load_inline w report c _ Hc Hne).
    rewrite (renderMarkdown_thrown w engine c e _ E1 E2), on_failure_run. reflexivity.
Qed.

(** X10. When the index cannot be used, because the request fails or
    because an [ok] response does not hold JSON, the run ends in the failure
    view with the error logged, not in the not-found view. *)
Theorem unusable_index_fails `{CaseMapping} (w : World) (reportId : jsstring)
    (l : list Report) (p : Page) :
  search_id w = Some reportId -> truthy reportId = true ->
  local_reports w = Some l -> find_report reportId l = None ->
  find_report reportId (global_reports w) = None ->
  (fetch w (index_url (now w)) = Failed
   \/ exists resp, fetch w (index_url (now w)) = Resolved resp
                   /\ ok resp = true /\ json resp = Failed) ->
  exists e,
    (e = NetworkError \/ e = SyntaxError)
    /\ initReport w (start p)
       = (Fulfilled tt,
          mkSys (error_page w
                   (js "Bummer! Failed to load report. Please refresh and try again.") p)
                [got_item; ReadReportsData; Fetch (index_url (now w));
                 ConsoleError (js "Failed to load report:") e]).
Proof.
  intros Hid Htruthy Hl Hnone Hglobal [Hnet|(resp & Hresp & Hok & Hjson)].
  - exists NetworkError. split; [now left|].
    now apply (offline_index_fails w reportId l p).
  - exists SyntaxError. split; [now right|].
    rewrite (initReport_with_id w reportId _ Hid Htruthy).
    pose proof (find_in_sources_remote w reportId l resp (start p) Hl Hnone Hglobal Hresp)
      as Hfind.
    rewrite Hok, Hjson in Hfind.
    now rewrite (try_catch_bind_rejected _ _ _ _ _ _ Hfind), on_failure_run.
Qed.


Example unanswered_index_keeps_loading :
  initReport (example_world (Some (js "abc")) None None silent) (start empty_page)
  = (Pending,
     mkSys empty_page
       [GetItem (js "my_reports"); ReadReportsData;
        Fetch (js "data/reports/index.json?v=1700000000000")]).
Proof. vm_compute. reflexivity. Qed.

Lemma sample_render_unguarded_witness :
  initReport (broken_world None None) (start empty_page) = (Rejected EngineError, start empty_page)
  /\ (initReport (broken_world (Some (js "abc")) (Some (Reports [report_abc])))
        (start empty_page)).1
     = Fulfilled tt.
Proof.
  split.
  - exact (proj1 (sample_render_unguarded (broken_world None None) failing_engine EngineError
                    (start empty_page) eq_refl) eq_refl eq_refl).
  - rewrite (proj2 (sample_render_unguarded
                      (broken_world (Some (js "abc")) (Some (Reports [report_abc])))
                      failing_engine EngineError (start empty_page) eq_refl)
               (js "abc") report_abc (mkSys empty_page [got_item]) (js "# Market Overview")
               eq_refl eq_refl eq_refl eq_refl eq_refl eq_refl).
    reflexivity.
Defined.

Lemma unreadable_store_fails_witness :
  initReport
    (example_world (Some (js "abc")) (Some Unparsable) (Some [report_abc]) offline)
    (start empty_page)
  = (Fulfilled tt,
     mkSys (error_page
              (example_world (Some (js "abc")) (Some Unparsable) (Some [report_abc]) offline)
              (js "Bummer! Failed to load report. Please refresh and try again.")
              empty_page)
           [got_item; ConsoleError (js "Failed to load report:") SyntaxError]).
Proof.
  exact (unreadable_store_fails
           (example_world (Some (js "abc")) (Some Unparsable) (Some [report_abc]) offline)
           (js "abc") empty_page eq_refl eq_refl eq_refl).
Defined.

Lemma unusable_index_fails_witness :
  exists e,
    (e = NetworkError \/ e = SyntaxError)
    /\ initReport
         (example_world (Some (js "abc")) None None
            (answer {| ok := true; json := Failed; text := Resolved (js "<html>") |}))
         (start empty_page)
       = (Fulfilled tt,
          mkSys (error_page
                   (example_world (Some (js "abc")) None None
                      (answer {| ok := true; json := Failed; text := Resolved (js "<html>") |}))
                   (js "Bummer! Failed to load report. Please refresh and try again.")
                   empty_page)
                [got_item; ReadReportsData; Fetch (index_url 1700000000000);
                 ConsoleError (js "Failed to load report:") e]).
Proof.
  apply (unusable_index_fails
           (example_world (Some (js "abc")) None None
              (answer {| ok := true; json := Failed; text := Resolved (js "<html>") |}))
           (js "abc") [] empty_page eq_refl eq_refl eq_refl eq_refl eq_refl).
  right. eexists. repeat split; reflexivity.
Defined.

(** ** The loading placeholder *)

Lemma node_ind2 (P : Node -> Prop) :
  (forall data, P (TextNode data)) ->
  (forall tag classes children, Forall P children -> P (Element tag classes children)) ->
  forall n, P n.
Proof.
  intros Htext Helem. fix IH 1. intros [data|tag classes children]; [apply Htext|].
  apply Helem. induction children as [|c cs IHcs]; constructor; [apply IH | exact IHcs].
Qed.

Lemma remove_first_in_Element (cls tag : jsstring) (classes : list jsstring)
    (children : list Node) :
  remove_first_in cls (Element tag classes children)
  = option_map (Element tag classes) (remove_first_among cls children).
Proof.
  cbn [remove_first_in]. f_equal.
  induction children as [|x rest IH]; [reflexivity|].
  cbn [remove_first_among]. destruct (has_class cls x); [reflexivity|].
  destruct (remove_first_in cls x); [reflexivity|]. now rewrite IH.
Qed.

Lemma remove_first_in_absent (cls : jsstring) (n : Node) :
  inside cls n = false -> remove_first_in cls n = None.
Proof.
  induction n as [data|tag classes children IH] using node_ind2; [reflexivity|].
  intros Hin. rewrite remove_first_in_Element. cbn [inside] in Hin.
  assert (E : remove_first_among cls children = None); [|now rewrite E].
  induction IH as [|x rest Hx _ IHrest]; [reflexivity|].
  cbn [existsb] in Hin. apply orb_false_elim in Hin as [Hx' Hrest].
  apply orb_false_elim in Hx' as [Hc Hi].
  cbn [remove_first_among]. rewrite Hc, (Hx Hi), (IHrest Hrest). reflexivity.
Qed.

Lemma select_headings_Element (tag : jsstring) (classes : list jsstring)
    (children : list Node) :
  select_headings (Element tag classes children)
  = (if is_h1_h4 tag then [Element tag classes children] else [])
    ++ querySelectorAll_headings children.
Proof. reflexivity. Qed.

Lemma headings_kept_refl (cls : jsstring) (hs : list Node) : headings_kept cls hs hs.
Proof.
  exists hs. split; [reflexivity|].
  induction hs; constructor; [now left | assumption].
Qed.

Lemma headings_kept_app (cls : jsstring) (a' a b' b : list Node) :
  headings_kept cls a' a -> headings_kept cls b' b ->
  headings_kept cls (a' ++ b') (a ++ b).
Proof.
  intros (ka & Hsa & Ha) (kb & Hsb & Hb). exists (ka ++ kb).
  split; [now apply sublist_app | now apply Forall2_app].
Qed.

Lemma headings_kept_skip (cls : jsstring) (a hs' hs : list Node) :
  headings_kept cls hs' hs -> headings_kept cls hs' (a ++ hs).
Proof.
  intros (k & Hs & Hk). exists k. split; [now apply sublist_inserts_l | exact Hk].
Qed.

(** A heading that lost a node inside it is still that heading, with the
    same tag; what is read from it afterwards is its text without the
    detached part. *)
Lemma remove_first_in_headings (cls : jsstring) (n n' : Node) :
  remove_first_in cls n = Some n' ->
  headings_kept cls (select_headings n') (select_headings n).
Proof.
  revert n'. induction n as [data|tag classes children IH] using node_ind2;
    intros n' Hrem; [discriminate|].
  pose proof Hrem as Hnode. rewrite remove_first_in_Element in Hrem.
  destruct (remove_first_among cls children) as [children'|] eqn:E; [|discriminate].
  injection Hrem as <-. rewrite !select_headings_Element.
  apply headings_kept_app.
  { destruct (is_h1_h4 tag); [|apply headings_kept_refl].
    exists [Element tag classes children]. split; [reflexivity|].
    constructor; [now right | constructor]. }
  clear tag classes Hnode. revert children' E.
  induction IH as [|x rest Hx _ IHrest]; intros children' E; [discriminate|].
  cbn [remove_first_among] in E. unfold querySelectorAll_headings in *.
  cbn [flat_map].
  destruct (has_class cls x).
  { injection E as <-. apply headings_kept_skip, headings_kept_refl. }
  destruct (remove_first_in cls x) as [x'|] eqn:Ex.
  { injection E as <-. cbn [flat_map].
    apply headings_kept_app; [now apply Hx | apply headings_kept_refl]. }
  destruct (remove_first_among cls rest) as [rest'|]; [|discriminate].
  injection E as <-. cbn [flat_map].
  apply headings_kept_app; [apply headings_kept_refl | now apply IHrest].
Qed.

Lemma heading_kept_tag (cls : jsstring) (h' h : Node) :
  heading_kept cls h' h -> tag_of h' = tag_of h.
Proof.
  intros [->|Hrem]; [reflexivity|]. destruct h as [data|tag classes children];
    [discriminate|].
  rewrite remove_first_in_Element in Hrem.
  destruct (remove_first_among cls children); [|discriminate].
  now injection Hrem as <-.
Qed.

(** X11. Detaching the loading placeholder after the markup is mounted
    changes nothing when no mounted element carries class [loading-state].
    In any case no heading is gained and none changes place: the headings
    left are, in order, headings that were mounted, each one as mounted or
    with the placeholder detached from inside it, and with the tag it had.
    When no heading has such an element inside it, the headings left are a
    sub-sequence of the mounted ones. *)
Theorem placeholder_removal (cls : jsstring) (children : list Node) :
  (inside cls (Element [] [] children) = false ->
   remove_first_with_class cls children = children)
  /\ (exists kept,
        kept `sublist_of` querySelectorAll_headings children
        /\ Forall2 (fun h' h => heading_kept cls h' h /\ tag_of h' = tag_of h)
             (querySelectorAll_headings (remove_first_with_class cls children)) kept)
  /\ (Forall (fun h => inside cls h = false) (querySelectorAll_headings children) ->
      querySelectorAll_headings (remove_first_with_class cls children)
      `sublist_of` querySelectorAll_headings children).
Proof.
  assert (Hkept : headings_kept cls
                    (querySelectorAll_headings (remove_first_with_class cls children))
                    (querySelectorAll_headings children)).
  { unfold remove_first_with_class.
    destruct (remove_first_in cls (Element [] [] children)) as [n'|] eqn:E;
      [|apply headings_kept_refl].
    pose proof (remove_first_in_headings cls _ n' E) as Hsub.
    rewrite remove_first_in_Element in E.
    destruct (remove_first_among cls children) as [children'|]; [|discriminate].
    injection E as <-. exact Hsub. }
  split; [|split].
  - intros Hin. unfold remove_first_with_class.
    now rewrite (remove_first_in_absent cls _ Hin).
  - destruct Hkept as (kept & Hsub & Hall). exists kept. split; [exact Hsub|].
    eapply Forall2_impl; [exact Hall|]. intros h' h Hh.
    split; [exact Hh | now apply (heading_kept_tag cls)].
  - intros Hclean. destruct Hkept as (kept & Hsub & Hall).
    assert (E : querySelectorAll_headings (remove_first_with_class cls children) = kept);
      [|now rewrite E].
    apply list_eq_Forall2.
    assert (Hk : Forall (fun h => inside cls h = false) kept).
    { apply Forall_forall. intros h Hh.
      apply (proj1 (Forall_forall _ _) Hclean). eapply elem_of_sublist; eassumption. }
    clear Hsub Hclean. induction Hall as [|h' h hs' hs Hh _ IH]; [constructor|].
    apply Forall_cons in Hk as [Hh0 Hk]. constructor; [|now apply IH].
    destruct Hh as [->|Hrem]; [reflexivity|].
    now rewrite (remove_first_in_absent cls h Hh0) in Hrem.
Qed.

Example placeholder_inside_a_heading :
  remove_first_with_class (js "loading-state") placeholder_in_heading
  = [Element (js "H1") [] [TextNode (js "A")];
     Element (js "DIV") [js "loading-state"] [Element (js "H2") [] [TextNode (js "B")]]]
  /\ textContent <$> querySelectorAll_headings placeholder_in_heading = [js "A..."; js "B"]
  /\ textContent
       <$> querySelectorAll_headings
             (remove_first_with_class (js "loading-state") placeholder_in_heading)
     = [js "A"; js "B"].
Proof. vm_compute. repeat split. Qed.

Lemma placeholder_removal_witness :
  remove_first_with_class (js "loading-state")
    [Element (js "H1") [] [TextNode (js "A")];
     Element (js "DIV") [js "note"] [Element (js "H2") [] [TextNode (js "B")]]]
  = [Element (js "H1") [] [TextNode (js "A")];
     Element (js "DIV") [js "note"] [Element (js "H2") [] [TextNode (js "B")]]].
Proof.
  apply (proj1 (placeholder_removal (js "loading-state") _)).
  vm_compute. reflexivity.
Defined.

(** * Properties of the analysis form *)

(** ** Splitting *)

Lemma split_runs_cons (p : N -> bool) (c : N) (r : jsstring) :
  split_runs p (c :: r)
  = if p c then
      match r with
      | c' :: _ => if p c' then split_runs p r else [] :: split_runs p r
      | [] => [[]; []]
      end
    else
      match split_runs p r with
      | piece :: pieces => (c :: piece) :: pieces
      | [] => [[c]]
      end.
Proof. reflexivity. Qed.

Lemma split_runs_clean (p : N -> bool) (s : jsstring) :
  Forall (fun piece => forallb (fun c => negb (p c)) piece = true) (split_runs p s).
Proof.
  induction s as [|c r IH]; [repeat constructor|].
  rewrite split_runs_cons. destruct (p c) eqn:Hc.
  - destruct r as [|c' r']; [repeat constructor|].
    destruct (p c'); [exact IH | now constructor].
  - destruct (split_runs p r) as [|piece pieces]; [repeat constructor; cbn; now rewrite Hc|].
    apply Forall_cons in IH as [Hpiece Hpieces].
    constructor; [|exact Hpieces]. cbn. now rewrite Hc, Hpiece.
Qed.

Lemma split_runs_nonempty (p : N -> bool) (s : jsstring) : split_runs p s <> [].
Proof.
  induction s as [|c r IH]; [discriminate|]. rewrite split_runs_cons.
  destruct (p c).
  - destruct r as [|c' r']; [discriminate|]. destruct (p c'); [exact IH|discriminate].
  - destruct (split_runs p r); discriminate.
Qed.

Lemma split_runs_clean_prefix (p : N -> bool) (t rest : jsstring) :
  forallb (fun c => negb (p c)) t = true ->
  split_runs p (t ++ rest)
  = match split_runs p rest with
    | piece :: pieces => (t ++ piece) :: pieces
    | [] => [t]
    end.
Proof.
  induction t as [|c t IH]; intros Ht.
  - cbn [app]. pose proof (split_runs_nonempty p rest).
    now destruct (split_runs p rest).
  - cbn [forallb] in Ht. apply andb_prop in Ht as [Hc Ht].
    apply negb_true_iff in Hc.
    rewrite <- app_comm_cons, split_runs_cons, Hc, (IH Ht).
    now destruct (split_runs p rest).
Qed.

Lemma split_runs_whole (p : N -> bool) (t : jsstring) :
  forallb (fun c => negb (p c)) t = true -> split_runs p t = [t].
Proof.
  intros Ht. rewrite <- (app_nil_r t) at 1.
  rewrite (split_runs_clean_prefix p t [] Ht). cbn. now rewrite app_nil_r.
Qed.

Lemma split_runs_spaced (p : N -> bool) (parts : list jsstring) :
  p 32 = true -> parts <> [] ->
  Forall (fun t => t <> [] /\ forallb (fun c => negb (p c)) t = true) parts ->
  split_runs p (spaced parts) = parts.
Proof.
  intros Hsp Hne Hparts. induction Hparts as [|x rest [Hx Hclean] Hrest IH]; [contradiction|].
  destruct rest as [|y rest'].
  - cbn [spaced]. now apply split_runs_whole.
  - change (spaced (x :: y :: rest')) with (x ++ 32 :: spaced (y :: rest')).
    rewrite (split_runs_clean_prefix p x _ Hclean).
    apply Forall_cons in Hrest as [[Hy Hyclean] Hrest'].
    assert (Hhead : exists c r, spaced (y :: rest') = c :: r /\ p c = false).
    { destruct y as [|c y']; [contradiction|]. cbn [forallb] in Hyclean.
      apply andb_prop in Hyclean as [Hc _]. apply negb_true_iff in Hc.
      destruct rest'; cbn [spaced]; eauto. }
    destruct Hhead as (c & r & E & Hc).
    rewrite split_runs_cons, Hsp, E, Hc, <- E.
    rewrite IH; [|discriminate]. now rewrite app_nil_r.
Qed.

Lemma drop_leading_id (p : N -> bool) (s : jsstring) :
  starts_in p s = false -> drop_leading p s = s.
Proof. destruct s as [|c r]; [reflexivity|]. cbn. now intros ->. Qed.

Lemma drop_trailing_id (p : N -> bool) (s : jsstring) :
  ends_in p s = false -> drop_trailing p s = s.
Proof.
  unfold ends_in. induction s as [|c r IH]; [reflexivity|]. intros Hend.
  cbn [drop_trailing]. destruct r as [|c' r'].
  - cbn in Hend |- *. now rewrite Hend.
  - rewrite IH.
    + reflexivity.
    + change (c :: c' :: r') with ([c] ++ (c' :: r')) in Hend.
      rewrite rev_app_distr in Hend.
      destruct (rev (c' :: r')) as [|z u] eqn:Er; [|exact Hend].
      apply (f_equal (@length N)) in Er. rewrite length_rev in Er. discriminate.
Qed.

Lemma trim_id (s : jsstring) :
  starts_in is_space s = false -> ends_in is_space s = false -> trim s = s.
Proof.
  intros Hs He. unfold trim. rewrite (drop_leading_id _ _ Hs). now apply drop_trailing_id.
Qed.

(** X13. Every competitor ASIN placed in a payload is a non-empty piece
    of the field without comma or newline and without whitespace at either
    end. *)
Theorem payload_competitors_clean (compValue t : jsstring) :
  In t (payload_competitors compValue) ->
  t <> []
  /\ Forall (fun c => is_nl_comma c = false) t
  /\ starts_in is_space t = false
  /\ ends_in is_space t = false.
Proof.
  unfold payload_competitors. intros Hin.
  apply List.filter_In in Hin as [Hin Htruthy].
  apply in_map_iff in Hin as (piece & <- & Hpiece).
  split; [now destruct (trim piece)|]. split; [|split].
  - pose proof (split_runs_clean is_nl_comma (trim compValue)) as Hclean.
    rewrite Forall_forall in Hclean. apply list_elem_of_In in Hpiece.
    specialize (Hclean piece Hpiece).
    unfold trim. apply drop_trailing_Forall, drop_leading_Forall.
    apply Forall_forall. intros c Hc. apply list_elem_of_In in Hc.
    rewrite forallb_forall in Hclean. specialize (Hclean c Hc).
    now apply negb_true_iff in Hclean.
  - unfold trim. apply drop_trailing_head, drop_leading_head.
  - unfold trim. apply drop_trailing_last.
Qed.

(** ** ASINs on one line *)

Ltac unit_facts :=
  unfold is_alnum, is_space, is_separator, is_nl_comma, is_basic_latin, between,
         upper_unit in *;
  rewrite ?orb_true_iff, ?andb_true_iff, ?orb_false_iff, ?andb_false_iff,
          ?N.eqb_eq, ?N.eqb_neq, ?N.leb_le, ?N.leb_gt, ?N.ltb_lt, ?N.ltb_ge in *.

Lemma alnum_range (c : N) : is_alnum c = true -> 48 <= c <= 122.
Proof. unit_facts. lia. Qed.

Lemma mid_not_space (c : N) : 33 <= c <= 126 -> is_space c = false.
Proof. intros Hc. unit_facts. lia. Qed.

Lemma alnum_not_separator (c : N) : is_alnum c = true -> is_separator c = false.
Proof.
  intros Hc. apply alnum_range in Hc.
  unfold is_separator. rewrite (mid_not_space c) by lia.
  unit_facts. lia.
Qed.

Lemma alnum_basic_latin (c : N) : is_alnum c = true -> is_basic_latin c = true.
Proof. intros Hc. apply alnum_range in Hc. unit_facts. lia. Qed.

Lemma alnum_upper (c : N) : is_alnum c = true -> is_alnum (upper_unit c) = true.
Proof.
  intros Hc. unfold upper_unit. destruct (between 97 122 c) eqn:Hlow; [|exact Hc].
  unit_facts. lia.
Qed.

Lemma asin_units (t : jsstring) :
  asinRegex_test t = true -> length t = 10%nat /\ forallb is_alnum t = true.
Proof.
  destruct t as [|b rest]; [discriminate|]. cbn [asinRegex_test].
  intros Ht. apply andb_prop in Ht as [Ht Hrest]. apply andb_prop in Ht as [Hb Hlen].
  apply Nat.eqb_eq in Hlen. split; [cbn; lia|].
  cbn [forallb]. rewrite Hrest, andb_true_r.
  apply orb_prop in Hb as [Hb|Hb]; apply N.eqb_eq in Hb as ->; reflexivity.
Qed.

Lemma asin_upper (t : jsstring) :
  asinRegex_test t = true -> asinRegex_test (map upper_unit t) = true.
Proof.
  destruct t as [|b rest]; [discriminate|]. cbn [asinRegex_test map].
  intros Ht. apply andb_prop in Ht as [Ht Hrest]. apply andb_prop in Ht as [Hb Hlen].
  rewrite length_map, Hlen, andb_true_r.
  apply andb_true_intro. split.
  - apply orb_prop in Hb as [Hb|Hb]; apply N.eqb_eq in Hb as ->; reflexivity.
  - rewrite forallb_forall in *. intros c Hc. apply in_map_iff in Hc as (c' & <- & Hc').
    apply alnum_upper, Hrest, Hc'.
Qed.

Lemma starts_in_app (p : N -> bool) (a b : jsstring) :
  a <> [] -> starts_in p (a ++ b) = starts_in p a.
Proof. now destruct a. Qed.

Lemma alnum_ends (t : jsstring) :
  t <> [] -> forallb is_alnum t = true ->
  starts_in is_space t = false /\ ends_in is_space t = false.
Proof.
  intros Hne Ht. rewrite forallb_forall in Ht.
  assert (Hunit : forall c, In c t -> is_space c = false).
  { intros c Hc. apply mid_not_space. pose proof (alnum_range c (Ht c Hc)). lia. }
  split.
  - destruct t as [|c r]; [contradiction|]. apply Hunit. now left.
  - unfold ends_in. destruct (rev t) as [|c r] eqn:E.
    + reflexivity.
    + apply Hunit. apply in_rev. rewrite E. now left.
Qed.

Lemma spaced_units (parts : list jsstring) :
  Forall (fun t => forallb is_alnum t = true) parts ->
  Forall (fun c => is_alnum c = true \/ c = 32) (spaced parts).
Proof.
  induction 1 as [|x rest Hx Hrest IH]; [constructor|].
  assert (Hx' : Forall (fun c => is_alnum c = true \/ c = 32) x).
  { apply Forall_forall. intros c Hc. left. rewrite forallb_forall in Hx.
    now apply Hx, list_elem_of_In. }
  destruct rest as [|y rest']; [exact Hx'|].
  change (spaced (x :: y :: rest')) with (x ++ 32 :: spaced (y :: rest')).
  apply Forall_app. split; [exact Hx'|]. constructor; [now right|exact IH].
Qed.

Lemma spaced_ends (parts : list jsstring) :
  parts <> [] ->
  Forall (fun t => t <> [] /\ forallb is_alnum t = true) parts ->
  spaced parts <> []
  /\ starts_in is_space (spaced parts) = false
  /\ ends_in is_space (spaced parts) = false.
Proof.
  intros Hne Hparts. induction Hparts as [|x rest [Hx Hal] Hrest IH]; [contradiction|].
  destruct (alnum_ends x Hx Hal) as [Hs He].
  destruct rest as [|y rest'].
  - cbn [spaced]. now repeat split.
  - change (spaced (x :: y :: rest')) with (x ++ 32 :: spaced (y :: rest')).
    destruct IH as (Hne' & _ & He'); [discriminate|].
    split; [now destruct x|]. split.
    + now rewrite starts_in_app.
    + unfold ends_in in *. rewrite rev_app_distr. cbn [rev]. rewrite <- app_assoc.
      rewrite starts_in_app; [exact He'|].
      intros E. apply (f_equal (@length N)) in E. rewrite length_rev in E.
      destruct (spaced (y :: rest')); [contradiction|discriminate].
Qed.

Lemma forallb_filter (f g : jsstring -> bool) (l : list jsstring) :
  forallb f l = true -> forallb f (List.filter g l) = true.
Proof.
  rewrite !forallb_forall. intros Hl x Hx. apply List.filter_In in Hx as [Hx _]. now apply Hl.
Qed.

(** X14. Valid ASINs written on one line with single spaces pass
    [validateAsins], which splits on whitespace too; the payloads split on
    commas and newlines only, so they carry the whole line as one competitor
    entry, and with two or more ASINs that entry is not an ASIN. *)
Theorem spaced_asins_sent_as_one `{CaseMapping} (form : AsinForm) (asins : list jsstring) :
  asinRegex_test (toUpperCase (trim (value (mainAsin form)))) = true ->
  asins <> [] ->
  Forall (fun a => asinRegex_test a = true) asins ->
  value (compAsin form) = spaced asins ->
  (validateAsins form).1.1 = true
  /\ payload_competitors (value (compAsin form)) = [spaced asins]
  /\ ((1 < length asins)%nat -> asinRegex_test (spaced asins) = false).
Proof.
  intros Hmain Hne Hasins Hcomp.
  assert (Hshape : Forall (fun t => t <> [] /\ forallb is_alnum t = true) asins).
  { apply Forall_forall. intros a Ha. rewrite Forall_forall in Hasins.
    destruct (asin_units a (Hasins a Ha)) as [Hlen Hal].
    split; [|exact Hal]. intros ->. discriminate. }
  destruct (spaced_ends asins Hne Hshape) as (Hline & Hs & He).
  pose proof (trim_id _ Hs He) as Htrim.
  split; [|split].
  - rewrite validateAsins_returns, Hmain, Hcomp, Htrim. cbn [andb].
    assert (Htruthy : truthy (spaced asins) = true) by now destruct (spaced asins).
    rewrite Htruthy. cbn [andb]. unfold compAsins. apply forallb_filter.
    rewrite split_runs_spaced; [|reflexivity|exact Hne|].
    + rewrite forallb_forall. intros t Ht. apply in_map_iff in Ht as (a & <- & Ha).
      rewrite Forall_forall in Hasins, Hshape. apply list_elem_of_In in Ha.
      destruct (Hshape a Ha) as [Hane Hal].
      destruct (alnum_ends a Hane Hal) as [Has Hae].
      rewrite (trim_id a Has Hae), toUpperCase_basic_latin.
      * apply asin_upper, Hasins, Ha.
      * rewrite forallb_forall in *. intros c Hc. apply alnum_basic_latin, Hal, Hc.
    + apply Forall_forall. intros a Ha. rewrite Forall_forall in Hshape.
      destruct (Hshape a Ha) as [Hane Hal]. split; [exact Hane|].
      rewrite forallb_forall in *. intros c Hc.
      now rewrite (alnum_not_separator c (Hal c Hc)).
  - unfold payload_competitors. rewrite Hcomp, Htrim, split_runs_whole.
    + cbn [map List.filter]. rewrite Htrim. now destruct (spaced asins).
    + rewrite forallb_forall. intros c Hc.
      assert (Hunits : Forall (fun c => is_alnum c = true \/ c = 32) (spaced asins)).
      { apply spaced_units. apply Forall_forall. intros a Ha.
        rewrite Forall_forall in Hshape. now destruct (Hshape a Ha). }
      rewrite Forall_forall in Hunits. apply list_elem_of_In in Hc.
      destruct (Hunits c Hc) as [Hal| ->]; [|reflexivity].
      apply alnum_range in Hal. apply negb_true_iff. unit_facts. lia.
  - intros Hlen. destruct (asinRegex_test (spaced asins)) eqn:E; [|reflexivity].
    apply asin_units in E as [Hlong _].
    destruct asins as [|a [|b rest]]; cbn in Hlen; try lia.
    rewrite Forall_forall in Hasins.
    destruct (asin_units a (Hasins a ltac:(left))) as [Ha _].
    change (spaced (a :: b :: rest)) with (a ++ 32 :: spaced (b :: rest)) in Hlong.
    rewrite length_app in Hlong. cbn [length] in Hlong. lia.
Qed.

Lemma spaced_asins_sent_as_one_witness :
  (validateAsins {| mainAsin := field_of (js "B08CVS825S");
                    compAsin := field_of (js "B0B9M5T6X8 B012345678") |}).1.1 = true
  /\ payload_competitors (js "B0B9M5T6X8 B012345678") = [js "B0B9M5T6X8 B012345678"].
Proof.
  destruct (spaced_asins_sent_as_one
              {| mainAsin := field_of (js "B08CVS825S");
                 compAsin := field_of (js "B0B9M5T6X8 B012345678") |}
              [js "B0B9M5T6X8"; js "B012345678"]) as (Hvalid & Hsent & _).
  - vm_compute. reflexivity.
  - discriminate.
  - repeat constructor.
  - vm_compute. reflexivity.
  - split; [exact Hvalid|exact Hsent].
Defined.

Lemma payload_competitors_clean_witness :
  js "B0B9M5T6X8" <> []
  /\ Forall (fun c => is_nl_comma c = false) (js "B0B9M5T6X8")
  /\ starts_in is_space (js "B0B9M5T6X8") = false
  /\ ends_in is_space (js "B0B9M5T6X8") = false.
Proof.
  apply (payload_competitors_clean (unlines [js " B0B9M5T6X8 ,"; js "B012345678"])).
  vm_compute. left. reflexivity.
Defined.

(** ** Feedback of the validation *)

(** X12. [validateAsins] leaves the typed values alone and returns
    [true] exactly when it set no message on either field.  A field is
    outlined in red exactly when it has a message, and only then is it
    animated.  When the result is [false] just one field has its message
    reported, the main one if it is invalid, even when both are. *)
Theorem validation_feedback `{CaseMapping} (form : AsinForm) :
  let valid := (validateAsins form).1.1 in
  let form' := (validateAsins form).1.2 in
  let evs := (validateAsins form).2 in
  value (mainAsin form') = value (mainAsin form)
  /\ value (compAsin form') = value (compAsin form)
  /\ (valid = true <->
      validationMessage (mainAsin form') = [] /\ validationMessage (compAsin form') = [])
  /\ (borderColor (mainAsin form') = [] <-> validationMessage (mainAsin form') = [])
  /\ (borderColor (compAsin form') = [] <-> validationMessage (compAsin form') = [])
  /\ (In (Animate (js "main-asin")) evs <-> validationMessage (mainAsin form') <> [])
  /\ (In (Animate (js "comp-asin")) evs <-> validationMessage (compAsin form') <> [])
  /\ List.filter is_report_validity evs
     = if valid then []
       else if truthy (validationMessage (mainAsin form'))
            then [ReportValidity (js "main-asin")]
            else [ReportValidity (js "comp-asin")].
Proof.
  cbn zeta. unfold validateAsins.
  set (mainValue := toUpperCase (trim (value (mainAsin form)))).
  set (compValue := trim (value (compAsin form))).
  set (invalid := List.filter (fun asin => negb (asinRegex_test asin)) (compAsins compValue)).
  destruct (truthy mainValue) eqn:Hm, (asinRegex_test mainValue) eqn:Hmt,
    (truthy compValue) eqn:Hc, (length invalid =? 0)%nat eqn:Hi;
    cbn [andb negb fst snd mainAsin compAsin styled value validationMessage borderColor
         app List.filter is_report_validity truthy];
    repeat split; intros; try discriminate; try tauto; try reflexivity;
    try (match goal with H : _ /\ _ |- _ => destruct H end; discriminate);
    try (match goal with H : In _ _ |- _ => cbn in H; intuition discriminate end);
    try (cbn; tauto); try (exfalso; auto; fail).
Qed.

(** ** Submitting *)

Lemma valid_without_events `{CaseMapping} (form : AsinForm) :
  (validateAsins form).1.1 = true -> (validateAsins form).2 = [].
Proof.
  unfold validateAsins.
  destruct (truthy _ && asinRegex_test _); cbn [negb]; [|discriminate].
  destruct (truthy _ && (_ =? _)%nat); cbn [negb]; [reflexivity|discriminate].
Qed.

Lemma validateAsins_values `{CaseMapping} (form : AsinForm) :
  value (mainAsin (validateAsins form).1.2) = value (mainAsin form)
  /\ value (compAsin (validateAsins form).1.2) = value (compAsin form).
Proof.
  unfold validateAsins.
  destruct (truthy _ && asinRegex_test _); cbn [negb]; [|now split].
  destruct (truthy _ && (_ =? _)%nat); cbn [negb]; now split.
Qed.

Section SubmissionFacts.
Context `{CaseMapping}.
Variable sw : SubmitWorld.

Lemma submission_failed_ended (isPro : bool) (originalText message : jsstring)
    (pg1 : SubmitPage) (pre : list SubmitEvent) :
  List.filter is_request pre = [] -> List.filter is_alert pre = [] ->
  let pg' := submission_failed isPro originalText message pg1 in
  submit_log pg' = submit_log pg1 ++ [Logged message; Alerted (js "Submission Error: " ++ message)]
  /\ other_button isPro pg' = other_button isPro pg1
  /\ asin_form pg' = asin_form pg1
  /\ submission_ended isPro originalText (location_href pg1)
       (pre ++ [Logged message; Alerted (js "Submission Error: " ++ message)]) pg'.
Proof.
  intros Hreq Halert. cbn zeta. unfold submission_failed, submission_ended.
  split; [reflexivity|]. split; [now destruct isPro|]. split; [reflexivity|].
  rewrite !List.filter_app, Hreq, Halert. cbn [List.filter is_request is_alert app].
  split; [reflexivity|]. right. split; [reflexivity|]. split; [now exists message|].
  now destruct isPro.
Qed.

Lemma submit_free_ended (originalText : jsstring) (payload : Payload) (pg1 : SubmitPage) :
  modal_submit pg1 = {| disabled := true; button_text := js "Generating..." |} ->
  let pg' := submit_free sw originalText payload pg1 in
  exists rest,
    submit_log pg'
    = submit_log pg1
      ++ Request (endpoint false) (StartTask (build_backend_payload payload pg1)) :: rest
    /\ other_button false pg' = other_button false pg1
    /\ asin_form pg' = asin_form pg1
    /\ submission_ended false originalText (location_href pg1) rest pg'.
Proof.
  intros Hbtn. cbn zeta. unfold submit_free, endpoint.
  set (request := Request (js "/api/discovery/start-task")
                    (StartTask (build_backend_payload payload pg1))).
  set (pg2 := with_log [request] pg1).
  assert (Hfail : forall message,
            exists rest,
              submit_log (submission_failed false originalText message pg2)
              = submit_log pg1 ++ request :: rest
              /\ other_button false (submission_failed false originalText message pg2)
                 = other_button false pg1
              /\ asin_form (submission_failed false originalText message pg2) = asin_form pg1
              /\ submission_ended false originalText (location_href pg1) rest
                   (submission_failed false originalText message pg2)).
  { intros message.
    destruct (submission_failed_ended false originalText message pg2 [] eq_refl eq_refl)
      as (Hlog & Hother & Hform & Hend).
    eexists. split; [|split; [exact Hother|split; [exact Hform|exact Hend]]].
    rewrite Hlog. unfold pg2. cbn [submit_log with_log]. now rewrite <- app_assoc. }
  destruct (post sw _ _) as [message|res]; [apply Hfail|].
  destruct (post_ok res); cbn [negb]; [|apply Hfail].
  destruct (body_json res) as [message|[message|taskId]]; [apply Hfail|apply Hfail|].
  destruct (encodeURIComponent sw _) as [message|email]; [apply Hfail|].
  exists []. split; [reflexivity|]. split; [reflexivity|]. split; [reflexivity|].
  split; [reflexivity|]. left. eexists. split; [reflexivity|]. split; [reflexivity|].
  exact Hbtn.
Qed.

End SubmissionFacts.


(** X16. The request of the free path never carries a blank address:
    an empty or blank e-mail field is replaced by [guest@example.com], and
    the reference ASINs are the trimmed main ASIN followed by the competitor
    entries, in the order typed. *)
Theorem free_request_body `{CaseMapping} (sw : SubmitWorld) (pg : SubmitPage) :
  (validateAsins (asin_form pg)).1.1 = true ->
  exists b rest,
    submit_log (handleSubmission sw false pg)
    = submit_log pg ++ Request (js "/api/discovery/start-task") (StartTask b) :: rest
    /\ truthy (backend_user_email b) = true
    /\ (truthy (trim (user_email_field pg)) = false ->
        backend_user_email b = js "guest@example.com")
    /\ (truthy (trim (user_email_field pg)) = true ->
        backend_user_email b = trim (user_email_field pg))
    /\ reference_asins b
       = trim (value (mainAsin (asin_form pg)))
         :: payload_competitors (value (compAsin (asin_form pg)))
    /\ user_tier b = js "free".
Proof.
  intros Hvalid. unfold handleSubmission.
  pose proof (valid_without_events (asin_form pg) Hvalid) as Hquiet.
  destruct (validateAsins_values (asin_form pg)) as [Hmain Hcomp].
  destruct (validateAsins (asin_form pg)) as [[valid form'] evs]. cbn [fst snd] in *.
  subst valid evs. cbn [negb map].
  set (pg0 := with_log [] (with_form form' pg)).
  set (pg1 := with_button false {| disabled := true; button_text := js "Generating..." |} pg0).
  destruct (submit_free_ended sw (button_text (submit_button false pg0))
              (build_payload sw false pg1) pg1 eq_refl) as (rest & Hrest & _).
  exists (build_backend_payload (build_payload sw false pg1) pg1), rest.
  split.
  { rewrite Hrest. unfold pg1, pg0. cbn [submit_log with_button with_log with_form].
    now rewrite app_nil_r. }
  cbn [build_backend_payload build_payload backend_user_email reference_asins user_tier
       user_email competitor_asins asin_form with_button with_log with_form
       user_email_field pg1 pg0].
  unfold or_else. rewrite Hmain, Hcomp.
  destruct (truthy (trim (user_email_field pg))) eqn:E;
    repeat split; intros; try reflexivity; try discriminate; exact E.
Qed.

Lemma free_request_body_witness :
  exists b rest,
    submit_log (handleSubmission (example_submit_world (inr task_created)) false
                  (example_submit_page (js "B08CVS825S") (js "B0B9M5T6X8,B012345678") (js "  ")))
    = Request (js "/api/discovery/start-task") (StartTask b) :: rest
    /\ backend_user_email b = js "guest@example.com"
    /\ reference_asins b = [js "B08CVS825S"; js "B0B9M5T6X8"; js "B012345678"].
Proof.
  destruct (free_request_body (example_submit_world (inr task_created))
              (example_submit_page (js "B08CVS825S") (js "B0B9M5T6X8,B012345678") (js "  ")))
    as (b & rest & Hlog & _ & Hguest & _ & Hrefs & _).
  - vm_compute. reflexivity.
  - exists b, rest. split; [exact Hlog|]. split; [apply Hguest; reflexivity|].
    rewrite Hrefs. vm_compute. reflexivity.
Defined.

Example free_submission_navigates :
  location_href
    (handleSubmission (example_submit_world (inr task_created)) false
       (example_submit_page (js "B08CVS825S") (js "B0B9M5T6X8") (js "me@shop.example")))
  = Some (js "processing.html?taskId=task-17&email=me%40shop.example&pro=false").
Proof. vm_compute. reflexivity. Qed.

Example refused_submission_restores_button :
  let pg' := handleSubmission
               (example_submit_world
                  (inr {| post_ok := false; post_status := 500;
                          statusText := js "Internal Server Error";
                          body_json := inl (js "Unexpected token"); body_text := inr [] |}))
               false
               (example_submit_page (js "B08CVS825S") (js "B0B9M5T6X8") (js "me@shop.example")) in
  modal_submit pg' = {| disabled := false; button_text := js "Get Free Report" |}
  /\ location_href pg' = None
  /\ List.filter is_alert (submit_log pg')
     = [Alerted (js "Submission Error: Backend start-task failed: Internal Server Error")].
Proof. vm_compute. repeat split. Qed.

(** * Properties of the upload lists *)

Lemma map_set_keys {V} (key : jsstring) (v : V) (m : list (jsstring * V)) :
  map fst (map_set key v m)
  = if bool_decide (key ∈ map fst m) then map fst m else map fst m ++ [key].
Proof.
  induction m as [|[k x] rest IH]; [reflexivity|].
  cbn [map_set map fst]. destruct (decide (k = key)) as [->|Hne].
  - rewrite (bool_decide_eq_true_2 (key = key)) by reflexivity.
    rewrite (bool_decide_eq_true_2 (key ∈ key :: map fst rest)) by left. reflexivity.
  - rewrite (bool_decide_eq_false_2 (k = key)) by exact Hne.
    cbn [map fst]. rewrite IH. destruct (decide (key ∈ map fst rest)) as [Hin|Hin].
    + rewrite !bool_decide_eq_true_2; [reflexivity|now right|exact Hin].
    + rewrite !bool_decide_eq_false_2; [reflexivity| |exact Hin].
      intros Hin'. apply elem_of_cons in Hin' as [E|Hin']; congruence.
Qed.

Lemma map_set_NoDup {V} (key : jsstring) (v : V) (m : list (jsstring * V)) :
  NoDup (map fst m) -> NoDup (map fst (map_set key v m)).
Proof.
  intros Hnd. rewrite map_set_keys. case_bool_decide as Hin; [exact Hnd|].
  apply NoDup_app. split; [exact Hnd|]. split; [|apply NoDup_singleton].
  intros x Hx Hx'. apply list_elem_of_singleton in Hx' as ->. now apply Hin.
Qed.

Lemma map_set_values {V} (P : V -> Prop) (key : jsstring) (v : V) (m : list (jsstring * V)) :
  P v -> Forall (fun kv => P kv.2) m -> Forall (fun kv => P kv.2) (map_set key v m).
Proof.
  intros Hv. induction 1 as [|[k x] rest Hx Hrest IH]; [now repeat constructor|].
  cbn [map_set]. case_bool_decide; constructor; trivial.
Qed.

Lemma map_delete_keys {V} (key : jsstring) (m : list (jsstring * V)) :
  map fst (map_delete key m)
  = List.filter (fun k => negb (bool_decide (k = key))) (map fst m).
Proof.
  unfold map_delete. induction m as [|[k x] rest IH]; [reflexivity|].
  cbn [map fst List.filter]. destruct (negb (bool_decide (k = key))); cbn [map fst];
    now rewrite IH.
Qed.

Lemma filter_NoDup {A} (p : A -> bool) (l : list A) : NoDup l -> NoDup (List.filter p l).
Proof.
  induction 1 as [|x l Hx Hnd IH]; [constructor|].
  cbn [List.filter]. destruct (p x); [|exact IH].
  constructor; [|exact IH]. intros Hin. apply Hx.
  apply list_elem_of_In in Hin. apply List.filter_In in Hin as [Hin _].
  now apply list_elem_of_In.
Qed.

Lemma map_delete_NoDup {V} (key : jsstring) (m : list (jsstring * V)) :
  NoDup (map fst m) -> NoDup (map fst (map_delete key m)).
Proof. intros Hnd. rewrite map_delete_keys. now apply filter_NoDup. Qed.

Lemma map_delete_values {V} (P : V -> Prop) (key : jsstring) (m : list (jsstring * V)) :
  Forall (fun kv => P kv.2) m -> Forall (fun kv => P kv.2) (map_delete key m).
Proof.
  rewrite !Forall_forall. intros Hm kv Hkv. apply Hm.
  apply list_elem_of_In in Hkv. apply List.filter_In in Hkv as [Hkv _].
  now apply list_elem_of_In.
Qed.

Section UploadFacts.
Context `{CaseMapping}.

Lemma add_files_NoDup (validFiles : list File) :
  forall k draw m, NoDup (map fst m) -> NoDup (map fst (add_files validFiles k draw m)).
Proof.
  induction validFiles as [|f rest IH]; intros k draw m Hnd; [exact Hnd|].
  cbn [add_files]. apply IH, map_set_NoDup, Hnd.
Qed.

Lemma add_files_accepted (validFiles : list File) :
  forall k draw m,
    Forall (fun f => accepted f = true) validFiles ->
    Forall (fun kv => accepted kv.2 = true) m ->
    Forall (fun kv => accepted kv.2 = true) (add_files validFiles k draw m).
Proof.
  induction validFiles as [|f rest IH]; intros k draw m Hfiles Hm; [exact Hm|].
  apply Forall_cons in Hfiles as [Hf Hrest].
  cbn [add_files]. apply IH; [exact Hrest|].
  now apply (map_set_values (fun f => accepted f = true)).
Qed.

Lemma filter_accepted (files : list File) :
  Forall (fun f => accepted f = true) (List.filter accepted files).
Proof.
  apply Forall_forall. intros f Hf. apply list_elem_of_In in Hf.
  now apply List.filter_In in Hf as [_ Hf].
Qed.

Lemma upload_step_accepted (u : Uploader) (ev : UploadEvent) :
  Forall (fun kv => accepted kv.2 = true) (filesMap u) ->
  Forall (fun kv => accepted kv.2 = true) (filesMap (upload_step u ev)).
Proof.
  intros Hu. destruct ev as [files draw| |key]; cbn [upload_step].
  - unfold on_change. cbn [filesMap renderFileList set_files].
    apply add_files_accepted; [apply filter_accepted|].
    now destruct (negb (forallb accepted files)).
  - destruct (clear_hidden u); [constructor|exact Hu].
  - case_bool_decide; [|exact Hu]. cbn [on_delete filesMap renderFileList set_files].
    now apply (map_delete_values (fun f => accepted f = true)).
Qed.

Lemma rendered_ok (u : Uploader) :
  NoDup (map fst (filesMap u)) -> upload_ok (renderFileList u) = true.
Proof.
  intros Hnd. unfold upload_ok. cbn [filesMap listItems clear_hidden renderFileList].
  rewrite bool_decide_eq_true_2 by exact Hnd.
  rewrite bool_decide_eq_true_2 by reflexivity.
  destruct (clear_hidden u); [|reflexivity].
  now rewrite bool_decide_eq_true_2.
Qed.

Lemma upload_ok_NoDup (u : Uploader) : upload_ok u = true -> NoDup (map fst (filesMap u)).
Proof.
  unfold upload_ok. intros Hok. apply andb_prop in Hok as [Hok _].
  apply andb_prop in Hok as [Hok _]. now apply bool_decide_eq_true_1 in Hok.
Qed.

Lemma upload_step_ok (u : Uploader) (ev : UploadEvent) :
  upload_ok u = true -> upload_ok (upload_step u ev) = true.
Proof.
  intros Hok. pose proof (upload_ok_NoDup u Hok) as Hnd.
  destruct ev as [files draw| |key]; cbn [upload_step].
  - apply rendered_ok. cbn [filesMap set_files].
    apply add_files_NoDup. now destruct (negb (forallb accepted files)).
  - destruct (clear_hidden u); [|exact Hok]. apply rendered_ok. constructor.
  - case_bool_decide; [|exact Hok]. apply rendered_ok. cbn [filesMap set_files].
    now apply map_delete_NoDup.
Qed.
End UploadFacts.

(** X17. Starting from the empty map, whatever is selected, cleared or
    deleted, the map only ever holds files whose lower-cased name ends in
    [.csv] or [.txt]; a selection raises the format alert exactly when it
    contains some other file, and still keeps the accepted ones. *)
Theorem only_csv_txt_kept `{CaseMapping} (items : list FileItem) (clear : option bool)
    (evs : list UploadEvent) :
  Forall (fun kv => accepted kv.2 = true)
    (filesMap (foldl upload_step (fresh_uploader items clear) evs))
  /\ forall u files draw,
       upload_alerts (on_change files draw u)
       = upload_alerts u ++ (if forallb accepted files then [] else [format_alert]).
Proof.
  split.
  - assert (Hgen : forall u, Forall (fun kv => accepted kv.2 = true) (filesMap u) ->
                             Forall (fun kv => accepted kv.2 = true)
                               (filesMap (foldl upload_step u evs))).
    { induction evs as [|ev evs IH]; intros u Hu; [exact Hu|].
      cbn [foldl]. apply IH, upload_step_accepted, Hu. }
    apply Hgen. constructor.
  - intros u files draw. unfold on_change.
    cbn [upload_alerts renderFileList set_files].
    destruct (forallb accepted files); cbn [negb upload_alert upload_alerts];
      [now rewrite app_nil_r|reflexivity].
Qed.

Lemma filter_items (key : jsstring) (m : list (jsstring * File)) :
  map item_of (map_delete key m)
  = List.filter (fun it => negb (bool_decide (item_key it = key))) (map item_of m).
Proof.
  unfold map_delete. induction m as [|[k f] rest IH]; [reflexivity|].
  cbn [List.filter map item_of item_key fst].
  destruct (negb (bool_decide (k = key))); cbn [map]; now rewrite IH.
Qed.

Lemma filter_absent (key : jsstring) (l : list jsstring) :
  key ∉ l -> List.filter (fun k => negb (bool_decide (k = key))) l = l.
Proof.
  induction l as [|k l IH]; [reflexivity|]. intros Hk.
  apply not_elem_of_cons in Hk as [Hne Hk]. cbn [List.filter].
  rewrite bool_decide_eq_false_2 by congruence. cbn [negb]. now rewrite IH.
Qed.

Lemma delete_present_length (key : jsstring) (l : list jsstring) :
  NoDup l -> key ∈ l ->
  S (length (List.filter (fun k => negb (bool_decide (k = key))) l)) = length l.
Proof.
  induction 1 as [|k l Hk Hnd IH]; intros Hin; [now apply elem_of_nil in Hin|].
  cbn [List.filter]. case_bool_decide as E; cbn [negb length].
  - subst k. now rewrite filter_absent.
  - f_equal. apply IH. apply elem_of_cons in Hin as [Hin|Hin]; congruence.
Qed.

(** X18. Every handler leaves the list showing exactly the files of the
    map, in order, with the clear button hidden exactly when there is none.
    On such a list the delete button of an item removes that item and no
    other: the remaining items keep their order and the list is one shorter. *)
Theorem delete_removes_one `{CaseMapping} (u : Uploader) (key : jsstring) :
  upload_ok u = true -> key ∈ map fst (filesMap u) ->
  let u' := upload_step u (DeleteClicked key) in
  upload_ok u' = true
  /\ listItems u'
     = List.filter (fun it => negb (bool_decide (item_key it = key))) (listItems u)
  /\ S (length (listItems u')) = length (listItems u)
  /\ (key ∉ map item_key (listItems u'))
  /\ forall ev, upload_ok (upload_step u' ev) = true.
Proof.
  intros Hok Hin. cbn zeta.
  pose proof (upload_step_ok u (DeleteClicked key) Hok) as Hok'.
  pose proof (upload_ok_NoDup u Hok) as Hnd.
  assert (Hlist : listItems u = map item_of (filesMap u)).
  { unfold upload_ok in Hok. apply andb_prop in Hok as [Hok _].
    apply andb_prop in Hok as [_ Hok]. now apply bool_decide_eq_true_1 in Hok. }
  cbn [upload_step] in *.
  rewrite bool_decide_eq_true_2 in * by exact Hin.
  split; [exact Hok'|].
  change (listItems (on_delete key u)) with (map item_of (map_delete key (filesMap u))).
  split; [now rewrite Hlist, filter_items|]. split.
  - rewrite Hlist, !length_map.
    rewrite <- (length_map fst (map_delete key (filesMap u))), map_delete_keys.
    rewrite <- (length_map fst (filesMap u)). now apply delete_present_length.
  - split.
    + rewrite filter_items. intros Hkey. apply list_elem_of_In in Hkey.
      apply in_map_iff in Hkey as (it & E & Hit).
      apply List.filter_In in Hit as [_ Hit]. rewrite E in Hit.
      now rewrite bool_decide_eq_true_2 in Hit.
    + intros ev. now apply upload_step_ok.
Qed.

Lemma delete_removes_one_witness :
  let u := on_change [notes_csv] first_draw (fresh_uploader [] (Some true)) in
  let key := js "Notes.CSV-2048-1700000000000-0.25" in
  let u' := upload_step u (DeleteClicked key) in
  upload_ok u' = true
  /\ listItems u'
     = List.filter (fun it => negb (bool_decide (item_key it = key))) (listItems u)
  /\ S (length (listItems u')) = length (listItems u)
  /\ (key ∉ map item_key (listItems u'))
  /\ forall ev, upload_ok (upload_step u' ev) = true.
Proof.
  apply (delete_removes_one
           (on_change [notes_csv] first_draw (fresh_uploader [] (Some true)))
           (js "Notes.CSV-2048-1700000000000-0.25")).
  - vm_compute. reflexivity.
  - vm_compute. left.
Defined.

(** ** Keys of the map *)

Lemma digits_hyphen (d1 d2 : Decimal.uint) (r1 r2 : jsstring) :
  digits d1 ++ 45 :: r1 = digits d2 ++ 45 :: r2 -> d1 = d2 /\ r1 = r2.
Proof.
  revert d2. induction d1; destruct d2; cbn [digits app]; intros E;
    try discriminate;
    try (injection E as E; destruct (IHd1 _ E) as [-> ->]; now split).
  injection E as E. now split.
Qed.

Lemma to_uint_inj (n m : N) : N.to_uint n = N.to_uint m -> n = m.
Proof.
  intros E. rewrite <- (DecimalN.Unsigned.of_to n), <- (DecimalN.Unsigned.of_to m).
  now rewrite E.
Qed.

Lemma file_key_inj (f : File) (t1 t2 : N) (r1 r2 : jsstring) :
  file_key f t1 r1 = file_key f t2 r2 -> t1 = t2 /\ r1 = r2.
Proof.
  unfold file_key. intros E.
  apply app_inv_head in E. change (js "-") with [45%N] in E. cbn [app] in E.
  injection E as E. apply app_inv_head in E. injection E as E.
  apply digits_hyphen in E as [E ->]. split; [now apply to_uint_inj|reflexivity].
Qed.

(** X19. Selecting the same accepted file a second time lists it a second
    time, after everything already listed, unless the clock and the random
    number of the two selections are the same, in which case the second
    selection takes the place of the first and the file is listed once. *)
Theorem same_file_again `{CaseMapping} (u : Uploader) (f : File) (t1 t2 : N)
    (r1 r2 : jsstring) :
  accepted f = true ->
  file_key f t1 r1 ∉ map fst (filesMap u) ->
  file_key f t2 r2 ∉ map fst (filesMap u) ->
  let u2 := on_change [f] (fun _ => (t2, r2)) (on_change [f] (fun _ => (t1, r1)) u) in
  listItems u2
  = map item_of (filesMap u)
    ++ (if bool_decide (t1 = t2 /\ r1 = r2) then [item_of (file_key f t1 r1, f)]
        else [item_of (file_key f t1 r1, f); item_of (file_key f t2 r2, f)])
  /\ upload_alerts u2 = upload_alerts u.
Proof.
  intros Hf Hk1 Hk2. cbn zeta. unfold on_change.
  cbn [List.filter forallb]. rewrite Hf.
  cbn [andb negb add_files filesMap listItems upload_alerts renderFileList set_files fst snd].
  split; [|reflexivity].
  change (fun kv : jsstring * File =>
            {| item_name := file_name kv.2; item_size := formatFileSize (file_size kv.2);
               item_key := kv.1 |}) with item_of.
  assert (Hset : forall key m, key ∉ map fst m ->
                   map_set key f m = m ++ [(key, f)]).
  { intros key m. induction m as [|[k x] rest IH]; [reflexivity|].
    cbn [map fst map_set]. intros Hin. apply not_elem_of_cons in Hin as [Hne Hin].
    rewrite bool_decide_eq_false_2 by congruence. now rewrite IH. }
  rewrite (Hset _ _ Hk1). case_bool_decide as Hsame.
  - destruct Hsame as [-> ->].
    assert (Hrepl : forall m, file_key f t2 r2 ∉ map fst m ->
              map_set (file_key f t2 r2) f (m ++ [(file_key f t2 r2, f)])
              = m ++ [(file_key f t2 r2, f)]).
    { induction m as [|[k x] rest IH].
      - intros _. cbn [app map_set]. now rewrite bool_decide_eq_true_2.
      - cbn [map fst]. intros Hin. apply not_elem_of_cons in Hin as [Hne Hin].
        cbn [app map_set]. rewrite bool_decide_eq_false_2 by congruence. now rewrite IH. }
    rewrite (Hrepl _ Hk2), map_app. reflexivity.
  - rewrite Hset.
    + rewrite <- app_assoc, map_app. reflexivity.
    + rewrite map_app. cbn [map fst]. intros Hin. apply elem_of_app in Hin as [Hin|Hin].
      * now apply Hk2.
      * apply list_elem_of_singleton in Hin. symmetry in Hin.
        now apply file_key_inj in Hin.
Qed.

Lemma same_file_again_witness :
  let u := fresh_uploader [] None in
  let u2 := on_change [notes_csv] (fun _ => (1700000000300%N, js "0.75"))
              (on_change [notes_csv] (fun _ => (1700000000000%N, js "0.25")) u) in
  listItems u2
  = map item_of (filesMap u)
    ++ (if bool_decide (1700000000000%N = 1700000000300%N /\ js "0.25" = js "0.75")
        then [item_of (file_key notes_csv 1700000000000 (js "0.25"), notes_csv)]
        else [item_of (file_key notes_csv 1700000000000 (js "0.25"), notes_csv);
              item_of (file_key notes_csv 1700000000300 (js "0.75"), notes_csv)])
  /\ upload_alerts u2 = upload_alerts u.
Proof.
  apply (same_file_again (fresh_uploader [] None) notes_csv
           1700000000000 1700000000300 (js "0.25") (js "0.75")).
  - vm_compute. reflexivity.
  - apply not_elem_of_nil.
  - apply not_elem_of_nil.
Defined.

(** ** Sizes as shown *)

(** X20. A size from 1024 bytes up to, not including, 1024 * 1024 is
    shown as a whole part, a point, one digit and [ KB]; the number of
    tenths shown is the one nearest to the size in KB, the larger on a tie.
    The whole part is between 1 and 1024, and it is 1024 exactly for the
    sizes from 1048525 bytes on, which are shown as [1024.0 KB]. *)
Theorem kilobytes_shown (bytes : N) :
  (1024 <= bytes < 1024 * 1024)%N ->
  exists q r : N,
    formatFileSize bytes
    = digits (N.to_uint q) ++ js "." ++ digits (N.to_uint r) ++ js " KB"
    /\ (r < 10)%N
    /\ (1024 * (10 * q + r) <= 10 * bytes + 512 < 1024 * (10 * q + r + 1))%N
    /\ (1 <= q <= 1024)%N
    /\ (q = 1024%N <-> (1048525 <= bytes)%N)
    /\ (q = 1024%N -> r = 0%N).
Proof.
  intros [Hlo Hhi]. unfold formatFileSize, toFixed1.
  replace (bytes <? 1024)%N with false by (symmetry; apply N.ltb_ge; exact Hlo).
  replace (bytes <? 1024 * 1024)%N with true by (symmetry; apply N.ltb_lt; exact Hhi).
  change (1024 / 2)%N with 512%N.
  pose proof (N.div_mod (10 * bytes + 512) 1024 ltac:(discriminate)) as Hdm.
  pose proof (N.mod_lt (10 * bytes + 512) 1024 ltac:(discriminate)) as Hm.
  remember ((10 * bytes + 512) / 1024)%N as tenths eqn:Et.
  remember ((10 * bytes + 512) mod 1024)%N as rest eqn:Er.
  pose proof (N.div_mod tenths 10 ltac:(discriminate)) as Hdm'.
  pose proof (N.mod_lt tenths 10 ltac:(discriminate)) as Hm'.
  exists (tenths / 10)%N, (tenths mod 10)%N.
  remember (tenths / 10)%N as q eqn:Eq.
  remember (tenths mod 10)%N as r eqn:Err.
  clear Et Er Eq Err.
  split; [now rewrite <- !app_assoc|].
  split; [exact Hm'|].
  repeat split; lia.
Qed.

Lemma kilobytes_shown_witness :
  exists q r : N,
    formatFileSize 1048570
    = digits (N.to_uint q) ++ js "." ++ digits (N.to_uint r) ++ js " KB"
    /\ (r < 10)%N
    /\ (1024 * (10 * q + r) <= 10 * 1048570 + 512 < 1024 * (10 * q + r + 1))%N
    /\ (1 <= q <= 1024)%N
    /\ (q = 1024%N <-> (1048525 <= 1048570)%N)
    /\ (q = 1024%N -> r = 0%N).
Proof. apply (kilobytes_shown 1048570). lia. Defined.

Example just_below_a_megabyte : formatFileSize 1048570 = js "1024.0 KB".
Proof. vm_compute. reflexivity. Qed.
